(** * XIAOZI firmware: OTA version check, audio codec port and application core

    A shallow embedding of the parts of the firmware that its specification
    makes claims about:

    - [Ota]         : [main/ota.cc] ([ParseVersion], [IsNewVersionAvailable],
                     [CheckVersion]) over a model of the cJSON tree;
    - [AudioCodec]  : [main/audio_codecs/audio_codec.cc] and
                     [box_audio_codec.cc] ([Read], [Write], [InputData],
                     [Start]) over an abstract codec driver;
    - [Application] : the control core declared in [main/application.h]
                     (device state machine, scheduler, decode queue).

    Calls that abort the firmware ([ESP_ERROR_CHECK], a C++ exception, a
    [std::string] built from a null pointer) are results of type [outcome]. *)

From Stdlib Require Import ZArith Ascii String Lia.
From stdpp Require Import base decidable option list strings gmap.

Local Open Scope Z_scope.
Set Warnings "-register-all".

(** ** Outcomes of a call *)

Inductive failure : Type :=
  | invalid_argument          (* std::invalid_argument thrown by std::stoi *)
  | out_of_range              (* std::out_of_range thrown by std::stoi *)
  | null_string               (* std::string constructed from a null char* *)
  | esp_error_check (code : Z) (* ESP_ERROR_CHECK on a code other than ESP_OK *).

Inductive outcome (A : Type) : Type :=
  | Returns (a : A)
  | Fails (f : failure).
Arguments Returns {A} a.
Arguments Fails {A} f.

Definition obind {A B : Type} (m : outcome A) (k : A -> outcome B) : outcome B :=
  match m with
  | Returns a => k a
  | Fails f => Fails f
  end.

Declare Scope outcome_scope.
Delimit Scope outcome_scope with outcome.
Notation "x <~ m ;; k" := (obind m (fun x => k))
  (at level 20, m at level 99, k at level 200, only parsing) : outcome_scope.
Notation "' p <~ m ;; k" := (obind m (fun p => k))
  (at level 20, p pattern, m at level 99, k at level 200, only parsing)
  : outcome_scope.
Local Open Scope outcome_scope.

Definition INT_MIN : Z := - 2 ^ 31.
Definition INT_MAX : Z := 2 ^ 31 - 1.

(** Conversion of a mathematical integer to a 32-bit [int]. *)
Definition to_int (z : Z) : Z := (z + 2 ^ 31) mod 2 ^ 32 - 2 ^ 31.

(** ** Settings *)

(** Modelled from the spec: settings persistence, an external collaborator
    of the core ([settings.h] is not among the sources). The store behind
    [Settings] is a finite map from (namespace, key) to a stored string or
    32-bit integer; a getter returns the default when the key is absent or
    holds the other type, and a setter writes only through a read-write
    handle. *)
Module Settings.

Inductive nvs_value : Type :=
  | nvs_str (s : string)
  | nvs_i32 (n : Z).

Definition GetString (nvs : gmap (string * string) nvs_value) (ns key : string)
    (default_value : string) : string :=
  match nvs !! (ns, key) with
  | Some (nvs_str s) => s
  | _ => default_value
  end.

Definition GetInt (nvs : gmap (string * string) nvs_value) (ns key : string)
    (default_value : Z) : Z :=
  match nvs !! (ns, key) with
  | Some (nvs_i32 n) => n
  | _ => default_value
  end.

Definition SetString (read_write : bool) (ns key value : string)
    (nvs : gmap (string * string) nvs_value) : gmap (string * string) nvs_value :=
  if read_write then <[(ns, key) := nvs_str value]> nvs else nvs.

Definition SetInt (read_write : bool) (ns key : string) (value : Z)
    (nvs : gmap (string * string) nvs_value) : gmap (string * string) nvs_value :=
  if read_write then <[(ns, key) := nvs_i32 value]> nvs else nvs.

End Settings.

(** ** OTA version check *)

Module Ota.
Import Settings.

(** *** [std::stoi] and [std::getline] *)

Definition isspace (c : ascii) : bool :=
  let n := N_of_ascii c in
  (n =? 32)%N || ((9 <=? n)%N && (n <=? 13)%N).

Definition isdigit (c : ascii) : bool :=
  let n := N_of_ascii c in (48 <=? n)%N && (n <=? 57)%N.

Definition digit_value (c : ascii) : Z := Z.of_N (N_of_ascii c) - 48.

Fixpoint skip_spaces (s : string) : string :=
  match s with
  | String c s' => if isspace c then skip_spaces s' else s
  | EmptyString => s
  end.

(** The longest prefix of decimal digits, accumulated from the left; the
    boolean tells whether any digit was consumed. *)
Fixpoint read_digits (s : string) (acc : Z) (any : bool) : Z * bool :=
  match s with
  | String c s' =>
      if isdigit c then read_digits s' (10 * acc + digit_value c) true
      else (acc, any)
  | EmptyString => (acc, any)
  end.

(** [std::stoi(str)] in base 10: leading white space is skipped, one sign is
    accepted, the digits that follow are converted and the rest of the
    string is ignored. No digit: [std::invalid_argument]; a value that does
    not fit an [int]: [std::out_of_range]. *)
Definition stoi (str : string) : outcome Z :=
  let s := skip_spaces str in
  let '(negative, s) :=
    match s with
    | String "-"%char s' => (true, s')
    | String "+"%char s' => (false, s')
    | _ => (false, s)
    end in
  let '(v, any) := read_digits s 0 false in
  if any then
    let v := if negative then - v else v in
    if (INT_MIN <=? v) && (v <=? INT_MAX) then Returns v else Fails out_of_range
  else Fails invalid_argument.

(** One call [std::getline(ss, segment, delim)] on a stream whose unread
    characters are [ss]: [None] when nothing could be extracted (the stream
    turns false), otherwise the segment and the characters left unread. The
    delimiter is extracted and dropped. *)
Fixpoint getline_chars (ss : string) (delim : ascii) : string * string :=
  match ss with
  | EmptyString => (EmptyString, EmptyString)
  | String c ss' =>
      if Ascii.eqb c delim then (EmptyString, ss')
      else let '(segment, rest) := getline_chars ss' delim in
           (String c segment, rest)
  end.

Definition getline (ss : string) (delim : ascii) : option (string * string) :=
  match ss with
  | EmptyString => None
  | _ => Some (getline_chars ss delim)
  end.

(** *** [Ota::ParseVersion] *)

(** The [while (std::getline(ss, segment, '.'))] loop. Every successful
    [getline] extracts at least one character, so [fuel] iterations suffice
    when [fuel] exceeds the length of the stream; [None] is the loop cut
    short by lack of fuel. *)
Fixpoint ParseVersion_loop (fuel : nat) (ss : string) (versionNumbers : list Z)
  : option (outcome (list Z)) :=
  match fuel with
  | O => None
  | S fuel' =>
      match getline ss "."%char with
      | None => Some (Returns versionNumbers)
      | Some (segment, ss') =>
          match stoi segment with
          | Returns n => ParseVersion_loop fuel' ss' (versionNumbers ++ [n])
          | Fails f => Some (Fails f)
          end
      end
  end.

Definition ParseVersion_fuel (version : string) : nat := S (String.length version).

(** [Ota::ParseVersion]. The loop is given more fuel than the string has
    characters, so it is never cut short. *)
Definition ParseVersion (version : string) : outcome (list Z) :=
  match ParseVersion_loop (ParseVersion_fuel version) version [] with
  | Some r => r
  | None => Returns []
  end.

(** *** [Ota::IsNewVersionAvailable] *)

(** The [for] loop over [i < std::min(current.size(), newer.size())], with
    [todo] iterations left; [None] when the loop runs to its end. *)
Fixpoint IsNewVersionAvailable_loop (todo i : nat) (current newer : list Z)
  : option bool :=
  match todo with
  | O => None
  | S todo' =>
      match current !! i, newer !! i with
      | Some c, Some n =>
          if n >? c then Some true
          else if n <? c then Some false
          else IsNewVersionAvailable_loop todo' (S i) current newer
      | _, _ => None
      end
  end.

Definition compare_versions (current newer : list Z) : bool :=
  match IsNewVersionAvailable_loop
          (Nat.min (length current) (length newer)) 0 current newer with
  | Some b => b
  | None => (length current <? length newer)%nat
  end.

Definition IsNewVersionAvailable (currentVersion newVersion : string)
  : outcome bool :=
  current <~ ParseVersion currentVersion ;;
  newer <~ ParseVersion newVersion ;;
  Returns (compare_versions current newer).

(** The comparison as the specification words it, on the parsed
    components: at the first index where the components differ the new one
    is greater, or all shared components are equal and the new version has
    strictly more of them. *)
Definition newer_at_first_difference (cur new : list Z) : Prop :=
  (exists (i : nat) (c n : Z),
      cur !! i = Some c /\ new !! i = Some n /\ c < n /\
      forall j : nat, (j < i)%nat -> cur !! j = new !! j)
  \/ ((forall (j : nat) (c n : Z), cur !! j = Some c -> new !! j = Some n -> c = n)
      /\ (length cur < length new)%nat).

(** Version strings in canonical form: each component is a non-empty list
    of decimal digits, the components are joined by dots. *)
Definition digit_char (d : nat) : ascii := ascii_of_nat (48 + d).
Arguments digit_char : simpl never.

Fixpoint digits_string (ds : list nat) : string :=
  match ds with
  | [] => EmptyString
  | d :: ds' => String (digit_char d) (digits_string ds')
  end.

Fixpoint digits_value (ds : list nat) (acc : Z) : Z :=
  match ds with
  | [] => acc
  | d :: ds' => digits_value ds' (10 * acc + Z.of_nat d)
  end.

Fixpoint dotted (components : list (list nat)) : string :=
  match components with
  | [] => EmptyString
  | ds :: rest =>
      match rest with
      | [] => digits_string ds
      | _ => String.append (digits_string ds) (String "."%char (dotted rest))
      end
  end.

Definition component_ok (ds : list nat) : Prop :=
  ds <> [] /\ Forall (fun d => (d < 10)%nat) ds /\ digits_value ds 0 <= INT_MAX.

(** *** The cJSON tree

    A parsed response as [cJSON_Parse] builds it. [valueint] of a number is
    the [int] cJSON stores next to the double; the parser also stores 1 in
    [valueint] of [true]. Children of an object carry their key in
    [item->string]; children of an array have a null [string]. *)

Inductive cJSON : Type :=
  | cJSON_False
  | cJSON_True
  | cJSON_NULL
  | cJSON_Number (valueint : Z)
  | cJSON_String (valuestring : string)
  | cJSON_Array (child : list cJSON)
  | cJSON_Object (child : list (string * cJSON)).

Definition valueint (item : cJSON) : Z :=
  match item with
  | cJSON_Number n => n
  | cJSON_True => 1
  | _ => 0
  end.

(** [item->valuestring]: null ([None]) unless the item is a string. *)
Definition valuestring (item : cJSON) : option string :=
  match item with
  | cJSON_String s => Some s
  | _ => None
  end.

(** Construction or assignment of a [std::string] from a [char*]. *)
Definition std_string (p : option string) : outcome string :=
  match p with
  | Some s => Returns s
  | None => Fails null_string
  end.

Definition tolower (c : ascii) : ascii :=
  let n := N_of_ascii c in
  if (65 <=? n)%N && (n <=? 90)%N then ascii_of_N (n + 32) else c.

Fixpoint case_insensitive_eqb (a b : string) : bool :=
  match a, b with
  | EmptyString, EmptyString => true
  | String x a', String y b' =>
      Ascii.eqb (tolower x) (tolower y) && case_insensitive_eqb a' b'
  | _, _ => false
  end.

(** The children of an item with their [string] field, in order. *)
Definition children (item : cJSON) : list (option string * cJSON) :=
  match item with
  | cJSON_Object kvs => map (fun kv => (Some (fst kv), snd kv)) kvs
  | cJSON_Array vs => map (fun v => (None, v)) vs
  | _ => []
  end.

(** [cJSON_GetObjectItem]: the first child whose key equals [name] up to
    the case of letters; null ([None]) when there is none. *)
Fixpoint get_object_item (kvs : list (option string * cJSON)) (name : string)
  : option cJSON :=
  match kvs with
  | [] => None
  | (Some k, v) :: kvs' =>
      if case_insensitive_eqb name k then Some v else get_object_item kvs' name
  | (None, _) :: kvs' => get_object_item kvs' name
  end.

Definition cJSON_GetObjectItem (object : cJSON) (name : string) : option cJSON :=
  get_object_item (children object) name.

(** *** The [Ota] object

    The members that [CheckVersion] reads or writes. The serial number, the
    HTTP headers and the upgrade callback take no part in it. *)

Record Ota : Type := mkOta {
  check_version_url_ : string;
  activation_message_ : string;
  activation_code_ : string;
  has_new_version_ : bool;
  has_mqtt_config_ : bool;
  has_websocket_config_ : bool;
  has_server_time_ : bool;
  has_activation_code_ : bool;
  has_activation_challenge_ : bool;
  current_version_ : string;
  firmware_version_ : string;
  firmware_url_ : string;
  activation_challenge_ : string;
  activation_timeout_ms_ : Z
}.

Definition set_activation_message_ (v : string) (o : Ota) : Ota :=
  mkOta (check_version_url_ o) v (activation_code_ o) (has_new_version_ o)
    (has_mqtt_config_ o) (has_websocket_config_ o) (has_server_time_ o)
    (has_activation_code_ o) (has_activation_challenge_ o)
    (current_version_ o) (firmware_version_ o) (firmware_url_ o)
    (activation_challenge_ o) (activation_timeout_ms_ o).

Definition set_activation_code_ (v : string) (o : Ota) : Ota :=
  mkOta (check_version_url_ o) (activation_message_ o) v (has_new_version_ o)
    (has_mqtt_config_ o) (has_websocket_config_ o) (has_server_time_ o)
    (has_activation_code_ o) (has_activation_challenge_ o)
    (current_version_ o) (firmware_version_ o) (firmware_url_ o)
    (activation_challenge_ o) (activation_timeout_ms_ o).

Definition set_has_new_version_ (v : bool) (o : Ota) : Ota :=
  mkOta (check_version_url_ o) (activation_message_ o) (activation_code_ o) v
    (has_mqtt_config_ o) (has_websocket_config_ o) (has_server_time_ o)
    (has_activation_code_ o) (has_activation_challenge_ o)
    (current_version_ o) (firmware_version_ o) (firmware_url_ o)
    (activation_challenge_ o) (activation_timeout_ms_ o).

Definition set_has_mqtt_config_ (v : bool) (o : Ota) : Ota :=
  mkOta (check_version_url_ o) (activation_message_ o) (activation_code_ o)
    (has_new_version_ o) v (has_websocket_config_ o) (has_server_time_ o)
    (has_activation_code_ o) (has_activation_challenge_ o)
    (current_version_ o) (firmware_version_ o) (firmware_url_ o)
    (activation_challenge_ o) (activation_timeout_ms_ o).

Definition set_has_websocket_config_ (v : bool) (o : Ota) : Ota :=
  mkOta (check_version_url_ o) (activation_message_ o) (activation_code_ o)
    (has_new_version_ o) (has_mqtt_config_ o) v (has_server_time_ o)
    (has_activation_code_ o) (has_activation_challenge_ o)
    (current_version_ o) (firmware_version_ o) (firmware_url_ o)
    (activation_challenge_ o) (activation_timeout_ms_ o).

Definition set_has_server_time_ (v : bool) (o : Ota) : Ota :=
  mkOta (check_version_url_ o) (activation_message_ o) (activation_code_ o)
    (has_new_version_ o) (has_mqtt_config_ o) (has_websocket_config_ o) v
    (has_activation_code_ o) (has_activation_challenge_ o)
    (current_version_ o) (firmware_version_ o) (firmware_url_ o)
    (activation_challenge_ o) (activation_timeout_ms_ o).

Definition set_has_activation_code_ (v : bool) (o : Ota) : Ota :=
  mkOta (check_version_url_ o) (activation_message_ o) (activation_code_ o)
    (has_new_version_ o) (has_mqtt_config_ o) (has_websocket_config_ o)
    (has_server_time_ o) v (has_activation_challenge_ o) (current_version_ o)
    (firmware_version_ o) (firmware_url_ o) (activation_challenge_ o)
    (activation_timeout_ms_ o).

Definition set_has_activation_challenge_ (v : bool) (o : Ota) : Ota :=
  mkOta (check_version_url_ o) (activation_message_ o) (activation_code_ o)
    (has_new_version_ o) (has_mqtt_config_ o) (has_websocket_config_ o)
    (has_server_time_ o) (has_activation_code_ o) v (current_version_ o)
    (firmware_version_ o) (firmware_url_ o) (activation_challenge_ o)
    (activation_timeout_ms_ o).

Definition set_current_version_ (v : string) (o : Ota) : Ota :=
  mkOta (check_version_url_ o) (activation_message_ o) (activation_code_ o)
    (has_new_version_ o) (has_mqtt_config_ o) (has_websocket_config_ o)
    (has_server_time_ o) (has_activation_code_ o)
    (has_activation_challenge_ o) v (firmware_version_ o) (firmware_url_ o)
    (activation_challenge_ o) (activation_timeout_ms_ o).

Definition set_firmware_version_ (v : string) (o : Ota) : Ota :=
  mkOta (check_version_url_ o) (activation_message_ o) (activation_code_ o)
    (has_new_version_ o) (has_mqtt_config_ o) (has_websocket_config_ o)
    (has_server_time_ o) (has_activation_code_ o)
    (has_activation_challenge_ o) (current_version_ o) v (firmware_url_ o)
    (activation_challenge_ o) (activation_timeout_ms_ o).

Definition set_firmware_url_ (v : string) (o : Ota) : Ota :=
  mkOta (check_version_url_ o) (activation_message_ o) (activation_code_ o)
    (has_new_version_ o) (has_mqtt_config_ o) (has_websocket_config_ o)
    (has_server_time_ o) (has_activation_code_ o)
    (has_activation_challenge_ o) (current_version_ o) (firmware_version_ o) v
    (activation_challenge_ o) (activation_timeout_ms_ o).

Definition set_activation_challenge_ (v : string) (o : Ota) : Ota :=
  mkOta (check_version_url_ o) (activation_message_ o) (activation_code_ o)
    (has_new_version_ o) (has_mqtt_config_ o) (has_websocket_config_ o)
    (has_server_time_ o) (has_activation_code_ o)
    (has_activation_challenge_ o) (current_version_ o) (firmware_version_ o)
    (firmware_url_ o) v (activation_timeout_ms_ o).

Definition set_activation_timeout_ms_ (v : Z) (o : Ota) : Ota :=
  mkOta (check_version_url_ o) (activation_message_ o) (activation_code_ o)
    (has_new_version_ o) (has_mqtt_config_ o) (has_websocket_config_ o)
    (has_server_time_ o) (has_activation_code_ o)
    (has_activation_challenge_ o) (current_version_ o) (firmware_version_ o)
    (firmware_url_ o) (activation_challenge_ o) v.

Definition HasNewVersion (o : Ota) : bool := has_new_version_ o.

(** What [CheckVersion] obtains from outside the object: the version of the
    running application, the board's JSON, the HTTP exchange ([None] when
    [Open] fails, otherwise the body that [GetBody] returns) and
    [cJSON_Parse] ([None] for a null root). The headers set by [SetupHttp]
    belong to the exchange and are not modelled. *)
Record Platform : Type := mkPlatform {
  app_version : string;
  board_GetJson : string;
  http_Open : string -> string -> string -> option string;
  cJSON_Parse : string -> option cJSON
}.

(** The [activation] section of the response (ota.cc, lines 152-179). *)
Definition parse_activation (root : cJSON) (o : Ota) : outcome Ota :=
  let o := set_has_activation_code_ false o in
  let o := set_has_activation_challenge_ false o in
  match cJSON_GetObjectItem root "activation" with
  | Some activation =>
      o <~ match cJSON_GetObjectItem activation "message" with
           | Some message =>
               s <~ std_string (valuestring message) ;;
               Returns (set_activation_message_ s o)
           | None => Returns o
           end ;;
      o <~ match cJSON_GetObjectItem activation "code" with
           | Some code =>
               s <~ std_string (valuestring code) ;;
               Returns (set_has_activation_code_ true (set_activation_code_ s o))
           | None => Returns o
           end ;;
      o <~ match cJSON_GetObjectItem activation "challenge" with
           | Some challenge =>
               s <~ std_string (valuestring challenge) ;;
               Returns (set_has_activation_challenge_ true
                          (set_activation_challenge_ s o))
           | None => Returns o
           end ;;
      Returns match cJSON_GetObjectItem activation "timeout_ms" with
              | Some timeout_ms => set_activation_timeout_ms_ (valueint timeout_ms) o
              | None => o
              end
  | None => Returns o
  end.

(** [cJSON_ArrayForEach(item, mqtt)] with its body (lines 191-197): a
    string item is stored under its key unless the stored string equals
    it already. *)
Fixpoint mqtt_items (items : list (option string * cJSON))
    (nvs : gmap (string * string) nvs_value)
  : outcome (gmap (string * string) nvs_value) :=
  match items with
  | [] => Returns nvs
  | (name, item) :: items' =>
      match item with
      | cJSON_String value =>
          key <~ std_string name ;;
          mqtt_items items'
            (if String.eqb (GetString nvs "mqtt" key "") value then nvs
             else SetString true "mqtt" key value nvs)
      | _ => mqtt_items items' nvs
      end
  end.

(** [cJSON_ArrayForEach(item, websocket)] with its body (lines 214-220). *)
Fixpoint websocket_items (items : list (option string * cJSON))
    (nvs : gmap (string * string) nvs_value)
  : outcome (gmap (string * string) nvs_value) :=
  match items with
  | [] => Returns nvs
  | (name, item) :: items' =>
      match item with
      | cJSON_String value =>
          key <~ std_string name ;;
          websocket_items items' (SetString true "websocket" key value nvs)
      | cJSON_Number n =>
          key <~ std_string name ;;
          websocket_items items' (SetInt true "websocket" key n nvs)
      | _ => websocket_items items' nvs
      end
  end.

(** The [server_time] section (lines 226-254). The call of [settimeofday]
    acts on the system clock, which is outside the object. *)
Definition parse_server_time (root : cJSON) (o : Ota) : Ota :=
  let o := set_has_server_time_ false o in
  match cJSON_GetObjectItem root "server_time" with
  | Some server_time =>
      match cJSON_GetObjectItem server_time "timestamp" with
      | Some _ => set_has_server_time_ true o
      | None => o
      end
  | None => o
  end.

(** The [firmware] section (lines 256-290). *)
Definition parse_firmware (root : cJSON) (o : Ota) : outcome Ota :=
  let o := set_has_new_version_ false o in
  match cJSON_GetObjectItem root "firmware" with
  | Some firmware =>
      let version := cJSON_GetObjectItem firmware "version" in
      o <~ match version with
           | Some version =>
               s <~ std_string (valuestring version) ;;
               Returns (set_firmware_version_ s o)
           | None => Returns o
           end ;;
      let url := cJSON_GetObjectItem firmware "url" in
      o <~ match url with
           | Some url =>
               s <~ std_string (valuestring url) ;;
               Returns (set_firmware_url_ s o)
           | None => Returns o
           end ;;
      match version, url with
      | Some _, Some _ =>
          b <~ IsNewVersionAvailable (current_version_ o) (firmware_version_ o) ;;
          let o := set_has_new_version_ b o in
          let force := cJSON_GetObjectItem firmware "force" in
          Returns match force with
                  | Some force =>
                      if valueint force =? 1 then set_has_new_version_ true o
                      else o
                  | None => o
                  end
      | _, _ => Returns o
      end
  | None => Returns o
  end.

(** [Ota::CheckVersion]. The result carries the returned boolean, the
    object after the call and the settings store. *)
Definition CheckVersion (P : Platform) (nvs : gmap (string * string) nvs_value)
    (o : Ota) : outcome (bool * Ota * gmap (string * string) nvs_value) :=
  let o := set_current_version_ (app_version P) o in
  if (String.length (check_version_url_ o) <? 10)%nat then
    Returns (false, o, nvs)
  else
    let data := board_GetJson P in
    let method := if (0 <? String.length data)%nat then "POST" else "GET" in
    match http_Open P method (check_version_url_ o) data with
    | None => Returns (false, o, nvs)
    | Some data =>
        match cJSON_Parse P data with
        | None => Returns (false, o, nvs)
        | Some root =>
            o <~ parse_activation root o ;;
            let o := set_has_mqtt_config_ false o in
            '(o, nvs) <~ match cJSON_GetObjectItem root "mqtt" with
                         | Some mqtt =>
                             nvs <~ mqtt_items (children mqtt) nvs ;;
                             Returns (set_has_mqtt_config_ true o, nvs)
                         | None => Returns (o, nvs)
                         end ;;
            let o := set_has_websocket_config_ false o in
            '(o, nvs) <~ match cJSON_GetObjectItem root "websocket" with
                         | Some websocket =>
                             nvs <~ websocket_items (children websocket) nvs ;;
                             Returns (set_has_websocket_config_ true o, nvs)
                         | None => Returns (o, nvs)
                         end ;;
            let o := parse_server_time root o in
            o <~ parse_firmware root o ;;
            Returns (true, o, nvs)
        end
    end.

(** The response offers an update to a device running [current]: the
    firmware section holds a version string and a url, and the version is
    newer than [current] or the section holds a force item whose
    [valueint] is 1. *)
Definition firmware_update_offered (current : string) (root : cJSON) : Prop :=
  exists (firmware version url : cJSON) (offered : string),
    cJSON_GetObjectItem root "firmware" = Some firmware
    /\ cJSON_GetObjectItem firmware "version" = Some version
    /\ cJSON_GetObjectItem firmware "url" = Some url
    /\ valuestring version = Some offered
    /\ (IsNewVersionAvailable current offered = Returns true
        \/ exists force : cJSON,
             cJSON_GetObjectItem firmware "force" = Some force
             /\ valueint force = 1).

(** The exchange of [CheckVersion] completed: the URL is set, the HTTP
    connection opened and the body parsed to [root]. *)
Definition check_completed (P : Platform) (o : Ota) (root : cJSON) : Prop :=
  (10 <= String.length (check_version_url_ o))%nat
  /\ exists body : string,
       http_Open P (if (0 <? String.length (board_GetJson P))%nat
                    then "POST" else "GET")
                 (check_version_url_ o) (board_GetJson P) = Some body
       /\ cJSON_Parse P body = Some root.

(** Concrete inputs for the examples: a device that runs version 1.6.0
    and asks a server whose answer parses to a given tree. *)
Definition device_ota : Ota :=
  mkOta "https://api.example.com/ota/" "" "" false false false false false
    false "" "" "" "" 30000.

Definition server (version : string) (response : option cJSON) : Platform :=
  mkPlatform version "{}" (fun _ _ _ => Some "response")
    (fun _ => response).

(** The object after [CheckVersion] on [device_ota] and an empty store. *)
Definition after_check (P : Platform) : Ota :=
  match CheckVersion P ∅ device_ota with
  | Returns (_, o', _) => o'
  | Fails _ => device_ota
  end.

Definition response_without_firmware : cJSON := cJSON_Object [].

Definition response_forced (offered : string) : cJSON :=
  cJSON_Object
    [("firmware",
      cJSON_Object [("version", cJSON_String offered);
                    ("url", cJSON_String "https://example.com/fw.bin");
                    ("force", cJSON_Number 1)])].

End Ota.

(** ** The audio codec port *)

Module AudioCodec.
Import Settings.

Definition ESP_OK : Z := 0.

(** *** The codec driver

    The I2S and [esp_codec_dev] calls leave the firmware. Each call is a
    [request]; the driver answers with a status and, for a read, the
    samples it stored in the buffer. A driver is any function of the calls
    made so far, and the hardware state is that history. *)

Inductive i2s_chan_handle_t : Type := tx_handle_ | rx_handle_.
Inductive esp_codec_dev_handle_t : Type := output_dev_ | input_dev_.

Record esp_codec_dev_sample_info_t : Type := mk_sample_info {
  bits_per_sample : Z;
  channel : Z;
  channel_mask : Z;
  sample_rate : Z;
  mclk_multiple : Z
}.

Inductive request : Type :=
  | i2s_channel_enable (handle : i2s_chan_handle_t)
  | esp_codec_dev_open (dev : esp_codec_dev_handle_t)
      (fs : esp_codec_dev_sample_info_t)
  | esp_codec_dev_close (dev : esp_codec_dev_handle_t)
  | esp_codec_dev_set_out_vol (dev : esp_codec_dev_handle_t) (volume : Z)
  | esp_codec_dev_set_in_channel_gain (dev : esp_codec_dev_handle_t)
      (mask : Z) (db : Z)
  | esp_codec_dev_read (dev : esp_codec_dev_handle_t) (len : Z)
  | esp_codec_dev_write (dev : esp_codec_dev_handle_t) (data : list Z) (len : Z).

Record response : Type := mk_response {
  status : Z;
  stored : list Z
}.

Definition driver : Type := list (request * response) -> request -> response.

Definition call (drv : driver) (rq : request) (hw : list (request * response))
  : response * list (request * response) :=
  let r := drv hw rq in (r, hw ++ [(rq, r)]).

(** [ESP_ERROR_CHECK(x)] aborts unless [x] is [ESP_OK]. *)
Definition ESP_ERROR_CHECK (x : response * list (request * response))
  : outcome (list (request * response)) :=
  if status (fst x) =? ESP_OK then Returns (snd x)
  else Fails (esp_error_check (status (fst x))).

(** [ESP_ERROR_CHECK_WITHOUT_ABORT(x)] logs a failure and carries on. *)
Definition ESP_ERROR_CHECK_WITHOUT_ABORT (x : response * list (request * response))
  : response * list (request * response) := x.

Definition ESP_CODEC_DEV_MAKE_CHANNEL_MASK (n : Z) : Z := Z.shiftl 1 n.

(** The number of samples that the device calls of a stretch of history
    moved: what successful reads stored, and what successful writes were
    given. *)
Definition samples_moved (ev : request * response) : Z :=
  match fst ev with
  | esp_codec_dev_read _ _ =>
      if status (snd ev) =? ESP_OK then Z.of_nat (length (stored (snd ev))) else 0
  | esp_codec_dev_write _ data _ =>
      if status (snd ev) =? ESP_OK then Z.of_nat (length data) else 0
  | _ => 0
  end.

Definition samples_transferred (events : list (request * response)) : Z :=
  foldr (fun ev n => samples_moved ev + n) 0 events.

(** *** The [AudioCodec] object (audio_codec.h) *)

Record AudioCodec : Type := mkAudioCodec {
  duplex_ : bool;
  input_reference_ : bool;
  input_enabled_ : bool;
  output_enabled_ : bool;
  input_sample_rate_ : Z;
  output_sample_rate_ : Z;
  input_channels_ : Z;
  output_channels_ : Z;
  output_volume_ : Z
}.

Definition set_input_enabled_ (v : bool) (c : AudioCodec) : AudioCodec :=
  mkAudioCodec (duplex_ c) (input_reference_ c) v (output_enabled_ c)
    (input_sample_rate_ c) (output_sample_rate_ c) (input_channels_ c)
    (output_channels_ c) (output_volume_ c).

Definition set_output_enabled_ (v : bool) (c : AudioCodec) : AudioCodec :=
  mkAudioCodec (duplex_ c) (input_reference_ c) (input_enabled_ c) v
    (input_sample_rate_ c) (output_sample_rate_ c) (input_channels_ c)
    (output_channels_ c) (output_volume_ c).

Definition set_output_volume_ (v : Z) (c : AudioCodec) : AudioCodec :=
  mkAudioCodec (duplex_ c) (input_reference_ c) (input_enabled_ c)
    (output_enabled_ c) (input_sample_rate_ c) (output_sample_rate_ c)
    (input_channels_ c) (output_channels_ c) v.

Definition output_volume (c : AudioCodec) : Z := output_volume_ c.

(** The class of the object decides which [EnableInput] and
    [EnableOutput] a virtual call reaches: [NoAudioCodec] inherits those of
    [AudioCodec], [BoxAudioCodec] overrides them. *)
Inductive codec_class : Type := NoAudioCodec | BoxAudioCodec.

(** [AudioCodec::EnableInput] and [AudioCodec::EnableOutput]. *)
Definition AudioCodec_EnableInput (enable : bool) (c : AudioCodec) : AudioCodec :=
  if Bool.eqb enable (input_enabled_ c) then c else set_input_enabled_ enable c.

Definition AudioCodec_EnableOutput (enable : bool) (c : AudioCodec) : AudioCodec :=
  if Bool.eqb enable (output_enabled_ c) then c else set_output_enabled_ enable c.

(** [BoxAudioCodec::EnableInput]. The gain of 40.0 is passed in dB. *)
Definition BoxAudioCodec_EnableInput (drv : driver) (enable : bool)
    (c : AudioCodec) (hw : list (request * response))
  : outcome (AudioCodec * list (request * response)) :=
  if Bool.eqb enable (input_enabled_ c) then Returns (c, hw)
  else
    hw <~ (if enable then
             let fs := mk_sample_info 16 4 (ESP_CODEC_DEV_MAKE_CHANNEL_MASK 0)
                         (output_sample_rate_ c mod 2 ^ 32) 0 in
             let fs := if input_reference_ c
                       then mk_sample_info 16 4
                              (Z.lor (channel_mask fs)
                                     (ESP_CODEC_DEV_MAKE_CHANNEL_MASK 1))
                              (sample_rate fs) 0
                       else fs in
             hw <~ ESP_ERROR_CHECK (call drv (esp_codec_dev_open input_dev_ fs) hw) ;;
             ESP_ERROR_CHECK
               (call drv (esp_codec_dev_set_in_channel_gain input_dev_
                            (ESP_CODEC_DEV_MAKE_CHANNEL_MASK 0) 40) hw)
           else ESP_ERROR_CHECK (call drv (esp_codec_dev_close input_dev_) hw)) ;;
    Returns (AudioCodec_EnableInput enable c, hw).

(** [BoxAudioCodec::EnableOutput]. *)
Definition BoxAudioCodec_EnableOutput (drv : driver) (enable : bool)
    (c : AudioCodec) (hw : list (request * response))
  : outcome (AudioCodec * list (request * response)) :=
  if Bool.eqb enable (output_enabled_ c) then Returns (c, hw)
  else
    hw <~ (if enable then
             let fs := mk_sample_info 16 1 0 (output_sample_rate_ c mod 2 ^ 32) 0 in
             hw <~ ESP_ERROR_CHECK (call drv (esp_codec_dev_open output_dev_ fs) hw) ;;
             ESP_ERROR_CHECK
               (call drv (esp_codec_dev_set_out_vol output_dev_ (output_volume_ c)) hw)
           else ESP_ERROR_CHECK (call drv (esp_codec_dev_close output_dev_) hw)) ;;
    Returns (AudioCodec_EnableOutput enable c, hw).

(** Virtual dispatch of [EnableInput] and [EnableOutput]. *)
Definition EnableInput (cls : codec_class) (drv : driver) (enable : bool)
    (c : AudioCodec) (hw : list (request * response))
  : outcome (AudioCodec * list (request * response)) :=
  match cls with
  | NoAudioCodec => Returns (AudioCodec_EnableInput enable c, hw)
  | BoxAudioCodec => BoxAudioCodec_EnableInput drv enable c hw
  end.

Definition EnableOutput (cls : codec_class) (drv : driver) (enable : bool)
    (c : AudioCodec) (hw : list (request * response))
  : outcome (AudioCodec * list (request * response)) :=
  match cls with
  | NoAudioCodec => Returns (AudioCodec_EnableOutput enable c, hw)
  | BoxAudioCodec => BoxAudioCodec_EnableOutput drv enable c hw
  end.

(** The buffer after the device stored [data] at its start. *)
Definition store (data dest : list Z) : list Z :=
  take (length dest) data ++ drop (length data) dest.

(** [BoxAudioCodec::Read]: the returned value, the buffer and the hardware
    history after the call. [samples * sizeof(int16_t)] is computed as an
    unsigned 32-bit value and passed as an [int]. *)
Definition Read (drv : driver) (c : AudioCodec) (hw : list (request * response))
    (dest : list Z) (samples : Z) : Z * list Z * list (request * response) :=
  if input_enabled_ c then
    let '(r, hw) :=
      ESP_ERROR_CHECK_WITHOUT_ABORT
        (call drv (esp_codec_dev_read input_dev_ (to_int (samples * 2))) hw) in
    (samples, store (stored r) dest, hw)
  else (samples, dest, hw).

(** [BoxAudioCodec::Write]. *)
Definition Write (drv : driver) (c : AudioCodec) (hw : list (request * response))
    (data : list Z) (samples : Z) : Z * list (request * response) :=
  if output_enabled_ c then
    let '(_, hw) :=
      ESP_ERROR_CHECK_WITHOUT_ABORT
        (call drv (esp_codec_dev_write output_dev_ data (to_int (samples * 2))) hw) in
    (samples, hw)
  else (samples, hw).

(** [AudioCodec::OutputData] and [AudioCodec::InputData], on the [Read] and
    [Write] of [BoxAudioCodec]. *)
Definition OutputData (drv : driver) (c : AudioCodec)
    (hw : list (request * response)) (data : list Z) : list (request * response) :=
  snd (Write drv c hw data (to_int (Z.of_nat (length data)))).

Definition InputData (drv : driver) (c : AudioCodec)
    (hw : list (request * response)) (data : list Z)
  : bool * list Z * list (request * response) :=
  let '(samples, data', hw) := Read drv c hw data (to_int (Z.of_nat (length data))) in
  (0 <? samples, data', hw).

(** [AudioCodec::Start]. *)
Definition Start (cls : codec_class) (drv : driver)
    (nvs : gmap (string * string) nvs_value)
    (c : AudioCodec) (hw : list (request * response))
  : outcome (AudioCodec * list (request * response)) :=
  let c := set_output_volume_ (GetInt nvs "audio" "output_volume" (output_volume_ c)) c in
  let c := if output_volume_ c <=? 0 then set_output_volume_ 10 c else c in
  hw <~ ESP_ERROR_CHECK (call drv (i2s_channel_enable tx_handle_) hw) ;;
  hw <~ ESP_ERROR_CHECK (call drv (i2s_channel_enable rx_handle_) hw) ;;
  '(c, hw) <~ EnableInput cls drv true c hw ;;
  '(c, hw) <~ EnableOutput cls drv true c hw ;;
  Returns (c, hw).

(** [AudioCodec::SetOutputVolume]. *)
Definition SetOutputVolume (volume : Z) (nvs : gmap (string * string) nvs_value)
    (c : AudioCodec) : AudioCodec * gmap (string * string) nvs_value :=
  let c := set_output_volume_ volume c in
  (c, SetInt true "audio" "output_volume" (output_volume_ c) nvs).

(** Concrete inputs for the examples: a driver that accepts every call, one
    that refuses every call, and a codec object as its constructor leaves
    it (both directions disabled, volume 70). *)
Definition accepting_driver : driver := fun _ rq =>
  match rq with
  | esp_codec_dev_read _ len => mk_response ESP_OK (repeat 0 (Z.to_nat (len / 2)))
  | _ => mk_response ESP_OK []
  end.

Definition refusing_driver : driver := fun _ _ => mk_response (-1) [].

Definition box_codec : AudioCodec :=
  mkAudioCodec true false false false 16000 16000 1 1 70.

Definition stored_volume (v : Z) : gmap (string * string) nvs_value :=
  {[ ("audio", "output_volume") := nvs_i32 v ]}.

(** The object and the hardware history after [Start] on [box_codec]. *)
Definition started (cls : codec_class) (drv : driver)
    (nvs : gmap (string * string) nvs_value)
  : AudioCodec * list (request * response) :=
  match Start cls drv nvs box_codec [] with
  | Returns r => r
  | Fails _ => (box_codec, [])
  end.

End AudioCodec.

(** ** The application core *)

Module Application.

(** *** Declarations of application.h *)

Definition SCHEDULE_EVENT : Z := Z.shiftl 1 0.
Definition AUDIO_INPUT_READY_EVENT : Z := Z.shiftl 1 1.
Definition AUDIO_OUTPUT_READY_EVENT : Z := Z.shiftl 1 2.
Definition CHECK_NEW_VERSION_DONE_EVENT : Z := Z.shiftl 1 3.

Inductive DeviceState : Type :=
  | kDeviceStateUnknown
  | kDeviceStateStarting
  | kDeviceStateWifiConfiguring
  | kDeviceStateIdle
  | kDeviceStateConnecting
  | kDeviceStateListening
  | kDeviceStateSpeaking
  | kDeviceStateUpgrading
  | kDeviceStateActivating
  | kDeviceStateFatalError.

#[global] Instance DeviceState_eq_dec : EqDecision DeviceState.
Proof. solve_decision. Defined.

Definition OPUS_FRAME_DURATION_MS : Z := 60.

(** Modelled from the spec: the packet exchanged with the transport
    collaborator (section 3; [protocol.h] is not among the sources): an
    Opus payload and an unsigned 32-bit timestamp in milliseconds. *)
Record AudioStreamPacket : Type := mkPacket {
  payload : list Z;
  timestamp : Z
}.

(** Modelled from the spec: the transient alert tuple of section 3. *)
Record Alert : Type := mkAlert {
  alert_status : string;
  alert_message : string;
  alert_emotion : string;
  alert_sound : string
}.

(** Modelled from the spec: calls made to the transport collaborator and to
    the board/UI collaborator (section 6), kept as logs. [AbortReason] of
    [protocol.h] is taken as a number. *)
Inductive transport_call : Type :=
  | send_stop_listening
  | send_abort_speaking (reason : Z).

Inductive board_call : Type :=
  | show_alert (a : Alert)
  | dismiss_alert
  | set_state_icon (state : DeviceState).

(** Modelled from the spec: what the playback pipeline writes to the Codec
    Port (sections 3, 4.4): a decoded frame of a received packet, or a
    built-in alert sound. *)
Inductive codec_write : Type :=
  | write_frame (packet : AudioStreamPacket)
  | write_sound (sound : string).

(** Modelled from the spec: the callbacks handed to [Schedule] (section
    4.2; [application.cc] is not among the sources). A callback is one of
    the control actions of the core, the delivery of a finished decode
    (section 4.5), a callback that posts another one, or an action that
    leaves the core untouched. *)
Inductive callback : Type :=
  | cb_SetDeviceState (state : DeviceState)
  | cb_AbortSpeaking (reason : Z)
  | cb_StopListening
  | cb_ToggleChatState
  | cb_Alert (a : Alert)
  | cb_DismissAlert
  | cb_decoded (packet : AudioStreamPacket)
  | cb_Schedule (inner : callback)
  | cb_other (id : nat).

(** Modelled from the spec: the state of the core. application.h declares
    [device_state_], [main_tasks_], [event_group_], [aborted_],
    [audio_decode_queue_], [timestamp_queue_] and [last_output_timestamp_];
    the spec adds whether each pipeline is active, the packets in flight in
    the Background Task Executor, the active alert, what was written to the
    Codec Port, the calls to the collaborators, and the callbacks that the
    event loop has run, in order. *)
Record App : Type := mkApp {
  device_state_ : DeviceState;
  main_tasks_ : list callback;
  event_group_ : Z;
  aborted_ : bool;
  audio_decode_queue_ : list AudioStreamPacket;
  timestamp_queue_ : list Z;
  last_output_timestamp_ : Z;
  capture_active : bool;
  playback_active : bool;
  decoding : list AudioStreamPacket;
  alert_ : option Alert;
  codec_port : list codec_write;
  transport_log : list transport_call;
  board_log : list board_call;
  executed : list callback
}.

Definition set_device_state_ (v : DeviceState) (a : App) : App :=
  mkApp v (main_tasks_ a) (event_group_ a) (aborted_ a)
    (audio_decode_queue_ a) (timestamp_queue_ a) (last_output_timestamp_ a)
    (capture_active a) (playback_active a) (decoding a) (alert_ a)
    (codec_port a) (transport_log a) (board_log a) (executed a).

Definition set_main_tasks_ (v : list callback) (a : App) : App :=
  mkApp (device_state_ a) v (event_group_ a) (aborted_ a)
    (audio_decode_queue_ a) (timestamp_queue_ a) (last_output_timestamp_ a)
    (capture_active a) (playback_active a) (decoding a) (alert_ a)
    (codec_port a) (transport_log a) (board_log a) (executed a).

Definition set_event_group_ (v : Z) (a : App) : App :=
  mkApp (device_state_ a) (main_tasks_ a) v (aborted_ a)
    (audio_decode_queue_ a) (timestamp_queue_ a) (last_output_timestamp_ a)
    (capture_active a) (playback_active a) (decoding a) (alert_ a)
    (codec_port a) (transport_log a) (board_log a) (executed a).

Definition set_aborted_ (v : bool) (a : App) : App :=
  mkApp (device_state_ a) (main_tasks_ a) (event_group_ a) v
    (audio_decode_queue_ a) (timestamp_queue_ a) (last_output_timestamp_ a)
    (capture_active a) (playback_active a) (decoding a) (alert_ a)
    (codec_port a) (transport_log a) (board_log a) (executed a).

Definition set_audio_decode_queue_ (v : list AudioStreamPacket) (a : App) : App :=
  mkApp (device_state_ a) (main_tasks_ a) (event_group_ a) (aborted_ a) v
    (timestamp_queue_ a) (last_output_timestamp_ a) (capture_active a)
    (playback_active a) (decoding a) (alert_ a) (codec_port a)
    (transport_log a) (board_log a) (executed a).

Definition set_timestamp_queue_ (v : list Z) (a : App) : App :=
  mkApp (device_state_ a) (main_tasks_ a) (event_group_ a) (aborted_ a)
    (audio_decode_queue_ a) v (last_output_timestamp_ a) (capture_active a)
    (playback_active a) (decoding a) (alert_ a) (codec_port a)
    (transport_log a) (board_log a) (executed a).

Definition set_last_output_timestamp_ (v : Z) (a : App) : App :=
  mkApp (device_state_ a) (main_tasks_ a) (event_group_ a) (aborted_ a)
    (audio_decode_queue_ a) (timestamp_queue_ a) v (capture_active a)
    (playback_active a) (decoding a) (alert_ a) (codec_port a)
    (transport_log a) (board_log a) (executed a).

Definition set_capture_active (v : bool) (a : App) : App :=
  mkApp (device_state_ a) (main_tasks_ a) (event_group_ a) (aborted_ a)
    (audio_decode_queue_ a) (timestamp_queue_ a) (last_output_timestamp_ a) v
    (playback_active a) (decoding a) (alert_ a) (codec_port a)
    (transport_log a) (board_log a) (executed a).

Definition set_playback_active (v : bool) (a : App) : App :=
  mkApp (device_state_ a) (main_tasks_ a) (event_group_ a) (aborted_ a)
    (audio_decode_queue_ a) (timestamp_queue_ a) (last_output_timestamp_ a)
    (capture_active a) v (decoding a) (alert_ a) (codec_port a)
    (transport_log a) (board_log a) (executed a).

Definition set_decoding (v : list AudioStreamPacket) (a : App) : App :=
  mkApp (device_state_ a) (main_tasks_ a) (event_group_ a) (aborted_ a)
    (audio_decode_queue_ a) (timestamp_queue_ a) (last_output_timestamp_ a)
    (capture_active a) (playback_active a) v (alert_ a) (codec_port a)
    (transport_log a) (board_log a) (executed a).

Definition set_alert_ (v : option Alert) (a : App) : App :=
  mkApp (device_state_ a) (main_tasks_ a) (event_group_ a) (aborted_ a)
    (audio_decode_queue_ a) (timestamp_queue_ a) (last_output_timestamp_ a)
    (capture_active a) (playback_active a) (decoding a) v (codec_port a)
    (transport_log a) (board_log a) (executed a).

Definition set_codec_port (v : list codec_write) (a : App) : App :=
  mkApp (device_state_ a) (main_tasks_ a) (event_group_ a) (aborted_ a)
    (audio_decode_queue_ a) (timestamp_queue_ a) (last_output_timestamp_ a)
    (capture_active a) (playback_active a) (decoding a) (alert_ a) v
    (transport_log a) (board_log a) (executed a).

Definition set_transport_log (v : list transport_call) (a : App) : App :=
  mkApp (device_state_ a) (main_tasks_ a) (event_group_ a) (aborted_ a)
    (audio_decode_queue_ a) (timestamp_queue_ a) (last_output_timestamp_ a)
    (capture_active a) (playback_active a) (decoding a) (alert_ a)
    (codec_port a) v (board_log a) (executed a).

Definition set_board_log (v : list board_call) (a : App) : App :=
  mkApp (device_state_ a) (main_tasks_ a) (event_group_ a) (aborted_ a)
    (audio_decode_queue_ a) (timestamp_queue_ a) (last_output_timestamp_ a)
    (capture_active a) (playback_active a) (decoding a) (alert_ a)
    (codec_port a) (transport_log a) v (executed a).

Definition set_executed (v : list callback) (a : App) : App :=
  mkApp (device_state_ a) (main_tasks_ a) (event_group_ a) (aborted_ a)
    (audio_decode_queue_ a) (timestamp_queue_ a) (last_output_timestamp_ a)
    (capture_active a) (playback_active a) (decoding a) (alert_ a)
    (codec_port a) (transport_log a) (board_log a) v.

(** Modelled from the spec: the core at start-up, before any call. *)
Definition init : App :=
  mkApp kDeviceStateUnknown [] 0 false [] [] 0 false false [] None [] [] [] [].

Definition GetDeviceState (a : App) : DeviceState := device_state_ a.

(** *** The device state machine *)

(** Modelled from the spec: the side effects of leaving a state (sections
    4.1, 4.4). Leaving Listening stops capture and notifies the transport;
    leaving Speaking stops playback. *)
Definition leave_state (old : DeviceState) (a : App) : App :=
  match old with
  | kDeviceStateListening =>
      set_transport_log (transport_log a ++ [send_stop_listening])
        (set_capture_active false a)
  | kDeviceStateSpeaking => set_playback_active false a
  | _ => a
  end.

(** Modelled from the spec: the side effects of entering a state (sections
    3, 4.1, 4.3, 4.4). Entering Listening starts capture; entering Speaking
    resets the decoder, clears stale queued audio and starts playback;
    entering Upgrading or FatalError flushes and stops both pipelines. *)
Definition enter_state (state : DeviceState) (a : App) : App :=
  match state with
  | kDeviceStateListening => set_capture_active true a
  | kDeviceStateSpeaking =>
      set_playback_active true
        (set_aborted_ false
           (set_timestamp_queue_ [] (set_audio_decode_queue_ [] a)))
  | kDeviceStateUpgrading | kDeviceStateFatalError =>
      set_playback_active false
        (set_capture_active false (set_audio_decode_queue_ [] a))
  | _ => a
  end.

(** Modelled from the spec: [SetDeviceState] (section 4.1) performs the
    side effects of the transition, then records the state and updates the
    display in the same turn. *)
Definition SetDeviceState (state : DeviceState) (a : App) : App :=
  let old := device_state_ a in
  let a := if decide (old = state) then a
           else enter_state state (leave_state old a) in
  set_board_log (board_log a ++ [set_state_icon state])
    (set_device_state_ state a).

(** Modelled from the spec: [AbortSpeaking] (section 4.4) flushes the
    Decode Queue, stops writing to the Codec Port, then moves to Idle. The
    spec describes the call during Speaking only; in another state nothing
    is changed. *)
Definition AbortSpeaking (reason : Z) (a : App) : App :=
  if decide (device_state_ a = kDeviceStateSpeaking) then
    let a := set_audio_decode_queue_ [] a in
    let a := set_playback_active false (set_aborted_ true a) in
    let a := set_transport_log (transport_log a ++ [send_abort_speaking reason]) a in
    SetDeviceState kDeviceStateIdle a
  else a.

(** Modelled from the spec: [StopListening] (sections 4.1, 8) ends a
    Listening session and is a no-op in any other state. *)
Definition StopListening (a : App) : App :=
  if decide (device_state_ a = kDeviceStateListening)
  then SetDeviceState kDeviceStateIdle a
  else a.

(** Modelled from the spec: [ToggleChatState] (section 4.4): Idle to
    Listening, Listening to Idle, Speaking to Idle followed at once by a
    new Listening session. *)
Definition ToggleChatState (a : App) : App :=
  match device_state_ a with
  | kDeviceStateIdle => SetDeviceState kDeviceStateListening a
  | kDeviceStateListening => StopListening a
  | kDeviceStateSpeaking =>
      SetDeviceState kDeviceStateListening (AbortSpeaking 0 a)
  | _ => a
  end.

(** Modelled from the spec: [Alert] (sections 3, 4.4, 6) shows the alert
    on the board and, when the alert names a sound, plays it through the
    playback pipeline to the Codec Port, whatever the device state. The
    Decode Queue holds received packets only (section 3), so the sound does
    not pass through it. *)
Definition ShowAlert (al : Alert) (a : App) : App :=
  let a := set_board_log (board_log a ++ [show_alert al]) (set_alert_ (Some al) a) in
  if String.eqb (alert_sound al) EmptyString then a
  else set_codec_port (codec_port a ++ [write_sound (alert_sound al)]) a.

(** Modelled from the spec: [DismissAlert] (sections 3, 6, 8) ends the
    active alert and is a no-op when there is none. *)
Definition DismissAlert (a : App) : App :=
  match alert_ a with
  | Some _ => set_board_log (board_log a ++ [dismiss_alert]) (set_alert_ None a)
  | None => a
  end.

(** *** The playback pipeline *)

Section Core.

(** Modelled from the spec: the fixed depth of the Decode Queue (section
    3); the spec gives no number. *)
Variable max_packets : nat.

(** Modelled from the spec: a push to the bounded Decode Queue (section
    4.4): on overflow the oldest packet is dropped and the new one kept. *)
Definition push_packet (queue : list AudioStreamPacket) (packet : AudioStreamPacket)
  : list AudioStreamPacket :=
  if (max_packets <=? length queue)%nat then drop 1 queue ++ [packet]
  else queue ++ [packet].

(** Modelled from the spec: the transport-receive callback (section 4.4)
    appends the packet and signals "playback ready". *)
Definition OnIncomingAudio (packet : AudioStreamPacket) (a : App) : App :=
  set_event_group_ (Z.lor (event_group_ a) AUDIO_OUTPUT_READY_EVENT)
    (set_audio_decode_queue_ (push_packet (audio_decode_queue_ a) packet) a).

(** Modelled from the spec: one playback step (section 4.4) pops one packet
    and submits it for decoding; its timestamp is pending until played. *)
Definition OnAudioOutput (a : App) : App :=
  if playback_active a then
    match audio_decode_queue_ a with
    | packet :: queue =>
        set_decoding (decoding a ++ [packet])
          (set_timestamp_queue_ (timestamp_queue_ a ++ [timestamp packet])
             (set_audio_decode_queue_ queue a))
    | [] => a
    end
  else a.

(** Modelled from the spec: delivery of a decoded frame on the control
    thread (sections 4.4, 5). The result is written to the Codec Port while
    the device is still Speaking and discarded when the state has changed;
    either way the pending timestamp is removed. *)
Definition deliver_decoded (packet : AudioStreamPacket) (a : App) : App :=
  let a' := set_timestamp_queue_ (drop 1 (timestamp_queue_ a)) a in
  if decide (device_state_ a = kDeviceStateSpeaking) then
    if playback_active a then
      set_last_output_timestamp_ (timestamp packet)
        (set_codec_port (codec_port a ++ [write_frame packet]) a')
    else a'
  else a'.

(** *** The scheduler *)

(** Modelled from the spec: [Schedule] (section 4.2) appends the callback
    to the list and raises "work scheduled". *)
Definition Schedule (cb : callback) (a : App) : App :=
  set_event_group_ (Z.lor (event_group_ a) SCHEDULE_EVENT)
    (set_main_tasks_ (main_tasks_ a ++ [cb]) a).

(** Modelled from the spec: the Background Task Executor finishes the
    oldest decode in flight and delivers it through [Schedule] (section
    4.5). *)
Definition background_done (a : App) : App :=
  match decoding a with
  | packet :: rest => Schedule (cb_decoded packet) (set_decoding rest a)
  | [] => a
  end.

(** Modelled from the spec: running one callback on the control thread
    (section 4.2). *)
Definition run_callback (cb : callback) (a : App) : App :=
  let a := set_executed (executed a ++ [cb]) a in
  match cb with
  | cb_SetDeviceState state => SetDeviceState state a
  | cb_AbortSpeaking reason => AbortSpeaking reason a
  | cb_StopListening => StopListening a
  | cb_ToggleChatState => ToggleChatState a
  | cb_Alert al => ShowAlert al a
  | cb_DismissAlert => DismissAlert a
  | cb_decoded packet => deliver_decoded packet a
  | cb_Schedule inner => Schedule inner a
  | cb_other _ => a
  end.

(** Modelled from the spec: draining a list of callbacks in enqueue order
    (section 4.2). *)
Definition run_callbacks (tasks : list callback) (a : App) : App :=
  foldl (fun a cb => run_callback cb a) a tasks.

(** Modelled from the spec: one turn of the event loop (section 4.2). The
    wake flags are read and cleared; (a) on "work scheduled" the list is
    taken and every callback in it is run in order; (c) on "playback
    ready" one playback step is run. The capture step (b) and the tick (d)
    touch nothing that is modelled here. *)
Definition MainEventLoop_turn (a : App) : App :=
  let bits := event_group_ a in
  let a := set_event_group_ 0 a in
  let a := if negb (Z.land bits SCHEDULE_EVENT =? 0) then
             let tasks := main_tasks_ a in
             run_callbacks tasks (set_main_tasks_ [] a)
           else a in
  if negb (Z.land bits AUDIO_OUTPUT_READY_EVENT =? 0) then OnAudioOutput a
  else a.

(** Modelled from the spec: what can happen to the core, from any thread
    (section 5): a callback is posted, a packet arrives, a decode finishes,
    the event loop takes a turn. *)
Inductive event : Type :=
  | ev_Schedule (cb : callback)
  | ev_incoming_audio (packet : AudioStreamPacket)
  | ev_background_done
  | ev_turn.

(** Modelled from the spec: the effect of one event and of a sequence of
    events. *)
Definition step (a : App) (e : event) : App :=
  match e with
  | ev_Schedule cb => Schedule cb a
  | ev_incoming_audio packet => OnIncomingAudio packet a
  | ev_background_done => background_done a
  | ev_turn => MainEventLoop_turn a
  end.

Definition run (events : list event) (a : App) : App := foldl step a events.

End Core.

(** What the scheduler keeps: the pending callbacks, the wake flags and
    the callbacks it has run. *)
Definition sched_view (a : App) : list callback * Z * list callback :=
  (main_tasks_ a, event_group_ a, executed a).

(** The callbacks that running [cb] hands to [Schedule]. *)
Definition posts_of (cb : callback) : list callback :=
  match cb with
  | cb_Schedule inner => [inner]
  | _ => []
  end.

(** Modelled from the spec: the callbacks handed to [Schedule] by one
    event (sections 4.2, 4.5): the callback of a post from outside, the
    delivery of the decode that finishes, and, in a turn of the event loop
    that was woken by "work scheduled", what the callbacks it runs post in
    their turn. *)
Definition posts_at (a : App) (e : event) : list callback :=
  match e with
  | ev_Schedule cb => [cb]
  | ev_incoming_audio _ => []
  | ev_background_done =>
      match decoding a with
      | packet :: _ => [cb_decoded packet]
      | [] => []
      end
  | ev_turn =>
      if Z.testbit (event_group_ a) 0 then flat_map posts_of (main_tasks_ a)
      else []
  end.

(** Modelled from the spec: every callback handed to [Schedule] in the
    course of a sequence of events, in the order of posting. *)
Fixpoint posts_made (max_packets : nat) (events : list event) (a : App)
  : list callback :=
  match events with
  | [] => []
  | e :: events =>
      posts_at a e ++ posts_made max_packets events (step max_packets a e)
  end.

(** The callbacks posted from outside the event loop, in order. *)
Fixpoint scheduled (events : list event) : list callback :=
  match events with
  | [] => []
  | ev_Schedule cb :: events => cb :: scheduled events
  | _ :: events => scheduled events
  end.

(** "Work scheduled" is raised while callbacks are pending. *)
Definition work_flagged (a : App) : Prop :=
  main_tasks_ a <> [] -> Z.testbit (event_group_ a) 0 = true.


(** Whether calls to the board show that [SetDeviceState] was called with
    Speaking, and the alert sounds that go with the alerts shown. *)
Definition speaking_entered (calls : list board_call) : bool :=
  existsb (fun c => match c with
                    | set_state_icon kDeviceStateSpeaking => true
                    | _ => false
                    end) calls.



(** Each pipeline runs in its licensed state only. *)
Definition pipelines_licensed (a : App) : Prop :=
  (capture_active a = true -> device_state_ a = kDeviceStateListening)
  /\ (playback_active a = true -> device_state_ a = kDeviceStateSpeaking).

(** Concrete inputs for the examples: three queued packets with the
    timestamps 100, 160 and 220 ms, a device in Speaking that holds them,
    and an alert. *)
Definition packet_at (ms : Z) : AudioStreamPacket := mkPacket [] ms.

Definition speaking_with_three_packets : App :=
  set_audio_decode_queue_ [packet_at 100; packet_at 160; packet_at 220]
    (SetDeviceState kDeviceStateSpeaking
       (SetDeviceState kDeviceStateIdle init)).

Definition low_battery : Alert := mkAlert "Error" "Low battery" "sad" "".

Definition low_battery_sound : Alert :=
  mkAlert "Error" "Low battery" "sad" "low_battery.p3".

End Application.

(** ** Further parts of the OTA client *)

Module OtaMore.
Import Settings Ota.

(** Text that may follow a version: it holds no dot and does not start
    with a digit ("-rc1", " beta"). *)
Fixpoint has_dot (s : string) : bool :=
  match s with
  | EmptyString => false
  | String c s' => Ascii.eqb c "."%char || has_dot s'
  end.

Definition starts_with_digit (s : string) : bool :=
  match s with
  | String c _ => isdigit c
  | EmptyString => false
  end.

(** Whether an item is there, and whether a section of the response holds
    a given item. *)
Definition present (item : option cJSON) : bool :=
  match item with
  | Some _ => true
  | None => false
  end.

Definition section_has (root : cJSON) (section name : string) : bool :=
  match cJSON_GetObjectItem root section with
  | Some s => present (cJSON_GetObjectItem s name)
  | None => false
  end.

(** The flags that tell which sections a response held. *)
Definition flags (o : Ota) : bool * bool * bool * bool * bool :=
  (has_mqtt_config_ o, has_websocket_config_ o, has_server_time_ o,
   has_activation_code_ o, has_activation_challenge_ o).

(** The string that the last string item named [key] of a section carries,
    and the value that the last string or number item named [key]
    carries. *)
Fixpoint last_string_item (items : list (option string * cJSON)) (key : string)
  : option string :=
  match items with
  | [] => None
  | (name, item) :: items' =>
      match last_string_item items' key with
      | Some v => Some v
      | None =>
          match name, item with
          | Some k, cJSON_String v => if String.eqb k key then Some v else None
          | _, _ => None
          end
      end
  end.

Fixpoint last_value_item (items : list (option string * cJSON)) (key : string)
  : option nvs_value :=
  match items with
  | [] => None
  | (name, item) :: items' =>
      match last_value_item items' key with
      | Some v => Some v
      | None =>
          match name, item with
          | Some k, cJSON_String v =>
              if String.eqb k key then Some (nvs_str v) else None
          | Some k, cJSON_Number n =>
              if String.eqb k key then Some (nvs_i32 n) else None
          | _, _ => None
          end
      end
  end.

(** A response with configuration sections, for the examples. *)
Definition response_with_config : cJSON :=
  cJSON_Object
    [("mqtt",
      cJSON_Object [("endpoint", cJSON_String "old.example.com");
                    ("port", cJSON_Number 8883);
                    ("endpoint", cJSON_String "mqtt.example.com")]);
     ("websocket",
      cJSON_Object [("url", cJSON_String "wss://example.com/ws");
                    ("version", cJSON_Number 3)]);
     ("server_time", cJSON_Object [("timestamp", cJSON_Number 1700000000)])].

(** The settings store after [CheckVersion] on [device_ota]. *)
Definition settings_after_check (P : Platform)
    (nvs : gmap (string * string) nvs_value) : gmap (string * string) nvs_value :=
  match CheckVersion P nvs device_ota with
  | Returns (_, _, nvs') => nvs'
  | Fails _ => nvs
  end.

End OtaMore.

(** ** Activation *)

Module OtaActivate.
Import Ota.

Definition ESP_OK : Z := 0.
Definition ESP_FAIL : Z := -1.
Definition ESP_ERR_TIMEOUT : Z := 263.

(** [url.back()]: the last character; a string without characters has
    none (the call is undefined there). *)
Fixpoint back (url : string) : option ascii :=
  match url with
  | EmptyString => None
  | String c EmptyString => Some c
  | String _ rest => back rest
  end.

(** The address that [Activate] posts to: the check URL followed by
    "/activate", or by "activate" when it ends with a slash. *)
Definition activation_url (check_version_url_ : string) : option string :=
  match back check_version_url_ with
  | None => None
  | Some c =>
      Some (if negb (Ascii.eqb c "/"%char)
            then String.append check_version_url_ "/activate"
            else String.append check_version_url_ "activate")
  end.

(** [sprintf(buffer, "%02x", byte)] for a byte: two lower-case hexadecimal
    digits. *)
Definition hex_digit (n : Z) : ascii :=
  if n <? 10 then ascii_of_N (Z.to_N (48 + n)) else ascii_of_N (Z.to_N (87 + n)).

Definition byte_hex (b : Z) : string :=
  String (hex_digit (b / 16)) (String (hex_digit (b mod 16)) EmptyString).

(** The loop over [hmac_result] that builds [hmac_hex]. *)
Fixpoint hmac_hex (hmac_result : list Z) : string :=
  match hmac_result with
  | [] => EmptyString
  | b :: rest => String.append (byte_hex b) (hmac_hex rest)
  end.

(** [Ota::GetActivationPayload]: [None] stands for the text "{}", a tree
    for the text that [cJSON_Print] makes of it. [esp_hmac_calculate] is
    [None] on a chip without HMAC support (the field is then empty), and
    answers [None] when the calculation fails. *)
Definition GetActivationPayload (has_serial_number_ : bool)
    (serial_number_ activation_challenge_ : string)
    (esp_hmac_calculate : option (string -> option (list Z))) : option cJSON :=
  if negb has_serial_number_ then None
  else
    let payload (hex : string) :=
      cJSON_Object [("algorithm", cJSON_String "hmac-sha256");
                    ("serial_number", cJSON_String serial_number_);
                    ("challenge", cJSON_String activation_challenge_);
                    ("hmac", cJSON_String hex)] in
    match esp_hmac_calculate with
    | None => Some (payload EmptyString)
    | Some calculate =>
        match calculate activation_challenge_ with
        | None => None
        | Some hmac_result => Some (payload (hmac_hex hmac_result))
        end
    end.

(** [Ota::Activate]. [http] answers a POST to an address with [None] when
    the connection does not open, otherwise with the status code and the
    body. The result is the returned code and the request made, if any;
    [None] where [url.back()] is undefined. *)
Definition Activate (has_activation_challenge_ : bool)
    (check_version_url_ : string) (data : string)
    (http : string -> string -> option (Z * string))
  : option (Z * option (string * string)) :=
  if negb has_activation_challenge_ then Some (ESP_FAIL, None)
  else
    match activation_url check_version_url_ with
    | None => None
    | Some url =>
        match http url data with
        | None => Some (ESP_FAIL, Some (url, data))
        | Some (status_code, _) =>
            if status_code =? 202 then Some (ESP_ERR_TIMEOUT, Some (url, data))
            else if negb (status_code =? 200) then Some (ESP_FAIL, Some (url, data))
            else Some (ESP_OK, Some (url, data))
        end
    end.

(** The value of a hexadecimal digit, to read [hmac_hex] back. *)
Definition hex_value (c : ascii) : Z :=
  let n := Z.of_N (N_of_ascii c) in
  if n <? 58 then n - 48 else n - 87.

Fixpoint hex_bytes (s : string) : list Z :=
  match s with
  | String hi (String lo rest) => (16 * hex_value hi + hex_value lo) :: hex_bytes rest
  | _ => []
  end.

End OtaActivate.

(** ** The board with two networks *)

Module DualNetworkBoard.
Import Settings.

(** [dual_network_board.h] is not among the sources; the network types and
    the boards are the ones that dual_network_board.cc names. *)
Inductive NetworkType : Type := WIFI | ML307.

Inductive board : Type :=
  | WifiBoard
  | Ml307Board (tx_pin rx_pin rx_buffer_size : Z).

Inductive notification : Type :=
  | SWITCH_TO_4G_NETWORK
  | SWITCH_TO_WIFI_NETWORK.

Record DualNetworkBoard : Type := mkBoard {
  ml307_tx_pin_ : Z;
  ml307_rx_pin_ : Z;
  ml307_rx_buffer_size_ : Z;
  network_type_ : NetworkType;
  current_board_ : board
}.

(** [DualNetworkBoard::LoadNetworkTypeFromSettings]. *)
Definition LoadNetworkTypeFromSettings (nvs : gmap (string * string) nvs_value)
  : NetworkType :=
  let network_type := GetInt nvs "network" "type" 1 in
  if network_type =? 1 then ML307 else WIFI.

(** [DualNetworkBoard::SaveNetworkTypeToSettings]. *)
Definition SaveNetworkTypeToSettings (type : NetworkType)
    (nvs : gmap (string * string) nvs_value) : gmap (string * string) nvs_value :=
  let network_type := match type with ML307 => 1 | WIFI => 0 end in
  SetInt true "network" "type" network_type nvs.

(** [DualNetworkBoard::InitializeCurrentBoard]: the board that is made. *)
Definition InitializeCurrentBoard (tx rx size : Z) (network_type_ : NetworkType)
  : board :=
  match network_type_ with
  | ML307 => Ml307Board tx rx size
  | WIFI => WifiBoard
  end.

(** The constructor. *)
Definition construct (tx rx size : Z) (nvs : gmap (string * string) nvs_value)
  : DualNetworkBoard :=
  let network_type_ := LoadNetworkTypeFromSettings nvs in
  mkBoard tx rx size network_type_ (InitializeCurrentBoard tx rx size network_type_).

(** [DualNetworkBoard::SwitchNetworkType] up to the reboot it ends with:
    the settings it leaves and the notification it shows. *)
Definition SwitchNetworkType (b : DualNetworkBoard)
    (nvs : gmap (string * string) nvs_value)
  : gmap (string * string) nvs_value * notification :=
  match network_type_ b with
  | WIFI => (SaveNetworkTypeToSettings ML307 nvs, SWITCH_TO_4G_NETWORK)
  | ML307 => (SaveNetworkTypeToSettings WIFI nvs, SWITCH_TO_WIFI_NETWORK)
  end.

(** The board after [SwitchNetworkType] and the reboot. *)
Definition switch_and_reboot (b : DualNetworkBoard)
    (nvs : gmap (string * string) nvs_value)
  : DualNetworkBoard * gmap (string * string) nvs_value :=
  let nvs' := (SwitchNetworkType b nvs).1 in
  (construct (ml307_tx_pin_ b) (ml307_rx_pin_ b) (ml307_rx_buffer_size_ b) nvs',
   nvs').

Definition other (type : NetworkType) : NetworkType :=
  match type with
  | WIFI => ML307
  | ML307 => WIFI
  end.

End DualNetworkBoard.

(** ** The firmware download *)

Module OtaUpgrade.

Definition ESP_OK : Z := 0.

(** The layout of an application image as ESP-IDF declares it, a
    parameter of the model: where the application description starts
    ([sizeof(esp_image_header_t) + sizeof(esp_image_segment_header_t)]),
    its size ([sizeof(esp_app_desc_t)]), and where its [version] field
    lies and how long it is. *)
Record image_layout : Type := mk_layout {
  desc_offset : nat;
  desc_size : nat;
  version_offset : nat;
  version_size : nat
}.

Definition esp32_layout : image_layout := mk_layout 32 256 16 32.

(** The calls that [Upgrade] makes to the OTA driver, kept as a history;
    the driver answers with an error code and, for [esp_ota_begin], the
    handle it opened. *)
Inductive ota_request : Type :=
  | esp_ota_begin
  | esp_ota_write (handle : Z) (data : list Z)
  | esp_ota_abort (handle : Z)
  | esp_ota_end (handle : Z)
  | esp_ota_set_boot_partition
  | esp_restart.

Record ota_response : Type := mk_ota_response {
  err : Z;
  opened : Z
}.

Definition ota_driver : Type :=
  list (ota_request * ota_response) -> ota_request -> ota_response.

Definition ota_call (drv : ota_driver) (rq : ota_request)
    (trace : list (ota_request * ota_response))
  : ota_response * list (ota_request * ota_response) :=
  let r := drv trace rq in (r, trace ++ [(rq, r)]).

(** How a call of [Upgrade] ends: one of its [return] statements, the
    restart, or a read that never comes back ([waiting], when the list of
    reads is used up). *)
Inductive ending : Type :=
  | no_partition
  | open_failed
  | no_content_length
  | read_failed
  | same_version
  | begin_failed
  | write_failed
  | end_failed
  | set_boot_failed
  | restarted
  | waiting.

Section Upgrade.

Variable layout : image_layout.
Variable drv : ota_driver.
(** Whether [upgrade_callback_] is set. *)
Variable has_callback : bool.
(** [esp_app_get_description()->version], the bytes of the array. *)
Variable current_version : list Z.
(** [http->GetBodyLength()]. *)
Variable content_length : Z.
(** [esp_timer_get_time()]: the reading of the n-th call. *)
Variable clock : nat -> Z.

(** After the loop: [esp_ota_end], [esp_ota_set_boot_partition], restart. *)
Definition Upgrade_finish (update_handle : Z)
    (trace : list (ota_request * ota_response))
  : ending * list (ota_request * ota_response) :=
  let '(r, trace) := ota_call drv (esp_ota_end update_handle) trace in
  if negb (err r =? ESP_OK) then (end_failed, trace)
  else
    let '(r, trace) := ota_call drv esp_ota_set_boot_partition trace in
    if negb (err r =? ESP_OK) then (set_boot_failed, trace)
    else
      let '(_, trace) := ota_call drv esp_restart trace in
      (restarted, trace).

(** The [while (true)] loop of [Upgrade] over the results of
    [http->Read(buffer, 512)]: [None] for a negative result, otherwise the
    bytes read (none at the end of the body). The counters are [size_t]
    values of 32 bits. The result carries the ending, the history of OTA
    calls and the (progress, speed) pairs given to the callback. *)
Fixpoint Upgrade_loop (reads : list (option (list Z)))
    (total_read recent_read last_calc_time : Z)
    (image_header : list Z) (image_header_checked : bool) (update_handle : Z)
    (ticks : nat) (trace : list (ota_request * ota_response))
    (callbacks : list (Z * Z))
  : ending * list (ota_request * ota_response) * list (Z * Z) :=
  match reads with
  | [] => (waiting, trace, callbacks)
  | None :: _ => (read_failed, trace, callbacks)
  | Some buffer :: reads' =>
      let ret := Z.of_nat (length buffer) in
      let recent_read := (recent_read + ret) mod 2 ^ 32 in
      let total_read := (total_read + ret) mod 2 ^ 32 in
      let now := clock ticks in
      let ticks := S ticks in
      let report := (1000000 <=? now - last_calc_time) || (ret =? 0) in
      let progress := (total_read * 100) mod 2 ^ 32 / content_length in
      let callbacks :=
        if report && has_callback
        then callbacks ++ [(to_int progress, recent_read)] else callbacks in
      let last_calc_time := if report then clock ticks else last_calc_time in
      let ticks := if report then S ticks else ticks in
      let recent_read := if report then 0 else recent_read in
      if ret =? 0 then
        let '(e, trace) := Upgrade_finish update_handle trace in
        (e, trace, callbacks)
      else
        let write (update_handle : Z) (image_header : list Z)
              (image_header_checked : bool)
              (trace : list (ota_request * ota_response)) :=
          let '(r, trace) := ota_call drv (esp_ota_write update_handle buffer) trace in
          if negb (err r =? ESP_OK) then
            let '(_, trace) := ota_call drv (esp_ota_abort update_handle) trace in
            (write_failed, trace, callbacks)
          else
            Upgrade_loop reads' total_read recent_read last_calc_time
              image_header image_header_checked update_handle ticks trace
              callbacks in
        if image_header_checked then
          write update_handle image_header image_header_checked trace
        else
          let image_header := image_header ++ buffer in
          if (desc_offset layout + desc_size layout <=? length image_header)%nat then
            let new_version :=
              take (version_size layout)
                (drop (desc_offset layout + version_offset layout) image_header) in
            if bool_decide (new_version = take (version_size layout) current_version)
            then (same_version, trace, callbacks)
            else
              let '(r, trace) := ota_call drv esp_ota_begin trace in
              if negb (err r =? 0) then
                let '(_, trace) := ota_call drv (esp_ota_abort (opened r)) trace in
                (begin_failed, trace, callbacks)
              else write (opened r) [] true trace
          else write update_handle image_header image_header_checked trace
  end.

(** [Ota::Upgrade], from the answers of the partition table and of the
    HTTP client. *)
Definition Upgrade (partition_found open_ok : bool)
    (reads : list (option (list Z)))
  : ending * list (ota_request * ota_response) * list (Z * Z) :=
  if negb partition_found then (no_partition, [], [])
  else if negb open_ok then (open_failed, [], [])
  else if content_length =? 0 then (no_content_length, [], [])
  else Upgrade_loop reads 0 0 (clock 0) [] false 0 1 [] [].

End Upgrade.

(** Drivers and an image for the examples: a driver that accepts every
    call and opens handle 7, one that refuses a write to a handle it did
    not open, and an image of 300 bytes whose version field holds 2s. *)
Definition willing_driver : ota_driver := fun _ _ => mk_ota_response ESP_OK 7.

Definition strict_driver : ota_driver := fun _ rq =>
  match rq with
  | esp_ota_write 0 _ => mk_ota_response 258 0
  | _ => mk_ota_response ESP_OK 7
  end.

Definition image_2 : list Z := repeat 0 48 ++ repeat 2 32 ++ repeat 0 220.

(** A history of OTA calls that ends with an update ended and a boot
    partition set, both accepted by the driver, and then the restart. *)
Definition ends_validated (trace : list (ota_request * ota_response)) : Prop :=
  exists pre h r1 r2 r3,
    trace = pre ++ [(esp_ota_end h, r1); (esp_ota_set_boot_partition, r2);
                    (esp_restart, r3)]
    /\ err r1 = ESP_OK /\ err r2 = ESP_OK.

(** The bytes handed to [esp_ota_write] along a list of calls, in order. *)
Fixpoint written (calls : list ota_request) : list Z :=
  match calls with
  | [] => []
  | esp_ota_write _ data :: calls' => data ++ written calls'
  | _ :: calls' => written calls'
  end.

(** The version field of an image header. *)
Definition version_of (layout : image_layout) (image_header : list Z) : list Z :=
  take (version_size layout)
    (drop (desc_offset layout + version_offset layout) image_header).

End OtaUpgrade.

(** ** The codec port in use *)

Module BoxCodec.
Import Settings AudioCodec.

(** [BoxAudioCodec::SetOutputVolume]: the volume goes to the device, then to
    the object and to the settings ([AudioCodec::SetOutputVolume]). *)
Definition BoxAudioCodec_SetOutputVolume (drv : driver) (volume : Z)
    (nvs : gmap (string * string) nvs_value)
    (c : AudioCodec) (hw : list (request * response))
  : outcome (AudioCodec * gmap (string * string) nvs_value
             * list (request * response)) :=
  hw <~ ESP_ERROR_CHECK
          (call drv (esp_codec_dev_set_out_vol output_dev_ volume) hw) ;;
  let '(c, nvs) := SetOutputVolume volume nvs c in
  Returns (c, nvs, hw).

(** The public operations of a [BoxAudioCodec] object, and a run of them
    on the object, the settings and the hardware history. *)
Inductive codec_op : Type :=
  | op_Start
  | op_EnableInput (enable : bool)
  | op_EnableOutput (enable : bool)
  | op_SetOutputVolume (volume : Z)
  | op_InputData (data : list Z)
  | op_OutputData (data : list Z).

Definition run_op (drv : driver) (op : codec_op)
    (st : AudioCodec * gmap (string * string) nvs_value
          * list (request * response))
  : outcome (AudioCodec * gmap (string * string) nvs_value
             * list (request * response)) :=
  let '(c, nvs, hw) := st in
  match op with
  | op_Start =>
      '(c, hw) <~ Start BoxAudioCodec drv nvs c hw ;; Returns (c, nvs, hw)
  | op_EnableInput enable =>
      '(c, hw) <~ EnableInput BoxAudioCodec drv enable c hw ;; Returns (c, nvs, hw)
  | op_EnableOutput enable =>
      '(c, hw) <~ EnableOutput BoxAudioCodec drv enable c hw ;; Returns (c, nvs, hw)
  | op_SetOutputVolume volume => BoxAudioCodec_SetOutputVolume drv volume nvs c hw
  | op_InputData data => Returns (c, nvs, (InputData drv c hw data).2)
  | op_OutputData data => Returns (c, nvs, OutputData drv c hw data)
  end.

Fixpoint run_ops (drv : driver) (ops : list codec_op)
    (st : AudioCodec * gmap (string * string) nvs_value
          * list (request * response))
  : outcome (AudioCodec * gmap (string * string) nvs_value
             * list (request * response)) :=
  match ops with
  | [] => Returns st
  | op :: ops' => st' <~ run_op drv op st ;; run_ops drv ops' st'
  end.

(** The discipline of the two devices, read along a hardware history from
    a state in which the input device is open or not and the output device
    is open or not: a device is opened only while closed and closed only
    while open, samples are read from the open input device only and
    written to the open output device only, the input gain is set on the
    open input device. [None] when an event breaks the discipline,
    otherwise the devices that are open at the end. *)
Fixpoint follow (events : list (request * response)) (in_open out_open : bool)
  : option (bool * bool) :=
  match events with
  | [] => Some (in_open, out_open)
  | (rq, _) :: events' =>
      match rq with
      | i2s_channel_enable _ => follow events' in_open out_open
      | esp_codec_dev_open input_dev_ _ =>
          if in_open then None else follow events' true out_open
      | esp_codec_dev_open output_dev_ _ =>
          if out_open then None else follow events' in_open true
      | esp_codec_dev_close input_dev_ =>
          if in_open then follow events' false out_open else None
      | esp_codec_dev_close output_dev_ =>
          if out_open then follow events' in_open false else None
      | esp_codec_dev_set_out_vol output_dev_ _ => follow events' in_open out_open
      | esp_codec_dev_set_out_vol input_dev_ _ => None
      | esp_codec_dev_set_in_channel_gain input_dev_ _ _ =>
          if in_open then follow events' in_open out_open else None
      | esp_codec_dev_set_in_channel_gain output_dev_ _ _ => None
      | esp_codec_dev_read input_dev_ _ =>
          if in_open then follow events' in_open out_open else None
      | esp_codec_dev_read output_dev_ _ => None
      | esp_codec_dev_write output_dev_ _ _ =>
          if out_open then follow events' in_open out_open else None
      | esp_codec_dev_write input_dev_ _ _ => None
      end
  end.

(** The object knows which devices are open. *)
Definition tracked (c : AudioCodec) (hw : list (request * response)) : Prop :=
  follow hw false false = Some (input_enabled_ c, output_enabled_ c).

(** Whether an event sets the output volume of the device. *)
Definition sets_volume (ev : request * response) : bool :=
  match ev.1 with
  | esp_codec_dev_set_out_vol _ _ => true
  | _ => false
  end.

End BoxCodec.

(** * Properties *)

(** ** Outcomes *)

Lemma obind_Returns {A B : Type} (m : outcome A) (k : A -> outcome B) (b : B) :
  obind m k = Returns b -> exists a, m = Returns a /\ k a = Returns b.
Proof. destruct m as [a|f]; simpl; [eauto|discriminate]. Qed.

Ltac bind_inv H :=
  let a := fresh "x" in
  let Ha := fresh "Hx" in
  apply obind_Returns in H; destruct H as (a & Ha & H).

(** ** Version comparison *)

Module OtaFacts.
Import Settings Ota.

Example ParseVersion_dotted : ParseVersion "1.10.3" = Returns [1; 10; 3].
Proof. reflexivity. Qed.

Example ParseVersion_trailing_dot : ParseVersion "2.0." = Returns [2; 0].
Proof. reflexivity. Qed.

Example ParseVersion_empty_segment : ParseVersion "1..2" = Fails invalid_argument.
Proof. reflexivity. Qed.

Example ParseVersion_too_large : ParseVersion "1.2147483648" = Fails out_of_range.
Proof. reflexivity. Qed.

Example IsNewVersionAvailable_minor :
  IsNewVersionAvailable "0.0.1" "0.1.0" = Returns true.
Proof. reflexivity. Qed.

(** A successful [getline] leaves a strictly shorter stream. *)
Lemma getline_chars_length (ss : string) (delim : ascii) :
  (String.length (snd (getline_chars ss delim)) <= String.length ss)%nat.
Proof.
  induction ss as [|c ss IH]; simpl; [lia|].
  destruct (Ascii.eqb c delim); simpl; [lia|].
  destruct (getline_chars ss delim) as [segment rest]; simpl in *; lia.
Qed.

Lemma getline_shorter (ss segment rest : string) (delim : ascii) :
  getline ss delim = Some (segment, rest) ->
  (String.length rest < String.length ss)%nat.
Proof.
  destruct ss as [|c ss]; simpl; [discriminate|].
  intros H; injection H as H.
  pose proof (getline_chars_length ss delim) as Hlen.
  destruct (Ascii.eqb c delim).
  - injection H as _ <-. lia.
  - destruct (getline_chars ss delim) as [sg rs]; simpl in *.
    injection H as _ <-. lia.
Qed.

(** The loop of [ParseVersion] never runs out of the fuel it is given. *)
Lemma ParseVersion_loop_fuel (fuel : nat) :
  forall (ss : string) (acc : list Z),
    (String.length ss < fuel)%nat ->
    exists r, ParseVersion_loop fuel ss acc = Some r.
Proof.
  induction fuel as [|fuel IH]; intros ss acc Hlt; [lia|].
  simpl. destruct (getline ss ".") as [[segment rest]|] eqn:Hg; [|eauto].
  destruct (stoi segment) as [n|f]; [|eauto].
  apply IH. apply getline_shorter in Hg. lia.
Qed.

Lemma ParseVersion_total (version : string) :
  exists r, ParseVersion_loop (ParseVersion_fuel version) version [] = Some r
            /\ ParseVersion version = r.
Proof.
  destruct (ParseVersion_loop_fuel (ParseVersion_fuel version) version [])
    as [r Hr]; [unfold ParseVersion_fuel; lia|].
  exists r. split; [exact Hr|]. unfold ParseVersion. now rewrite Hr.
Qed.

(** [ParseVersion] reads a canonical version string back as its
    components. *)
Lemma digit_char_facts (d : nat) :
  (d < 10)%nat ->
  isdigit (digit_char d) = true
  /\ digit_value (digit_char d) = Z.of_nat d
  /\ isspace (digit_char d) = false
  /\ Ascii.eqb (digit_char d) "." = false
  /\ Ascii.eqb (digit_char d) "-" = false
  /\ Ascii.eqb (digit_char d) "+" = false.
Proof.
  intros Hd. do 10 (destruct d as [|d]; [vm_compute; repeat split|]). lia.
Qed.

Lemma digits_value_nonneg (ds : list nat) :
  forall acc : Z, 0 <= acc -> 0 <= digits_value ds acc.
Proof.
  induction ds as [|d ds IH]; intros acc Hacc; simpl; [exact Hacc|].
  apply IH. lia.
Qed.

Lemma read_digits_digits (ds : list nat) :
  Forall (fun d => (d < 10)%nat) ds ->
  forall (acc : Z) (any : bool),
    read_digits (digits_string ds) acc any
    = (digits_value ds acc, match ds with [] => any | _ => true end).
Proof.
  induction 1 as [|d ds Hd Hds IH]; intros acc any; [reflexivity|].
  cbn [digits_string read_digits digits_value].
  destruct (digit_char_facts d Hd) as (-> & -> & _).
  rewrite IH. destruct ds; reflexivity.
Qed.

Lemma stoi_digits (ds : list nat) :
  component_ok ds -> stoi (digits_string ds) = Returns (digits_value ds 0).
Proof.
  intros (Hne & Hds & Hmax). destruct ds as [|d ds]; [contradiction|].
  inversion Hds as [|? ? Hd Hrest]; subst.
  destruct (digit_char_facts d Hd) as (Hdig & Hval & Hsp & _ & Hminus & Hplus).
  unfold stoi. cbn [digits_string skip_spaces]. rewrite Hsp.
  assert (match String (digit_char d) (digits_string ds) with
          | String "-"%char s' => (true, s')
          | String "+"%char s' => (false, s')
          | _ => (false, String (digit_char d) (digits_string ds))
          end = (false, String (digit_char d) (digits_string ds))) as ->.
  { clear -Hd. do 10 (destruct d as [|d]; [reflexivity|]). lia. }
  cbn [read_digits]. rewrite Hdig, Hval, read_digits_digits by assumption.
  cbn [digits_value] in Hmax.
  pose proof (digits_value_nonneg ds (10 * 0 + Z.of_nat d) ltac:(lia)) as Hpos.
  replace (match ds with [] => true | _ => true end) with true
    by (destruct ds; reflexivity).
  replace (INT_MIN <=? digits_value ds (10 * 0 + Z.of_nat d)) with true
    by (symmetry; apply Z.leb_le; unfold INT_MIN; lia).
  replace (digits_value ds (10 * 0 + Z.of_nat d) <=? INT_MAX) with true
    by (symmetry; apply Z.leb_le; exact Hmax).
  reflexivity.
Qed.

Lemma getline_chars_component (ds : list nat) (rest : string) :
  Forall (fun d => (d < 10)%nat) ds ->
  getline_chars (String.append (digits_string ds) (String "." rest)) "."
  = (digits_string ds, rest).
Proof.
  induction 1 as [|d ds Hd Hds IH]; [reflexivity|].
  change (getline_chars
            (String (digit_char d)
               (String.append (digits_string ds) (String "." rest))) "."
          = (String (digit_char d) (digits_string ds), rest)).
  cbn [getline_chars].
  destruct (digit_char_facts d Hd) as (_ & _ & _ & -> & _).
  now rewrite IH.
Qed.

Lemma getline_chars_last_component (ds : list nat) :
  Forall (fun d => (d < 10)%nat) ds ->
  getline_chars (digits_string ds) "." = (digits_string ds, EmptyString).
Proof.
  induction 1 as [|d ds Hd Hds IH]; [reflexivity|].
  cbn [digits_string getline_chars].
  destruct (digit_char_facts d Hd) as (_ & _ & _ & -> & _).
  now rewrite IH.
Qed.

Lemma length_component (ds : list nat) (rest : string) :
  String.length (String.append (digits_string ds) (String "." rest))
  = S (length ds + String.length rest).
Proof.
  induction ds as [|d ds IH]; [reflexivity|].
  change (S (String.length (String.append (digits_string ds) (String "." rest)))
          = S (length (d :: ds) + String.length rest)).
  rewrite IH. cbn [length]. lia.
Qed.

Lemma ParseVersion_loop_dotted (components : list (list nat)) :
  Forall component_ok components ->
  forall (fuel : nat) (acc : list Z),
    (String.length (dotted components) < fuel)%nat ->
    ParseVersion_loop fuel (dotted components) acc
    = Some (Returns (acc ++ map (fun ds => digits_value ds 0) components)).
Proof.
  induction 1 as [|ds rest Hok Hrest IH]; intros fuel acc Hfuel.
  - destruct fuel as [|fuel]; [simpl in Hfuel; lia|].
    simpl. now rewrite app_nil_r.
  - destruct fuel as [|fuel]; [lia|].
    pose proof Hok as (Hne & Hds & _).
    destruct ds as [|d ds]; [contradiction|].
    destruct rest as [|ds' rest].
    + change (dotted [d :: ds]) with (digits_string (d :: ds)) in *.
      cbn [ParseVersion_loop].
      change (getline (digits_string (d :: ds)) ".")
        with (Some (getline_chars (digits_string (d :: ds)) ".")).
      rewrite getline_chars_last_component by assumption.
      rewrite stoi_digits by assumption.
      destruct fuel as [|fuel]; [simpl in Hfuel; lia|]. reflexivity.
    + change (dotted ((d :: ds) :: ds' :: rest))
        with (String.append (digits_string (d :: ds))
                (String "." (dotted (ds' :: rest)))) in *.
      cbn [ParseVersion_loop].
      change (getline (String.append (digits_string (d :: ds))
                         (String "." (dotted (ds' :: rest)))) ".")
        with (Some (getline_chars
                      (String.append (digits_string (d :: ds))
                         (String "." (dotted (ds' :: rest)))) ".")).
      rewrite getline_chars_component by assumption.
      rewrite stoi_digits by assumption.
      rewrite IH.
      * rewrite <- app_assoc. reflexivity.
      * rewrite length_component in Hfuel. lia.
Qed.

Lemma ParseVersion_canonical (components : list (list nat)) :
  Forall component_ok components ->
  ParseVersion (dotted components)
  = Returns (map (fun ds => digits_value ds 0) components).
Proof.
  intros Hok. unfold ParseVersion.
  rewrite (ParseVersion_loop_dotted components Hok _ []); [reflexivity|].
  unfold ParseVersion_fuel. lia.
Qed.

Example dotted_version : dotted [[1]; [1; 0]; [3]]%nat = "1.10.3".
Proof. reflexivity. Qed.

(** The index-driven loop on two non-empty vectors looks at the heads and
    goes on with the tails. *)
Lemma IsNewVersionAvailable_loop_shift (todo i : nat) (c n : Z) (cs ns : list Z) :
  IsNewVersionAvailable_loop todo (S i) (c :: cs) (n :: ns)
  = IsNewVersionAvailable_loop todo i cs ns.
Proof.
  revert i. induction todo as [|todo IH]; intros i; simpl; [reflexivity|].
  destruct (cs !! i) as [x|]; [|reflexivity].
  destruct (ns !! i) as [y|]; [|reflexivity].
  destruct (y >? x); [reflexivity|].
  destruct (y <? x); [reflexivity|].
  apply IH.
Qed.

Lemma compare_versions_cons (c n : Z) (cs ns : list Z) :
  compare_versions (c :: cs) (n :: ns)
  = if n >? c then true else if n <? c then false else compare_versions cs ns.
Proof.
  unfold compare_versions. simpl.
  destruct (n >? c); [reflexivity|].
  destruct (n <? c); [reflexivity|].
  rewrite IsNewVersionAvailable_loop_shift.
  destruct (IsNewVersionAvailable_loop _ 0 cs ns); [reflexivity|].
  reflexivity.
Qed.

Lemma compare_versions_nil_l (ns : list Z) :
  compare_versions [] ns = (0 <? length ns)%nat.
Proof. reflexivity. Qed.

Lemma compare_versions_nil_r (cs : list Z) : compare_versions cs [] = false.
Proof.
  unfold compare_versions. rewrite Nat.min_0_r. simpl.
  apply Nat.ltb_ge. lia.
Qed.

Lemma newer_at_first_difference_cons (c : Z) (cs ns : list Z) :
  newer_at_first_difference (c :: cs) (c :: ns)
  <-> newer_at_first_difference cs ns.
Proof.
  unfold newer_at_first_difference. split.
  - intros [(i & x & y & Hx & Hy & Hlt & Heq) | [Heq Hlen]].
    + destruct i as [|i]; simpl in *.
      * injection Hx as <-. injection Hy as <-. lia.
      * left. exists i, x, y. repeat split; try assumption.
        intros j Hj. apply (Heq (S j)). lia.
    + right. split.
      * intros j x y Hx Hy. exact (Heq (S j) x y Hx Hy).
      * simpl in Hlen. lia.
  - intros [(i & x & y & Hx & Hy & Hlt & Heq) | [Heq Hlen]].
    + left. exists (S i), x, y. repeat split; try assumption.
      intros [|j] Hj; simpl; [reflexivity|]. apply Heq. lia.
    + right. split.
      * intros [|j] x y Hx Hy; simpl in *.
        -- congruence.
        -- exact (Heq j x y Hx Hy).
      * simpl. lia.
Qed.

(** The loop of the code decides the comparison of the specification. *)
Lemma compare_versions_spec (cur new : list Z) :
  compare_versions cur new = true <-> newer_at_first_difference cur new.
Proof.
  revert new. induction cur as [|c cs IH]; intros [|n ns].
  - rewrite compare_versions_nil_l. simpl. split; [discriminate|].
    intros [(i & x & y & Hx & _) | [_ Hlen]]; [discriminate|simpl in Hlen; lia].
  - rewrite compare_versions_nil_l. simpl. split; [|reflexivity].
    intros _. right. split; [intros j x y Hx; discriminate|simpl; lia].
  - rewrite compare_versions_nil_r. split; [discriminate|].
    intros [(i & x & y & _ & Hy & _) | [_ Hlen]]; [discriminate|simpl in Hlen; lia].
  - rewrite compare_versions_cons.
    destruct (n >? c) eqn:Hgt.
    + split; [|reflexivity]. intros _. left. exists 0%nat, c, n.
      repeat split; [lia|intros j Hj; lia].
    + destruct (n <? c) eqn:Hlt.
      * split; [discriminate|].
        assert (Hne : n < c) by lia.
        intros [(i & x & y & Hx & Hy & Hxy & Heq) | [Heq _]].
        -- destruct i as [|i]; simpl in *.
           ++ injection Hx as <-. injection Hy as <-. lia.
           ++ specialize (Heq 0%nat ltac:(lia)). simpl in Heq.
              injection Heq as Heq. lia.
        -- specialize (Heq 0%nat c n eq_refl eq_refl). lia.
      * assert (n = c) as -> by lia.
        rewrite IH. symmetry. apply newer_at_first_difference_cons.
Qed.

Lemma compare_versions_refl (v : list Z) : compare_versions v v = false.
Proof.
  induction v as [|c cs IH]; [reflexivity|].
  rewrite compare_versions_cons.
  replace (c >? c) with false by lia. replace (c <? c) with false by lia.
  exact IH.
Qed.

(** C8. For version strings that [ParseVersion] turns into integer
    sequences [c] and [n], [IsNewVersionAvailable] returns, and it returns
    true exactly when, at the first index where the components differ, the
    new component is greater, or all shared components are equal and the
    new version has strictly more components; a version is never newer
    than itself. *)
Theorem IsNewVersionAvailable_first_difference
    (cur new : string) (c n : list Z) :
  ParseVersion cur = Returns c ->
  ParseVersion new = Returns n ->
  (exists b : bool,
      IsNewVersionAvailable cur new = Returns b
      /\ (b = true <-> newer_at_first_difference c n))
  /\ IsNewVersionAvailable cur cur = Returns false.
Proof.
  intros Hc Hn. unfold IsNewVersionAvailable. rewrite Hc, Hn. simpl. split.
  - exists (compare_versions c n). split; [reflexivity|].
    apply compare_versions_spec.
  - now rewrite compare_versions_refl.
Qed.

Lemma IsNewVersionAvailable_first_difference_witness :
  (exists b : bool,
      IsNewVersionAvailable "1.2.3" "1.10" = Returns b
      /\ (b = true <-> newer_at_first_difference [1; 2; 3] [1; 10]))
  /\ IsNewVersionAvailable "1.2.3" "1.2.3" = Returns false.
Proof.
  apply (IsNewVersionAvailable_first_difference "1.2.3" "1.10" [1; 2; 3] [1; 10]);
    reflexivity.
Defined.

(** ** The version check *)

(** The firmware section decides [has_new_version_]. *)
Lemma parse_firmware_has_new_version (root : cJSON) (o o' : Ota) :
  parse_firmware root o = Returns o' ->
  has_new_version_ o' = true <-> firmware_update_offered (current_version_ o) root.
Proof.
  unfold parse_firmware, firmware_update_offered. intros H.
  destruct (cJSON_GetObjectItem root "firmware") as [fw|] eqn:Hfw.
  2:{ injection H as <-. simpl. split; [discriminate|].
      intros (? & ? & ? & ? & ? & _); discriminate. }
  bind_inv H. bind_inv H.
  destruct (cJSON_GetObjectItem fw "version") as [v|] eqn:Hv.
  2:{ injection Hx as <-.
      assert (has_new_version_ x0 = false) as Hf.
      { destruct (cJSON_GetObjectItem fw "url"); [bind_inv Hx0|];
          injection Hx0 as <-; reflexivity. }
      injection H as <-. rewrite Hf. split; [discriminate|].
      intros (? & ? & ? & ? & E & E' & _). congruence. }
  bind_inv Hx. injection Hx as <-.
  destruct (valuestring v) as [vs|] eqn:Hvs; [|discriminate].
  injection Hx1 as <-.
  destruct (cJSON_GetObjectItem fw "url") as [u|] eqn:Hu.
  2:{ injection Hx0 as <-. injection H as <-. simpl. split; [discriminate|].
      intros (? & ? & ? & ? & E & _ & E' & _). congruence. }
  bind_inv Hx0. injection Hx0 as <-.
  bind_inv H. simpl in Hx0. injection H as <-.
  destruct (cJSON_GetObjectItem fw "force") as [f|] eqn:Hf.
  - destruct (valueint f =? 1) eqn:Hone; simpl.
    + split; [|reflexivity]. intros _.
      exists fw, v, u, vs. repeat split; try assumption.
      right. exists f. split; [assumption|lia].
    + split.
      * intros ->. exists fw, v, u, vs. repeat split; try assumption. now left.
      * intros (fw' & v' & u' & vs' & E1 & E2 & E3 & E4 & [E5 | (f' & E6 & E7)]).
        -- congruence.
        -- assert (f' = f) as -> by congruence. lia.
  - simpl. split.
    + intros ->. exists fw, v, u, vs. repeat split; try assumption. now left.
    + intros (fw' & v' & u' & vs' & E1 & E2 & E3 & E4 & [E5 | (f' & E6 & E7)]).
      * congruence.
      * congruence.
Qed.

Lemma parse_activation_current_version (root : cJSON) (o o' : Ota) :
  parse_activation root o = Returns o' -> current_version_ o' = current_version_ o.
Proof.
  unfold parse_activation. intros H.
  destruct (cJSON_GetObjectItem root "activation") as [act|];
    [|injection H as <-; reflexivity].
  bind_inv H. bind_inv H. bind_inv H. injection H as <-.
  assert (current_version_ x1 = current_version_ o) as <-.
  { transitivity (current_version_ x0); [|transitivity (current_version_ x)].
    - destruct (cJSON_GetObjectItem act "challenge"); [bind_inv Hx1|];
        injection Hx1 as <-; reflexivity.
    - destruct (cJSON_GetObjectItem act "code"); [bind_inv Hx0|];
        injection Hx0 as <-; reflexivity.
    - destruct (cJSON_GetObjectItem act "message"); [bind_inv Hx|];
        injection Hx as <-; reflexivity. }
  destruct (cJSON_GetObjectItem act "timeout_ms"); reflexivity.
Qed.

(** The two ways in which [CheckVersion] returns. *)
Lemma CheckVersion_Returns (P : Platform) (nvs nvs' : gmap (string * string) nvs_value)
    (o o' : Ota) (b : bool) :
  CheckVersion P nvs o = Returns (b, o', nvs') ->
  (b = true /\ exists (root : cJSON) (o1 : Ota),
       check_completed P o root
       /\ current_version_ o1 = app_version P
       /\ parse_firmware root o1 = Returns o')
  \/ (b = false /\ (forall root, ~ check_completed P o root)
      /\ o' = set_current_version_ (app_version P) o /\ nvs' = nvs).
Proof.
  unfold CheckVersion, check_completed. simpl.
  destruct (String.length (check_version_url_ o) <? 10)%nat eqn:Hurl.
  { intros H. injection H as <- <- <-. right. repeat split.
    intros root [Hlen _]. apply Nat.ltb_lt in Hurl. lia. }
  apply Nat.ltb_ge in Hurl.
  destruct (http_Open P _ _ _) as [body|] eqn:Hopen.
  2:{ intros H. injection H as <- <- <-. right. repeat split.
      intros root (_ & body & Hb & _). discriminate. }
  destruct (cJSON_Parse P body) as [root|] eqn:Hparse.
  2:{ intros H. injection H as <- <- <-. right. repeat split.
      intros root (_ & body' & Hb & Hp). congruence. }
  intros H. left.
  bind_inv H. bind_inv H. destruct x0 as [o2 nvs2].
  bind_inv H. destruct x0 as [o3 nvs3].
  bind_inv H. injection H as <- <- <-.
  split; [reflexivity|]. eexists root, _. split; [|split; [|exact Hx2]].
  - split; [exact Hurl|]. exists body. split; [reflexivity|assumption].
  - apply parse_activation_current_version in Hx. simpl in Hx.
    assert (current_version_ o2 = app_version P) as H2.
    { destruct (cJSON_GetObjectItem root "mqtt"); [bind_inv Hx0|];
        injection Hx0 as <- _; simpl; exact Hx. }
    assert (current_version_ o3 = app_version P) as H3.
    { destruct (cJSON_GetObjectItem root "websocket"); [bind_inv Hx1|];
        injection Hx1 as <- _; simpl; exact H2. }
    unfold parse_server_time.
    destruct (cJSON_GetObjectItem root "server_time") as [st|]; [|exact H3].
    destruct (cJSON_GetObjectItem st "timestamp"); exact H3.
Qed.

Lemma check_completed_functional (P : Platform) (o : Ota) (root root' : cJSON) :
  check_completed P o root -> check_completed P o root' -> root = root'.
Proof.
  intros (_ & body & Hb & Hp) (_ & body' & Hb' & Hp'). congruence.
Qed.

(** C2, as the code has it. Whenever [CheckVersion] returns, its result is
    true exactly when the check completed: the check URL has at least 10
    characters, the HTTP connection opened and the body parsed. Whether
    an update exists is told by [HasNewVersion] afterwards: after a result
    of true it holds exactly when the parsed response offers an update. *)
Theorem CheckVersion_reports_completion
    (P : Platform) (nvs nvs' : gmap (string * string) nvs_value)
    (o o' : Ota) (b : bool) :
  CheckVersion P nvs o = Returns (b, o', nvs') ->
  (b = true <-> exists root, check_completed P o root)
  /\ (b = true ->
      (HasNewVersion o' = true
       <-> exists root, check_completed P o root
                        /\ firmware_update_offered (app_version P) root)).
Proof.
  intros H. apply CheckVersion_Returns in H.
  destruct H as [(-> & root & o1 & Hc & Hv & Hf) | (-> & Hn & _)].
  - split; [split; eauto|]. intros _.
    apply parse_firmware_has_new_version in Hf. rewrite Hv in Hf.
    unfold HasNewVersion. rewrite Hf. split.
    + intros Hoff. exists root. split; assumption.
    + intros (root' & Hc' & Hoff).
      now rewrite (check_completed_functional P o root root' Hc Hc').
  - split; [|discriminate]. split; [discriminate|].
    intros [root Hc]. exfalso. exact (Hn root Hc).
Qed.

Lemma CheckVersion_reports_completion_witness :
  let P := server "1.6.0" (Some response_without_firmware) in
  CheckVersion P ∅ device_ota = Returns (true, after_check P, ∅)
  /\ (true = true <-> exists root, check_completed P device_ota root)
  /\ (true = true ->
      (HasNewVersion (after_check P) = true
       <-> exists root, check_completed P device_ota root
                        /\ firmware_update_offered "1.6.0" root)).
Proof.
  intros P. split; [vm_compute; reflexivity|].
  apply (CheckVersion_reports_completion P ∅ ∅ device_ota (after_check P) true).
  vm_compute. reflexivity.
Defined.

(** C2, as stated, fails: the server answers with a response that has no
    firmware section; [CheckVersion] returns true although no new version
    is available afterwards. *)
Lemma CheckVersion_true_without_new_version :
  let P := server "1.6.0" (Some response_without_firmware) in
  CheckVersion P ∅ device_ota = Returns (true, after_check P, ∅)
  /\ HasNewVersion (after_check P) = false
  /\ ~ (true = true <-> HasNewVersion (after_check P) = true).
Proof.
  intros P. split; [vm_compute; reflexivity|]. split; [reflexivity|].
  intros [H _]. specialize (H eq_refl). discriminate.
Qed.

(** The other direction fails too: an object that saw an update in an
    earlier check keeps [HasNewVersion] true when a later check cannot open
    its connection and returns false. *)
Example CheckVersion_false_keeps_new_version :
  let P := mkPlatform "1.6.0" "{}" (fun _ _ _ => None) (fun _ => None) in
  let o := set_has_new_version_ true device_ota in
  CheckVersion P ∅ o = Returns (false, set_current_version_ "1.6.0" o, ∅)
  /\ HasNewVersion (set_current_version_ "1.6.0" o) = true.
Proof. split; reflexivity. Qed.

(** C9. When the check completed and the firmware section of the response
    holds a version, a url and a force item whose [valueint] is 1, a
    returning [CheckVersion] leaves [HasNewVersion] true, whatever the
    offered version is. *)
Theorem CheckVersion_force
    (P : Platform) (nvs nvs' : gmap (string * string) nvs_value)
    (o o' : Ota) (b : bool) (root firmware version url force : cJSON) :
  check_completed P o root ->
  cJSON_GetObjectItem root "firmware" = Some firmware ->
  cJSON_GetObjectItem firmware "version" = Some version ->
  cJSON_GetObjectItem firmware "url" = Some url ->
  cJSON_GetObjectItem firmware "force" = Some force ->
  valueint force = 1 ->
  CheckVersion P nvs o = Returns (b, o', nvs') ->
  b = true /\ HasNewVersion o' = true.
Proof.
  intros Hc Hfw Hv Hu Hf Hone H. apply CheckVersion_Returns in H.
  destruct H as [(-> & root' & o1 & Hc' & Hcur & Hp) | (_ & Hn & _)].
  2:{ exfalso. exact (Hn root Hc). }
  split; [reflexivity|].
  rewrite <- (check_completed_functional P o root root' Hc Hc') in Hp.
  pose proof Hp as Hp'. apply parse_firmware_has_new_version in Hp'.
  unfold HasNewVersion. apply Hp'.
  unfold parse_firmware in Hp. rewrite Hfw, Hv, Hu in Hp.
  bind_inv Hp. bind_inv Hx. clear Hp Hx.
  destruct (valuestring version) as [offered|] eqn:Hvs; [|discriminate].
  exists firmware, version, url, offered. repeat split; try assumption.
  right. exists force. split; assumption.
Qed.

Lemma CheckVersion_force_witness :
  let P := server "1.6.0" (Some (response_forced "1.5.9")) in
  IsNewVersionAvailable "1.6.0" "1.5.9" = Returns false
  /\ CheckVersion P ∅ device_ota = Returns (true, after_check P, ∅)
  /\ true = true /\ HasNewVersion (after_check P) = true.
Proof.
  intros P. split; [reflexivity|]. split; [vm_compute; reflexivity|].
  apply (CheckVersion_force P ∅ ∅ device_ota (after_check P) true
           (response_forced "1.5.9")
           (cJSON_Object [("version", cJSON_String "1.5.9");
                          ("url", cJSON_String "https://example.com/fw.bin");
                          ("force", cJSON_Number 1)])
           (cJSON_String "1.5.9")
           (cJSON_String "https://example.com/fw.bin")
           (cJSON_Number 1)); try (vm_compute; reflexivity).
  split; [simpl; lia|]. exists "response". split; reflexivity.
Defined.

Example forced_update_same_version :
  HasNewVersion (after_check (server "1.6.0" (Some (response_forced "1.6.0"))))
  = true.
Proof. vm_compute. reflexivity. Qed.

(** A forced version that [std::stoi] rejects: the exception leaves
    [CheckVersion] before the force item is looked at. *)
Example forced_update_unparsable_version :
  CheckVersion (server "1.6.0" (Some (response_forced "beta"))) ∅ device_ota
  = Fails invalid_argument.
Proof. vm_compute. reflexivity. Qed.

(** [CheckVersion] does return on a response that has a firmware section
    with a version string and a url string and no activation, mqtt or
    websocket section, when both versions parse. *)
Lemma CheckVersion_returns
    (P : Platform) (nvs : gmap (string * string) nvs_value) (o : Ota)
    (root firmware : cJSON) (offered link : string) (c n : list Z) :
  check_completed P o root ->
  cJSON_GetObjectItem root "activation" = None ->
  cJSON_GetObjectItem root "mqtt" = None ->
  cJSON_GetObjectItem root "websocket" = None ->
  cJSON_GetObjectItem root "firmware" = Some firmware ->
  cJSON_GetObjectItem firmware "version" = Some (cJSON_String offered) ->
  cJSON_GetObjectItem firmware "url" = Some (cJSON_String link) ->
  ParseVersion (app_version P) = Returns c ->
  ParseVersion offered = Returns n ->
  exists o', CheckVersion P nvs o = Returns (true, o', nvs).
Proof.
  intros (Hlen & body & Hopen & Hparse) Ha Hm Hw Hf Hv Hu Hc Hn.
  unfold CheckVersion. simpl.
  replace (String.length (check_version_url_ o) <? 10)%nat with false
    by (symmetry; apply Nat.ltb_ge; exact Hlen).
  rewrite Hopen, Hparse. unfold parse_activation. rewrite Ha, Hm, Hw. simpl.
  unfold parse_firmware. rewrite Hf, Hv, Hu. simpl.
  unfold IsNewVersionAvailable.
  assert (forall o1, current_version_ (parse_server_time root o1)
                     = current_version_ o1) as Hst.
  { intros o1. unfold parse_server_time.
    destruct (cJSON_GetObjectItem root "server_time") as [st|]; [|reflexivity].
    destruct (cJSON_GetObjectItem st "timestamp"); reflexivity. }
  rewrite Hst. simpl. rewrite Hc, Hn. simpl. eauto.
Qed.

End OtaFacts.

(** ** The codec port *)

Module AudioCodecFacts.
Import Settings AudioCodec.

Example Read_enabled :
  Read accepting_driver (set_input_enabled_ true box_codec) [] [7; 7; 7] 3
  = (3, [0; 0; 0],
     [(esp_codec_dev_read input_dev_ 6, mk_response ESP_OK [0; 0; 0])]).
Proof. reflexivity. Qed.

Example Read_device_failure :
  Read refusing_driver (set_input_enabled_ true box_codec) [] [7; 7; 7] 3
  = (3, [7; 7; 7], [(esp_codec_dev_read input_dev_ 6, mk_response (-1) [])]).
Proof. reflexivity. Qed.

(** C1, as stated, fails: with the input disabled a read of 160 samples
    makes no device call, so no sample is read, and still returns 160; the
    same holds for a write with the output disabled. *)
Lemma Read_disabled_returns_request :
  Read accepting_driver box_codec [] (repeat 0 160%nat) 160
  = (160, repeat 0 160%nat, [])
  /\ Write accepting_driver box_codec [] (repeat 0 160%nat) 160 = (160, [])
  /\ samples_transferred [] = 0
  /\ 160 <> samples_transferred [].
Proof. repeat split; try reflexivity. intros H; discriminate H. Qed.

(** C1, as the code has it. [Read] and [Write] return the requested number
    of samples in every case. With the direction enabled they make one
    device call, whatever its status; with the direction disabled they
    make none and leave the buffer alone. [InputData], which asks [Read]
    for as many samples as its buffer holds, is therefore true exactly
    when that size, taken as an [int], is positive, whether or not a
    sample was read. *)
Theorem Read_Write_return_request
    (drv : driver) (c : AudioCodec) (hw : list (request * response))
    (buffer : list Z) (samples : Z) :
  (Read drv c hw buffer samples).1.1 = samples
  /\ (Write drv c hw buffer samples).1 = samples
  /\ (if input_enabled_ c
      then exists r : response,
          Read drv c hw buffer samples
          = (samples, store (stored r) buffer,
             hw ++ [(esp_codec_dev_read input_dev_ (to_int (samples * 2)), r)])
      else Read drv c hw buffer samples = (samples, buffer, hw))
  /\ (if output_enabled_ c
      then exists r : response,
          Write drv c hw buffer samples
          = (samples,
             hw ++ [(esp_codec_dev_write output_dev_ buffer
                       (to_int (samples * 2)), r)])
      else Write drv c hw buffer samples = (samples, hw))
  /\ (InputData drv c hw buffer).1.1 = (0 <? to_int (Z.of_nat (length buffer))).
Proof.
  unfold InputData, Read, Write, ESP_ERROR_CHECK_WITHOUT_ABORT, call.
  destruct (input_enabled_ c), (output_enabled_ c); simpl; repeat split; eauto.
Qed.

(** [InputData] reports whether the requested size is positive, not whether
    samples arrived. *)
Lemma InputData_result (drv : driver) (c : AudioCodec)
    (hw : list (request * response)) (data : list Z) :
  (InputData drv c hw data).1.1 = (0 <? to_int (Z.of_nat (length data))).
Proof.
  unfold InputData, Read, ESP_ERROR_CHECK_WITHOUT_ABORT, call.
  destruct (input_enabled_ c); reflexivity.
Qed.

(** ** The output volume after [Start] *)

Lemma AudioCodec_EnableInput_volume (enable : bool) (c : AudioCodec) :
  output_volume_ (AudioCodec_EnableInput enable c) = output_volume_ c.
Proof.
  unfold AudioCodec_EnableInput. destruct (Bool.eqb _ _); reflexivity.
Qed.

Lemma AudioCodec_EnableOutput_volume (enable : bool) (c : AudioCodec) :
  output_volume_ (AudioCodec_EnableOutput enable c) = output_volume_ c.
Proof.
  unfold AudioCodec_EnableOutput. destruct (Bool.eqb _ _); reflexivity.
Qed.

Lemma EnableInput_volume (cls : codec_class) (drv : driver) (enable : bool)
    (c c' : AudioCodec) (hw hw' : list (request * response)) :
  EnableInput cls drv enable c hw = Returns (c', hw') ->
  output_volume_ c' = output_volume_ c.
Proof.
  destruct cls; simpl.
  - intros H; injection H as <- _. apply AudioCodec_EnableInput_volume.
  - unfold BoxAudioCodec_EnableInput.
    destruct (Bool.eqb enable (input_enabled_ c)).
    + intros H; injection H as <- _. reflexivity.
    + intros H. apply obind_Returns in H. destruct H as (h & _ & H).
      injection H as <- _. apply AudioCodec_EnableInput_volume.
Qed.

Lemma EnableOutput_volume (cls : codec_class) (drv : driver) (enable : bool)
    (c c' : AudioCodec) (hw hw' : list (request * response)) :
  EnableOutput cls drv enable c hw = Returns (c', hw') ->
  output_volume_ c' = output_volume_ c.
Proof.
  destruct cls; simpl.
  - intros H; injection H as <- _. apply AudioCodec_EnableOutput_volume.
  - unfold BoxAudioCodec_EnableOutput.
    destruct (Bool.eqb enable (output_enabled_ c)).
    + intros H; injection H as <- _. reflexivity.
    + intros H. apply obind_Returns in H. destruct H as (h & _ & H).
      injection H as <- _. apply AudioCodec_EnableOutput_volume.
Qed.

(** The volume that [Start] settles on before it touches the hardware. *)
Lemma Start_volume (cls : codec_class) (drv : driver)
    (nvs : gmap (string * string) nvs_value)
    (c c' : AudioCodec) (hw hw' : list (request * response)) :
  Start cls drv nvs c hw = Returns (c', hw') ->
  output_volume c' =
  if GetInt nvs "audio" "output_volume" (output_volume_ c) <=? 0 then 10
  else GetInt nvs "audio" "output_volume" (output_volume_ c).
Proof.
  unfold Start, output_volume. intros H.
  apply obind_Returns in H. destruct H as (h1 & _ & H).
  apply obind_Returns in H. destruct H as (h2 & _ & H).
  apply obind_Returns in H. destruct H as ([c1 h3] & H1 & H).
  apply obind_Returns in H. destruct H as ([c2 h4] & H2 & H).
  injection H as <- _.
  rewrite (EnableOutput_volume _ _ _ _ _ _ _ H2).
  rewrite (EnableInput_volume _ _ _ _ _ _ _ H1).
  simpl. destruct (GetInt nvs "audio" "output_volume" (output_volume_ c) <=? 0);
    reflexivity.
Qed.

(** C10. After [Start] returns the output volume is strictly positive: a
    stored setting that is zero or negative is replaced by 10, a positive
    one is kept. *)
Theorem Start_output_volume_positive (cls : codec_class) (drv : driver)
    (nvs : gmap (string * string) nvs_value)
    (c c' : AudioCodec) (hw hw' : list (request * response)) :
  Start cls drv nvs c hw = Returns (c', hw') ->
  0 < output_volume c'
  /\ forall stored : Z,
       nvs !! ("audio", "output_volume") = Some (nvs_i32 stored) ->
       output_volume c' = if stored <=? 0 then 10 else stored.
Proof.
  intros H. apply Start_volume in H. rewrite H. split.
  - destruct (GetInt nvs "audio" "output_volume" (output_volume_ c) <=? 0) eqn:E;
      lia.
  - intros stored Hs. unfold GetInt. rewrite Hs. reflexivity.
Qed.

Lemma ESP_ERROR_CHECK_ok (drv : driver) (rq : request)
    (hw : list (request * response)) :
  (forall h r, status (drv h r) = ESP_OK) ->
  ESP_ERROR_CHECK (call drv rq hw) = Returns (hw ++ [(rq, drv hw rq)]).
Proof. intros Hok. unfold ESP_ERROR_CHECK, call. simpl. now rewrite Hok. Qed.

Lemma EnableInput_returns (cls : codec_class) (drv : driver) (enable : bool)
    (c : AudioCodec) (hw : list (request * response)) :
  (forall h r, status (drv h r) = ESP_OK) ->
  exists c' hw', EnableInput cls drv enable c hw = Returns (c', hw').
Proof.
  intros Hok. destruct cls; simpl; [eauto|].
  unfold BoxAudioCodec_EnableInput.
  destruct (Bool.eqb enable (input_enabled_ c)); [eauto|].
  destruct enable; rewrite (ESP_ERROR_CHECK_ok drv _ _ Hok); simpl;
    rewrite ?(ESP_ERROR_CHECK_ok drv _ _ Hok); simpl; eauto.
Qed.

Lemma EnableOutput_returns (cls : codec_class) (drv : driver) (enable : bool)
    (c : AudioCodec) (hw : list (request * response)) :
  (forall h r, status (drv h r) = ESP_OK) ->
  exists c' hw', EnableOutput cls drv enable c hw = Returns (c', hw').
Proof.
  intros Hok. destruct cls; simpl; [eauto|].
  unfold BoxAudioCodec_EnableOutput.
  destruct (Bool.eqb enable (output_enabled_ c)); [eauto|].
  destruct enable; rewrite (ESP_ERROR_CHECK_ok drv _ _ Hok); simpl;
    rewrite ?(ESP_ERROR_CHECK_ok drv _ _ Hok); simpl; eauto.
Qed.

(** [Start] returns whenever the driver accepts its calls. *)
Lemma Start_returns (cls : codec_class) (drv : driver)
    (nvs : gmap (string * string) nvs_value)
    (c : AudioCodec) (hw : list (request * response)) :
  (forall h rq, status (drv h rq) = ESP_OK) ->
  exists c' hw', Start cls drv nvs c hw = Returns (c', hw').
Proof.
  intros Hok. unfold Start.
  rewrite (ESP_ERROR_CHECK_ok drv _ _ Hok). simpl.
  rewrite (ESP_ERROR_CHECK_ok drv _ _ Hok). simpl.
  match goal with
  | |- context [EnableInput cls drv true ?c1 ?h1] =>
      destruct (EnableInput_returns cls drv true c1 h1 Hok) as (c2 & h2 & E1)
  end.
  rewrite E1. simpl.
  destruct (EnableOutput_returns cls drv true c2 h2 Hok) as (c3 & h3 & E2).
  rewrite E2. simpl. eauto.
Qed.

Lemma Start_output_volume_positive_witness :
  let r := started BoxAudioCodec accepting_driver (stored_volume (-5)) in
  Start BoxAudioCodec accepting_driver (stored_volume (-5)) box_codec []
  = Returns r
  /\ 0 < output_volume r.1
  /\ forall stored : Z,
       stored_volume (-5) !! ("audio", "output_volume") = Some (nvs_i32 stored) ->
       output_volume r.1 = if stored <=? 0 then 10 else stored.
Proof.
  intros r. split; [vm_compute; reflexivity|].
  apply (Start_output_volume_positive BoxAudioCodec accepting_driver
           (stored_volume (-5)) box_codec r.1 [] r.2).
  vm_compute. reflexivity.
Defined.

Example Start_replaces_negative_volume :
  exists hw',
    Start BoxAudioCodec accepting_driver (stored_volume (-5)) box_codec []
    = Returns (set_output_enabled_ true
                 (set_input_enabled_ true (set_output_volume_ 10 box_codec)),
               hw').
Proof. eexists. vm_compute. reflexivity. Qed.

Example Start_keeps_positive_volume :
  exists hw',
    Start BoxAudioCodec accepting_driver (stored_volume 35) box_codec []
    = Returns (set_output_enabled_ true
                 (set_input_enabled_ true (set_output_volume_ 35 box_codec)),
               hw').
Proof. eexists. vm_compute. reflexivity. Qed.

End AudioCodecFacts.

(** ** The application core *)

Module ApplicationFacts.
Import Application.

(** *** No-ops *)

(** C7. [StopListening] on a device that is not Listening changes nothing,
    and [DismissAlert] without an active alert changes nothing. *)
Theorem StopListening_DismissAlert_noop (a b : App) :
  device_state_ a <> kDeviceStateListening ->
  alert_ b = None ->
  StopListening a = a /\ DismissAlert b = b.
Proof.
  intros Hstate Halert. split.
  - unfold StopListening. case_decide; [contradiction|reflexivity].
  - unfold DismissAlert. now rewrite Halert.
Qed.

Lemma StopListening_DismissAlert_noop_witness :
  StopListening speaking_with_three_packets = speaking_with_three_packets
  /\ DismissAlert init = init.
Proof.
  apply (StopListening_DismissAlert_noop speaking_with_three_packets init).
  - discriminate.
  - reflexivity.
Defined.

Example StopListening_ends_listening :
  device_state_
    (StopListening (SetDeviceState kDeviceStateListening init))
  = kDeviceStateIdle.
Proof. reflexivity. Qed.

Example DismissAlert_ends_alert :
  alert_ (DismissAlert (ShowAlert low_battery init)) = None.
Proof. reflexivity. Qed.

(** *** The pipelines and the device state *)


Lemma SetDeviceState_licensed (state : DeviceState) (a : App) :
  pipelines_licensed a -> pipelines_licensed (SetDeviceState state a).
Proof.
  unfold pipelines_licensed, SetDeviceState. intros [Hc Hp].
  case_decide as Hsame; simpl.
  - subst state. split; assumption.
  - unfold enter_state, leave_state.
    destruct (device_state_ a) eqn:Hold; destruct state; simpl;
      split; intros H; try reflexivity; try discriminate;
      try (specialize (Hc H); discriminate);
      try (specialize (Hp H); discriminate);
      congruence.
Qed.

Lemma SetDeviceState_sequence_licensed (states : list DeviceState) (a : App) :
  pipelines_licensed a ->
  pipelines_licensed (foldl (fun a state => SetDeviceState state a) a states).
Proof.
  revert a. induction states as [|state states IH]; intros a Ha; simpl.
  - exact Ha.
  - apply IH. apply SetDeviceState_licensed. exact Ha.
Qed.

(** C4. After any sequence of [SetDeviceState] calls, capture and playback
    are not both active, capture is active only in Listening and playback
    only in Speaking. The sequence is arbitrary, so this holds after each of
    its calls. *)
Theorem SetDeviceState_pipelines (states : list DeviceState) :
  let a := foldl (fun a state => SetDeviceState state a) init states in
  ~ (capture_active a = true /\ playback_active a = true)
  /\ (capture_active a = true -> device_state_ a = kDeviceStateListening)
  /\ (playback_active a = true -> device_state_ a = kDeviceStateSpeaking).
Proof.
  intros a.
  assert (pipelines_licensed a) as [Hc Hp].
  { apply SetDeviceState_sequence_licensed. split; discriminate. }
  split; [|split; assumption].
  intros [H1 H2]. specialize (Hc H1). specialize (Hp H2). congruence.
Qed.

Example SetDeviceState_listening_then_speaking :
  let a := foldl (fun a state => SetDeviceState state a) init
             [kDeviceStateIdle; kDeviceStateListening; kDeviceStateSpeaking] in
  capture_active a = false /\ playback_active a = true.
Proof. split; reflexivity. Qed.

(** *** The Decode Queue *)

Lemma push_packet_at_bound (max_packets : nat)
    (queue : list AudioStreamPacket) (packet : AudioStreamPacket) :
  length queue = max_packets ->
  push_packet max_packets queue packet = drop 1 queue ++ [packet].
Proof.
  intros Hlen. unfold push_packet.
  replace (max_packets <=? length queue)%nat with true; [reflexivity|].
  symmetry. apply Nat.leb_le. lia.
Qed.

(** A push keeps the last [max_packets] packets of what was pushed. *)
Lemma push_packet_keeps_newest (max_packets : nat)
    (queue : list AudioStreamPacket) (packet : AudioStreamPacket) :
  (0 < max_packets)%nat ->
  (length queue <= max_packets)%nat ->
  push_packet max_packets queue packet
  = drop (length (queue ++ [packet]) - max_packets) (queue ++ [packet]).
Proof.
  intros Hpos Hlen. unfold push_packet. rewrite length_app. simpl.
  destruct (max_packets <=? length queue)%nat eqn:Hfull.
  - apply Nat.leb_le in Hfull.
    replace (length queue + 1 - max_packets)%nat with 1%nat by lia.
    destruct queue as [|p queue]; [simpl in *; lia|reflexivity].
  - apply Nat.leb_gt in Hfull.
    replace (length queue + 1 - max_packets)%nat with 0%nat by lia.
    reflexivity.
Qed.

Lemma push_packet_length (max_packets : nat)
    (queue : list AudioStreamPacket) (packet : AudioStreamPacket) :
  (0 < max_packets)%nat ->
  (length queue <= max_packets)%nat ->
  (length (push_packet max_packets queue packet) <= max_packets)%nat.
Proof.
  intros Hpos Hlen. rewrite push_packet_keeps_newest by assumption.
  rewrite length_drop, length_app. simpl. lia.
Qed.

Lemma OnIncomingAudio_queue (max_packets : nat) (packet : AudioStreamPacket)
    (a : App) :
  audio_decode_queue_ (OnIncomingAudio max_packets packet a)
  = push_packet max_packets (audio_decode_queue_ a) packet.
Proof. reflexivity. Qed.

Lemma incoming_sequence_queue (max_packets : nat)
    (packets : list AudioStreamPacket) :
  (0 < max_packets)%nat ->
  forall a : App,
    (length (audio_decode_queue_ a) <= max_packets)%nat ->
    audio_decode_queue_
      (foldl (fun a p => OnIncomingAudio max_packets p a) a packets)
    = drop (length (audio_decode_queue_ a ++ packets) - max_packets)
           (audio_decode_queue_ a ++ packets).
Proof.
  intros Hpos. induction packets as [|p packets IH]; intros a Hlen; simpl.
  - rewrite app_nil_r. replace (_ - _)%nat with 0%nat by lia. reflexivity.
  - rewrite IH.
    2:{ rewrite OnIncomingAudio_queue. now apply push_packet_length. }
    rewrite OnIncomingAudio_queue, push_packet_keeps_newest by assumption.
    set (q := audio_decode_queue_ a).
    replace (q ++ p :: packets) with ((q ++ [p]) ++ packets)
      by (rewrite <- app_assoc; reflexivity).
    rewrite <- (drop_app_le (q ++ [p]) packets)
      by (rewrite length_app; simpl; lia).
    rewrite drop_drop. f_equal.
    rewrite length_drop, !length_app. simpl. lia.
Qed.

(** C3. Whatever packets are pushed to a Decode Queue within its bound, the
    queue stays within the bound and holds the newest packets in their
    order of arrival; a push to a full queue drops the oldest packet and
    keeps the new one. *)
Theorem decode_queue_bounded (max_packets : nat) (a : App)
    (packets : list AudioStreamPacket) :
  (0 < max_packets)%nat ->
  (length (audio_decode_queue_ a) <= max_packets)%nat ->
  let a' := foldl (fun a p => OnIncomingAudio max_packets p a) a packets in
  (length (audio_decode_queue_ a') <= max_packets)%nat
  /\ audio_decode_queue_ a'
     = drop (length (audio_decode_queue_ a ++ packets) - max_packets)
            (audio_decode_queue_ a ++ packets)
  /\ forall packet : AudioStreamPacket,
       length (audio_decode_queue_ a') = max_packets ->
       audio_decode_queue_ (OnIncomingAudio max_packets packet a')
       = drop 1 (audio_decode_queue_ a') ++ [packet].
Proof.
  intros Hpos Hlen a'.
  assert (audio_decode_queue_ a'
          = drop (length (audio_decode_queue_ a ++ packets) - max_packets)
                 (audio_decode_queue_ a ++ packets)) as Hq
    by (apply incoming_sequence_queue; assumption).
  split; [|split; [exact Hq|]].
  - rewrite Hq, length_drop. lia.
  - intros packet Hfull. rewrite OnIncomingAudio_queue.
    now apply push_packet_at_bound.
Qed.

Lemma decode_queue_bounded_witness :
  let a' := foldl (fun a p => OnIncomingAudio 3 p a) speaking_with_three_packets
              [packet_at 280; packet_at 340] in
  (length (audio_decode_queue_ a') <= 3)%nat
  /\ audio_decode_queue_ a'
     = drop (length (audio_decode_queue_ speaking_with_three_packets
                     ++ [packet_at 280; packet_at 340]) - 3)
            (audio_decode_queue_ speaking_with_three_packets
             ++ [packet_at 280; packet_at 340])
  /\ forall packet : AudioStreamPacket,
       length (audio_decode_queue_ a') = 3%nat ->
       audio_decode_queue_ (OnIncomingAudio 3 packet a')
       = drop 1 (audio_decode_queue_ a') ++ [packet].
Proof.
  apply (decode_queue_bounded 3 speaking_with_three_packets
           [packet_at 280; packet_at 340]).
  - lia.
  - simpl. lia.
Defined.

Example decode_queue_overflow :
  audio_decode_queue_
    (foldl (fun a p => OnIncomingAudio 3 p a) speaking_with_three_packets
       [packet_at 280; packet_at 340])
  = [packet_at 220; packet_at 280; packet_at 340].
Proof. reflexivity. Qed.

(** *** The scheduler *)

Lemma SetDeviceState_sched (state : DeviceState) (a : App) :
  sched_view (SetDeviceState state a) = sched_view a.
Proof.
  unfold SetDeviceState. case_decide; [reflexivity|].
  unfold enter_state, leave_state.
  destruct (device_state_ a), state; reflexivity.
Qed.

Lemma AbortSpeaking_sched (reason : Z) (a : App) :
  sched_view (AbortSpeaking reason a) = sched_view a.
Proof.
  unfold AbortSpeaking. case_decide; [|reflexivity].
  now rewrite SetDeviceState_sched.
Qed.

Lemma StopListening_sched (a : App) : sched_view (StopListening a) = sched_view a.
Proof.
  unfold StopListening. case_decide; [|reflexivity]. apply SetDeviceState_sched.
Qed.

Lemma ToggleChatState_sched (a : App) :
  sched_view (ToggleChatState a) = sched_view a.
Proof.
  unfold ToggleChatState. destruct (device_state_ a);
    rewrite ?SetDeviceState_sched, ?StopListening_sched, ?AbortSpeaking_sched;
    reflexivity.
Qed.

Lemma ShowAlert_sched (al : Alert) (a : App) :
  sched_view (ShowAlert al a) = sched_view a.
Proof. unfold ShowAlert. destruct (String.eqb _ _); reflexivity. Qed.

Lemma DismissAlert_sched (a : App) : sched_view (DismissAlert a) = sched_view a.
Proof. unfold DismissAlert. destruct (alert_ a); reflexivity. Qed.

Lemma deliver_decoded_sched (packet : AudioStreamPacket) (a : App) :
  sched_view (deliver_decoded packet a) = sched_view a.
Proof.
  unfold deliver_decoded. case_decide; [|reflexivity].
  destruct (playback_active a); reflexivity.
Qed.

Lemma OnAudioOutput_sched (a : App) : sched_view (OnAudioOutput a) = sched_view a.
Proof.
  unfold OnAudioOutput. destruct (playback_active a); [|reflexivity].
  destruct (audio_decode_queue_ a); reflexivity.
Qed.

(** Running a callback records it as run; only a posting callback adds to
    the pending list. *)
Lemma run_callback_sched (cb : callback) (a : App) :
  sched_view (run_callback cb a)
  = (main_tasks_ a ++ posts_of cb,
     match posts_of cb with
     | [] => event_group_ a
     | _ => Z.lor (event_group_ a) SCHEDULE_EVENT
     end,
     executed a ++ [cb]).
Proof.
  unfold run_callback. destruct cb;
    rewrite ?SetDeviceState_sched, ?AbortSpeaking_sched, ?StopListening_sched,
      ?ToggleChatState_sched, ?ShowAlert_sched, ?DismissAlert_sched,
      ?deliver_decoded_sched;
    unfold sched_view; simpl; rewrite ?app_nil_r; reflexivity.
Qed.

Lemma testbit_lor_SCHEDULE_EVENT (bits : Z) :
  Z.testbit (Z.lor bits SCHEDULE_EVENT) 0 = true.
Proof. rewrite Z.lor_spec. apply orb_true_r. Qed.

Lemma land_SCHEDULE_EVENT (bits : Z) :
  negb (Z.land bits SCHEDULE_EVENT =? 0) = Z.testbit bits 0.
Proof.
  change SCHEDULE_EVENT with (Z.ones 1).
  rewrite Z.land_ones by lia. rewrite Z.bit0_odd, Zmod_odd.
  destruct (Z.odd bits); reflexivity.
Qed.

(** A drain runs the callbacks it took, in order, and nothing else; what
    they post is appended to the pending list. *)
Lemma run_callbacks_sched (tasks : list callback) :
  forall a : App,
    main_tasks_ (run_callbacks tasks a) = main_tasks_ a ++ flat_map posts_of tasks
    /\ executed (run_callbacks tasks a) = executed a ++ tasks
    /\ (flat_map posts_of tasks <> [] \/ Z.testbit (event_group_ a) 0 = true ->
        Z.testbit (event_group_ (run_callbacks tasks a)) 0 = true).
Proof.
  induction tasks as [|cb tasks IH]; intros a; simpl.
  - rewrite !app_nil_r. repeat split. intros [H|H]; [congruence|exact H].
  - destruct (IH (run_callback cb a)) as (Hm & He & Hb).
    pose proof (run_callback_sched cb a) as Hcb. unfold sched_view in Hcb.
    injection Hcb as Hm1 Hg1 He1.
    unfold run_callbacks in *. rewrite Hm, He, Hm1, He1.
    rewrite <- !app_assoc. repeat split.
    intros Hor. apply Hb. rewrite Hg1.
    destruct (flat_map posts_of tasks) as [|cb' new]; [|left; discriminate]. right.
    destruct (posts_of cb) as [|inner l].
    + destruct Hor as [Hor|Hor]; [now contradiction Hor|exact Hor].
    + apply testbit_lor_SCHEDULE_EVENT.
Qed.

(** A turn of the event loop runs every pending callback, in order, and
    leaves pending what those callbacks posted. *)
Lemma MainEventLoop_turn_sched (a : App) :
  work_flagged a ->
  work_flagged (MainEventLoop_turn a)
  /\ executed (MainEventLoop_turn a) = executed a ++ main_tasks_ a
  /\ main_tasks_ (MainEventLoop_turn a) = flat_map posts_of (main_tasks_ a)
  /\ main_tasks_ (MainEventLoop_turn a) = posts_at a ev_turn.
Proof.
  intros Hbit. unfold MainEventLoop_turn, posts_at.
  set (b := if negb (Z.land (event_group_ a) SCHEDULE_EVENT =? 0)
            then run_callbacks (main_tasks_ (set_event_group_ 0 a))
                   (set_main_tasks_ [] (set_event_group_ 0 a))
            else set_event_group_ 0 a).
  assert (work_flagged b
          /\ executed b = executed a ++ main_tasks_ a
          /\ main_tasks_ b = flat_map posts_of (main_tasks_ a)
          /\ main_tasks_ b
             = if Z.testbit (event_group_ a) 0
               then flat_map posts_of (main_tasks_ a) else [])
    as (Hb & Hexec & Hpending & Hposts).
  { subst b. rewrite land_SCHEDULE_EVENT.
    change (main_tasks_ (set_event_group_ 0 a)) with (main_tasks_ a).
    destruct (Z.testbit (event_group_ a) 0) eqn:Hset.
    - destruct (run_callbacks_sched (main_tasks_ a)
                  (set_main_tasks_ [] (set_event_group_ 0 a)))
        as (Hm & He & Hb).
      simpl in Hm, He. repeat split; try assumption.
      intros Hne. apply Hb. left. now rewrite <- Hm.
    - assert (main_tasks_ a = []) as Hnil.
      { destruct (main_tasks_ a) as [|cb l] eqn:E; [reflexivity|].
        unfold work_flagged in Hbit. rewrite E in Hbit.
        specialize (Hbit ltac:(discriminate)). congruence. }
      simpl. rewrite Hnil, app_nil_r. repeat split.
      intros Hne. now contradiction Hne. }
  destruct (negb (Z.land (event_group_ a) AUDIO_OUTPUT_READY_EVENT =? 0));
    [|repeat split; assumption].
  pose proof (OnAudioOutput_sched b) as Hv. unfold sched_view in Hv.
  injection Hv as Hm Hg He. unfold work_flagged.
  rewrite Hm, Hg, He. repeat split; assumption.
Qed.

Lemma Schedule_sched (cb : callback) (a : App) :
  work_flagged (Schedule cb a)
  /\ executed (Schedule cb a) ++ main_tasks_ (Schedule cb a)
     = (executed a ++ main_tasks_ a) ++ [cb].
Proof.
  split; simpl.
  - intros _. apply testbit_lor_SCHEDULE_EVENT.
  - now rewrite app_assoc.
Qed.

(** Each event adds to the callbacks run or pending exactly what it hands
    to [Schedule], at the end. *)
Lemma step_sched (max_packets : nat) (e : event) (a : App) :
  work_flagged a ->
  work_flagged (step max_packets a e)
  /\ executed (step max_packets a e) ++ main_tasks_ (step max_packets a e)
     = (executed a ++ main_tasks_ a) ++ posts_at a e.
Proof.
  intros Ha. destruct e as [cb|packet| |]; simpl.
  - apply Schedule_sched.
  - rewrite app_nil_r. split; [|reflexivity].
    intros Hne.
    change (Z.testbit (Z.lor (event_group_ a) AUDIO_OUTPUT_READY_EVENT) 0 = true).
    rewrite Z.lor_spec, (Ha Hne). reflexivity.
  - unfold background_done. destruct (decoding a) as [|packet rest].
    + rewrite app_nil_r. split; [exact Ha|reflexivity].
    + apply (Schedule_sched (cb_decoded packet) (set_decoding rest a)).
  - destruct (MainEventLoop_turn_sched a Ha) as (Hb & He & _ & Hm).
    split; [exact Hb|]. rewrite He, Hm. reflexivity.
Qed.

Lemma run_sched (max_packets : nat) (events : list event) :
  forall a : App,
    work_flagged a ->
    work_flagged (run max_packets events a)
    /\ executed (run max_packets events a) ++ main_tasks_ (run max_packets events a)
       = (executed a ++ main_tasks_ a) ++ posts_made max_packets events a.
Proof.
  induction events as [|e events IH]; intros a Ha; simpl.
  - rewrite app_nil_r. split; [exact Ha|reflexivity].
  - destruct (step_sched max_packets e a Ha) as [Hb Hstep].
    destruct (IH (step max_packets a e) Hb) as [Hc Hrun].
    split; [exact Hc|].
    change (foldl (step max_packets) (step max_packets a e) events)
      with (run max_packets events (step max_packets a e)).
    rewrite Hrun, Hstep, <- !app_assoc. reflexivity.
Qed.

(** The callbacks posted from outside are among the callbacks handed to
    [Schedule], in the same order. *)
Lemma scheduled_posts_made (max_packets : nat) (events : list event) :
  forall a : App, scheduled events `sublist_of` posts_made max_packets events a.
Proof.
  induction events as [|e events IH]; intros a; simpl; [constructor|].
  destruct e as [cb|packet| |]; try (apply sublist_inserts_l; apply IH).
  simpl. apply sublist_skip. apply IH.
Qed.

(** C6. After any sequence of events, the callbacks already run followed
    by those still pending are exactly the callbacks handed to [Schedule]
    during those events, in the order of posting: the callbacks that the
    events post from outside are among them in their order, so none is
    dropped; of two callbacks the later one has run only if the earlier
    one has run before it; and the next turn of the event loop runs every
    pending callback, however many, leaving pending only what those
    callbacks post themselves. *)
Theorem Schedule_runs_in_posting_order (max_packets : nat) (events : list event) :
  let a := run max_packets events init in
  executed a ++ main_tasks_ a = posts_made max_packets events init
  /\ scheduled events `sublist_of` executed a ++ main_tasks_ a
  /\ (forall (i j : nat) (f g : callback),
         (i < j)%nat ->
         posts_made max_packets events init !! i = Some f ->
         posts_made max_packets events init !! j = Some g ->
         executed a !! j = Some g -> executed a !! i = Some f)
  /\ executed (MainEventLoop_turn a) = executed a ++ main_tasks_ a
  /\ main_tasks_ (MainEventLoop_turn a) = flat_map posts_of (main_tasks_ a).
Proof.
  intros a.
  assert (work_flagged init) as Hinit by (intros H; now contradiction H).
  destruct (run_sched max_packets events init Hinit) as [Ha Hposts].
  fold a in Ha, Hposts. simpl in Hposts.
  split; [exact Hposts|]. split; [|split].
  - rewrite Hposts. apply scheduled_posts_made.
  - intros i j f g Hij Hf Hg Hrun.
    apply lookup_lt_Some in Hrun.
    rewrite <- Hposts in Hf. rewrite lookup_app_l in Hf by lia. exact Hf.
  - destruct (MainEventLoop_turn_sched a Ha) as (_ & He & Hm & _).
    split; assumption.
Qed.

Example Schedule_two_callbacks :
  executed (run 3 [ev_Schedule (cb_other 1); ev_Schedule (cb_other 2); ev_turn] init)
  = [cb_other 1; cb_other 2].
Proof. reflexivity. Qed.

Example Schedule_from_a_callback :
  let a := run 3 [ev_Schedule (cb_Schedule (cb_other 3));
                  ev_Schedule (cb_other 2); ev_turn] init in
  executed a = [cb_Schedule (cb_other 3); cb_other 2]
  /\ main_tasks_ a = [cb_other 3]
  /\ executed (MainEventLoop_turn a)
     = [cb_Schedule (cb_other 3); cb_other 2; cb_other 3].
Proof. repeat split; reflexivity. Qed.

(** A decode that finishes between two posts is delivered between them. *)
Example Schedule_between_deliveries :
  let events := [ev_Schedule (cb_other 1); ev_background_done;
                 ev_Schedule (cb_other 2); ev_turn] in
  let a := OnAudioOutput speaking_with_three_packets in
  posts_made 3 events a = [cb_other 1; cb_decoded (packet_at 100); cb_other 2]
  /\ executed (run 3 events a)
     = [cb_other 1; cb_decoded (packet_at 100); cb_other 2].
Proof. split; reflexivity. Qed.

(** *** The invariants under every event

    The bound of the Decode Queue and the licence of the pipelines hold
    after any interleaving of posts, arrivals, decode completions and turns
    of the event loop, not only after the calls the two theorems above
    quantify over. *)

Lemma licensed_transfer (a b : App) :
  device_state_ b = device_state_ a ->
  capture_active b = capture_active a ->
  playback_active b = playback_active a ->
  pipelines_licensed a -> pipelines_licensed b.
Proof. unfold pipelines_licensed. intros -> -> ->. auto. Qed.

Lemma AbortSpeaking_licensed (reason : Z) (a : App) :
  pipelines_licensed a -> pipelines_licensed (AbortSpeaking reason a).
Proof.
  intros [Hc Hp]. unfold AbortSpeaking. case_decide as Hs; [|split; assumption].
  apply SetDeviceState_licensed. split; simpl; [|discriminate].
  intros Hcap. specialize (Hc Hcap). congruence.
Qed.

Lemma StopListening_licensed (a : App) :
  pipelines_licensed a -> pipelines_licensed (StopListening a).
Proof.
  intros Ha. unfold StopListening. case_decide; [|exact Ha].
  now apply SetDeviceState_licensed.
Qed.

Lemma ToggleChatState_licensed (a : App) :
  pipelines_licensed a -> pipelines_licensed (ToggleChatState a).
Proof.
  intros Ha. unfold ToggleChatState. destruct (device_state_ a); try exact Ha.
  - now apply SetDeviceState_licensed.
  - now apply StopListening_licensed.
  - apply SetDeviceState_licensed. now apply AbortSpeaking_licensed.
Qed.

Lemma run_callback_licensed (cb : callback) (a : App) :
  pipelines_licensed a -> pipelines_licensed (run_callback cb a).
Proof.
  intros Ha. unfold run_callback.
  assert (pipelines_licensed (set_executed (executed a ++ [cb]) a)) as Hb
    by exact Ha.
  destruct cb.
  - now apply SetDeviceState_licensed.
  - now apply AbortSpeaking_licensed.
  - now apply StopListening_licensed.
  - now apply ToggleChatState_licensed.
  - unfold ShowAlert. destruct (String.eqb _ _); exact Ha.
  - unfold DismissAlert. destruct (alert_ _); exact Ha.
  - unfold deliver_decoded. case_decide; [|exact Ha].
    destruct (playback_active _); exact Ha.
  - exact Ha.
  - exact Ha.
Qed.

Lemma run_callbacks_licensed (tasks : list callback) (a : App) :
  pipelines_licensed a -> pipelines_licensed (run_callbacks tasks a).
Proof.
  revert a. induction tasks as [|cb tasks IH]; intros a Ha; simpl; [exact Ha|].
  apply IH. now apply run_callback_licensed.
Qed.

Lemma OnAudioOutput_licensed (a : App) :
  pipelines_licensed a -> pipelines_licensed (OnAudioOutput a).
Proof.
  intros Ha. unfold OnAudioOutput. destruct (playback_active a) eqn:E; [|exact Ha].
  destruct (audio_decode_queue_ a); [exact Ha|].
  apply (licensed_transfer a); [reflexivity..|exact Ha].
Qed.

Lemma step_licensed (max_packets : nat) (e : event) (a : App) :
  pipelines_licensed a -> pipelines_licensed (step max_packets a e).
Proof.
  intros Ha. destruct e as [cb|packet| |]; simpl.
  - exact Ha.
  - exact Ha.
  - unfold background_done. destruct (decoding a); exact Ha.
  - unfold MainEventLoop_turn.
    match goal with
    | |- pipelines_licensed (if _ then OnAudioOutput ?b else _) =>
        assert (pipelines_licensed b) as Hb
    end.
    { destruct (negb (Z.land (event_group_ a) SCHEDULE_EVENT =? 0)); [|exact Ha].
      apply run_callbacks_licensed. exact Ha. }
    destruct (negb (Z.land (event_group_ a) AUDIO_OUTPUT_READY_EVENT =? 0));
      [now apply OnAudioOutput_licensed|exact Hb].
Qed.

(** The pipelines stay licensed through every run from the start. *)
Lemma run_licensed (max_packets : nat) (events : list event) :
  pipelines_licensed (run max_packets events init).
Proof.
  assert (forall a, pipelines_licensed a ->
                    pipelines_licensed (run max_packets events a)) as H.
  { induction events as [|e events IH]; intros a Ha; simpl; [exact Ha|].
    apply IH. now apply step_licensed. }
  apply H. split; discriminate.
Qed.

Lemma SetDeviceState_queue (state : DeviceState) (a : App) :
  audio_decode_queue_ (SetDeviceState state a) `suffix_of` audio_decode_queue_ a.
Proof.
  unfold SetDeviceState. case_decide; [reflexivity|].
  unfold enter_state, leave_state.
  destruct (device_state_ a), state; simpl;
    first [reflexivity | apply suffix_nil].
Qed.

Lemma run_callback_queue (cb : callback) (a : App) :
  audio_decode_queue_ (run_callback cb a) `suffix_of` audio_decode_queue_ a.
Proof.
  unfold run_callback.
  set (b := set_executed (executed a ++ [cb]) a).
  change (audio_decode_queue_ a) with (audio_decode_queue_ b).
  destruct cb.
  - apply SetDeviceState_queue.
  - unfold AbortSpeaking. case_decide; [|reflexivity].
    etrans; [apply SetDeviceState_queue|]. apply suffix_nil.
  - unfold StopListening. case_decide; [|reflexivity]. apply SetDeviceState_queue.
  - unfold ToggleChatState. destruct (device_state_ b) eqn:Hd; try reflexivity.
    + apply SetDeviceState_queue.
    + unfold StopListening. case_decide; [|reflexivity]. apply SetDeviceState_queue.
    + etrans; [apply SetDeviceState_queue|].
      unfold AbortSpeaking. case_decide; [|reflexivity].
      etrans; [apply SetDeviceState_queue|]. apply suffix_nil.
  - unfold ShowAlert. destruct (String.eqb _ _); reflexivity.
  - unfold DismissAlert. destruct (alert_ b); reflexivity.
  - unfold deliver_decoded. case_decide; [|reflexivity].
    destruct (playback_active b); reflexivity.
  - reflexivity.
  - reflexivity.
Qed.

Lemma run_callbacks_queue (tasks : list callback) (a : App) :
  audio_decode_queue_ (run_callbacks tasks a) `suffix_of` audio_decode_queue_ a.
Proof.
  revert a. induction tasks as [|cb tasks IH]; intros a; simpl; [reflexivity|].
  etrans; [apply IH|]. apply run_callback_queue.
Qed.

Lemma OnAudioOutput_queue (a : App) :
  audio_decode_queue_ (OnAudioOutput a) `suffix_of` audio_decode_queue_ a.
Proof.
  unfold OnAudioOutput. destruct (playback_active a); [|reflexivity].
  destruct (audio_decode_queue_ a) as [|packet queue] eqn:E.
  - rewrite E. reflexivity.
  - simpl. apply suffix_cons_r. reflexivity.
Qed.

Lemma step_queue_bounded (max_packets : nat) (e : event) (a : App) :
  (0 < max_packets)%nat ->
  (length (audio_decode_queue_ a) <= max_packets)%nat ->
  (length (audio_decode_queue_ (step max_packets a e)) <= max_packets)%nat.
Proof.
  intros Hpos Ha. destruct e as [cb|packet| |]; simpl.
  - exact Ha.
  - now apply push_packet_length.
  - unfold background_done. destruct (decoding a); exact Ha.
  - unfold MainEventLoop_turn.
    match goal with
    | |- (length (audio_decode_queue_ (if _ then OnAudioOutput ?b else _)) <= _)%nat =>
        assert (length (audio_decode_queue_ b) <= max_packets)%nat as Hb
    end.
    { destruct (negb (Z.land (event_group_ a) SCHEDULE_EVENT =? 0)); [|exact Ha].
      pose proof (suffix_length _ _
                    (run_callbacks_queue (main_tasks_ (set_event_group_ 0 a))
                       (set_main_tasks_ [] (set_event_group_ 0 a)))) as Hlen.
      change (audio_decode_queue_ (set_main_tasks_ [] (set_event_group_ 0 a)))
        with (audio_decode_queue_ a) in Hlen.
      lia. }
    destruct (negb (Z.land (event_group_ a) AUDIO_OUTPUT_READY_EVENT =? 0));
      [|exact Hb].
    match goal with
    | |- (length (audio_decode_queue_ (OnAudioOutput ?b)) <= _)%nat =>
        pose proof (suffix_length _ _ (OnAudioOutput_queue b))
    end.
    lia.
Qed.

(** The Decode Queue stays within its bound through every run from the
    start. *)
Lemma run_queue_bounded (max_packets : nat) (events : list event) :
  (0 < max_packets)%nat ->
  (length (audio_decode_queue_ (run max_packets events init)) <= max_packets)%nat.
Proof.
  intros Hpos.
  assert (forall a, (length (audio_decode_queue_ a) <= max_packets)%nat ->
            (length (audio_decode_queue_ (run max_packets events a))
             <= max_packets)%nat) as H.
  { induction events as [|e events IH]; intros a Ha; simpl; [exact Ha|].
    apply IH. now apply step_queue_bounded. }
  apply H. simpl. lia.
Qed.

(** *** Aborting playback *)



























(** A decode in flight when the abort comes is discarded on delivery, while
    the sound of an alert shown after the abort is played. *)
Example AbortSpeaking_discards_decode_in_flight :
  let a := AbortSpeaking 0 (OnAudioOutput speaking_with_three_packets) in
  decoding a = [packet_at 100]
  /\ codec_port (run 3 [ev_background_done; ev_turn] a) = []
  /\ codec_port (run 3 [ev_background_done; ev_Schedule (cb_Alert low_battery_sound);
                        ev_turn] a)
     = [write_sound "low_battery.p3"].
Proof. repeat split; reflexivity. Qed.

(** Without the abort the same frame reaches the Codec Port. *)
Example playback_writes_decoded_frame :
  codec_port (run 3 [ev_background_done; ev_turn]
                (OnAudioOutput speaking_with_three_packets))
  = [write_frame (packet_at 100)].
Proof. reflexivity. Qed.

(** A callback pending at the abort that enters Speaking again starts a new
    session: the frame still in flight is then played in it. *)
Example AbortSpeaking_then_speaking_again :
  let a := Schedule (cb_SetDeviceState kDeviceStateSpeaking)
             (OnAudioOutput speaking_with_three_packets) in
  let a'' := run 3 [ev_background_done; ev_turn] (AbortSpeaking 0 a) in
  speaking_entered (drop (length (board_log (AbortSpeaking 0 a))) (board_log a''))
  = true
  /\ codec_port a'' = [write_frame (packet_at 100)].
Proof. split; reflexivity. Qed.

(** Packets that arrive after the abort wait in the queue. *)
Example AbortSpeaking_then_arrival :
  let a'' := run 3 [ev_incoming_audio (packet_at 280);
                    ev_Schedule (cb_SetDeviceState kDeviceStateListening); ev_turn]
               (AbortSpeaking 0 speaking_with_three_packets) in
  device_state_ a'' = kDeviceStateListening
  /\ audio_decode_queue_ a'' = [packet_at 280].
Proof. split; reflexivity. Qed.

End ApplicationFacts.

(** ** The order on versions *)

Module OtaOrderFacts.
Import Ota OtaFacts.

Lemma compare_versions_asym (a : list Z) :
  forall b : list Z, compare_versions a b = true -> compare_versions b a = false.
Proof.
  induction a as [|x a IH]; intros [|y b] H.
  - discriminate H.
  - apply compare_versions_nil_r.
  - rewrite compare_versions_nil_r in H. discriminate H.
  - rewrite compare_versions_cons in *.
    destruct (y >? x) eqn:E1.
    + replace (x >? y) with false by lia. replace (x <? y) with true by lia.
      reflexivity.
    + destruct (y <? x) eqn:E2; [discriminate H|].
      replace (x >? y) with false by lia. replace (x <? y) with false by lia.
      now apply IH.
Qed.

Lemma compare_versions_trans (a : list Z) :
  forall b c : list Z,
    compare_versions a b = true -> compare_versions b c = true ->
    compare_versions a c = true.
Proof.
  induction a as [|x a IH]; intros [|y b] [|z c] Hab Hbc;
    rewrite ?compare_versions_nil_r in *; try discriminate; try reflexivity.
  rewrite compare_versions_cons in *.
  destruct (y >? x) eqn:E1.
  - destruct (z >? y) eqn:E2.
    + replace (z >? x) with true by lia. reflexivity.
    + destruct (z <? y) eqn:E3; [discriminate Hbc|].
      replace (z >? x) with true by lia. reflexivity.
  - destruct (y <? x) eqn:E2; [discriminate Hab|].
    assert (y = x) as -> by lia.
    destruct (z >? x); [reflexivity|].
    destruct (z <? x); [discriminate Hbc|].
    now apply (IH b c).
Qed.

Lemma compare_versions_total (a : list Z) :
  forall b : list Z,
    compare_versions a b = false -> compare_versions b a = false -> a = b.
Proof.
  induction a as [|x a IH]; intros [|y b] Hab Hba.
  - reflexivity.
  - discriminate Hab.
  - discriminate Hba.
  - rewrite compare_versions_cons in *.
    destruct (y >? x) eqn:E1; [discriminate Hab|].
    destruct (x >? y) eqn:E2; [discriminate Hba|].
    assert (y = x) as -> by lia.
    replace (x <? x) with false in * by lia.
    f_equal. now apply IH.
Qed.

Lemma compare_versions_extension (a extra : list Z) :
  compare_versions a (a ++ extra) = (0 <? length extra)%nat
  /\ compare_versions (a ++ extra) a = false.
Proof.
  induction a as [|x a [IH1 IH2]]; simpl.
  - split; [apply compare_versions_nil_l|apply compare_versions_nil_r].
  - rewrite !compare_versions_cons.
    replace (x >? x) with false by lia. replace (x <? x) with false by lia.
    split; assumption.
Qed.

(** [IsNewVersionAvailable] is a strict order on versions that parse: if
    [b] is newer than [a] then [a] is not newer than [b], and newer-than
    is transitive. *)
Theorem IsNewVersionAvailable_strict_order (a b c : string) (va vb vc : list Z) :
  ParseVersion a = Returns va ->
  ParseVersion b = Returns vb ->
  ParseVersion c = Returns vc ->
  (IsNewVersionAvailable a b = Returns true ->
   IsNewVersionAvailable b a = Returns false)
  /\ (IsNewVersionAvailable a b = Returns true ->
      IsNewVersionAvailable b c = Returns true ->
      IsNewVersionAvailable a c = Returns true).
Proof.
  intros Ha Hb Hc. unfold IsNewVersionAvailable. rewrite Ha, Hb, Hc. simpl.
  split.
  - intros H. injection H as H. now rewrite (compare_versions_asym va vb H).
  - intros H1 H2. injection H1 as H1. injection H2 as H2.
    now rewrite (compare_versions_trans va vb vc H1 H2).
Qed.

Lemma IsNewVersionAvailable_strict_order_witness :
  (IsNewVersionAvailable "1.5.9" "1.6.0" = Returns true ->
   IsNewVersionAvailable "1.6.0" "1.5.9" = Returns false)
  /\ (IsNewVersionAvailable "1.5.9" "1.6.0" = Returns true ->
      IsNewVersionAvailable "1.6.0" "1.10" = Returns true ->
      IsNewVersionAvailable "1.5.9" "1.10" = Returns true).
Proof.
  apply (IsNewVersionAvailable_strict_order "1.5.9" "1.6.0" "1.10"
           [1; 5; 9] [1; 6; 0] [1; 10]); reflexivity.
Defined.

(** The order is total on parsed components: two versions of which neither
    is newer than the other have the same components. *)
Theorem IsNewVersionAvailable_neither_newer (a b : string) (va vb : list Z) :
  ParseVersion a = Returns va ->
  ParseVersion b = Returns vb ->
  IsNewVersionAvailable a b = Returns false ->
  IsNewVersionAvailable b a = Returns false ->
  va = vb.
Proof.
  intros Ha Hb. unfold IsNewVersionAvailable. rewrite Ha, Hb. simpl.
  intros H1 H2. injection H1 as H1. injection H2 as H2.
  now apply compare_versions_total.
Qed.

Lemma IsNewVersionAvailable_neither_newer_witness : [1; 6; 0] = [1; 6; 0].
Proof.
  apply (IsNewVersionAvailable_neither_newer "1.6.0" "01.6.0"); reflexivity.
Defined.

(** A version that extends another by further components is newer, whatever
    the extra components are (also zeros), and the shorter one is never
    newer than its extension. *)
Theorem IsNewVersionAvailable_extension (a b : string) (va extra : list Z) :
  ParseVersion a = Returns va ->
  ParseVersion b = Returns (va ++ extra) ->
  IsNewVersionAvailable a b = Returns (0 <? length extra)%nat
  /\ IsNewVersionAvailable b a = Returns false.
Proof.
  intros Ha Hb. unfold IsNewVersionAvailable. rewrite Ha, Hb. simpl.
  destruct (compare_versions_extension va extra) as [-> ->]. split; reflexivity.
Qed.

Lemma IsNewVersionAvailable_extension_witness :
  IsNewVersionAvailable "1.6" "1.6.0" = Returns true
  /\ IsNewVersionAvailable "1.6.0" "1.6" = Returns false.
Proof.
  apply (IsNewVersionAvailable_extension "1.6" "1.6.0" [1; 6] [0]); reflexivity.
Defined.

End OtaOrderFacts.

(** ** What [ParseVersion] accepts *)

Module ParseVersionFacts.
Import Ota OtaFacts OtaMore.

Lemma ParseVersion_loop_more_fuel (f1 : nat) :
  forall (f2 : nat) (ss : string) (acc : list Z),
    (String.length ss < f1)%nat -> (String.length ss < f2)%nat ->
    ParseVersion_loop f1 ss acc = ParseVersion_loop f2 ss acc.
Proof.
  induction f1 as [|f1 IH]; intros f2 ss acc H1 H2; [lia|].
  destruct f2 as [|f2]; [lia|]. cbn [ParseVersion_loop].
  destruct (getline ss ".") as [[segment rest]|] eqn:Hg; [|reflexivity].
  destruct (stoi segment) as [n|f]; [|reflexivity].
  apply getline_shorter in Hg. apply IH; lia.
Qed.

Lemma ParseVersion_loop_acc (fuel : nat) :
  forall (ss : string) (acc : list Z),
    ParseVersion_loop fuel ss acc
    = option_map (fun r => obind r (fun ns => Returns (acc ++ ns)))
        (ParseVersion_loop fuel ss []).
Proof.
  induction fuel as [|fuel IH]; intros ss acc; [reflexivity|].
  cbn [ParseVersion_loop].
  destruct (getline ss ".") as [[segment rest]|]; [|simpl; now rewrite app_nil_r].
  destruct (stoi segment) as [n|f]; [|reflexivity].
  rewrite (IH rest (acc ++ [n])), (IH rest ([] ++ [n])).
  destruct (ParseVersion_loop fuel rest []) as [[ns|f]|]; simpl;
    [|reflexivity|reflexivity].
  now rewrite <- app_assoc.
Qed.

(** [ParseVersion] one segment at a time, without fuel. *)
Lemma ParseVersion_step (version : string) :
  ParseVersion version
  = match getline version "." with
    | None => Returns []
    | Some (segment, rest) =>
        obind (stoi segment) (fun n =>
          obind (ParseVersion rest) (fun ns => Returns (n :: ns)))
    end.
Proof.
  unfold ParseVersion at 1. unfold ParseVersion_fuel. cbn [ParseVersion_loop].
  destruct (getline version ".") as [[segment rest]|] eqn:Hg; [|reflexivity].
  destruct (stoi segment) as [n|f]; [|reflexivity]. simpl.
  apply getline_shorter in Hg.
  rewrite ParseVersion_loop_acc.
  rewrite (ParseVersion_loop_more_fuel _ (ParseVersion_fuel rest) rest [])
    by (unfold ParseVersion_fuel; lia).
  destruct (ParseVersion_total rest) as (r & Hr & Hp). rewrite Hr, Hp.
  destruct r; reflexivity.
Qed.

Lemma ParseVersion_empty : ParseVersion "" = Returns [].
Proof. reflexivity. Qed.

Lemma ParseVersion_component (ds : list nat) (rest : string) :
  component_ok ds ->
  ParseVersion (String.append (digits_string ds) (String "." rest))
  = obind (ParseVersion rest) (fun ns => Returns (digits_value ds 0 :: ns)).
Proof.
  intros Hok. pose proof Hok as (Hne & Hds & _).
  rewrite ParseVersion_step.
  destruct ds as [|d ds]; [contradiction|].
  change (getline (String.append (digits_string (d :: ds)) (String "." rest)) ".")
    with (Some (getline_chars
                  (String.append (digits_string (d :: ds)) (String "." rest)) ".")).
  rewrite getline_chars_component by assumption.
  rewrite stoi_digits by assumption. reflexivity.
Qed.

Lemma append_assoc (a b c : string) :
  String.append (String.append a b) c = String.append a (String.append b c).
Proof.
  induction a as [|x a IH]; [reflexivity|].
  change (String x (String.append (String.append a b) c)
          = String x (String.append a (String.append b c))).
  now rewrite IH.
Qed.

Lemma dotted_cons (ds ds' : list nat) (rest : list (list nat)) :
  dotted (ds :: ds' :: rest)
  = String.append (digits_string ds) (String "." (dotted (ds' :: rest))).
Proof. reflexivity. Qed.

Lemma ParseVersion_leading_dot (rest : string) :
  ParseVersion (String "." rest) = Fails invalid_argument.
Proof. rewrite ParseVersion_step. reflexivity. Qed.

(** What follows a canonical version after one more dot is parsed on its
    own. *)
Lemma ParseVersion_dotted_then (components : list (list nat)) (rest : string) :
  Forall component_ok components -> components <> [] ->
  ParseVersion (String.append (dotted components) (String "." rest))
  = obind (ParseVersion rest)
      (fun ns => Returns (map (fun ds => digits_value ds 0) components ++ ns)).
Proof.
  induction 1 as [|ds cs Hok Hcs IH]; intros Hne; [contradiction|].
  destruct cs as [|ds' cs].
  - change (dotted [ds]) with (digits_string ds).
    rewrite ParseVersion_component by assumption. reflexivity.
  - rewrite dotted_cons, append_assoc.
    change (String.append (String "." (dotted (ds' :: cs))) (String "." rest))
      with (String "." (String.append (dotted (ds' :: cs)) (String "." rest))).
    rewrite ParseVersion_component by assumption.
    rewrite IH by discriminate.
    destruct (ParseVersion rest) as [ns|f]; reflexivity.
Qed.

(** A dot at the end of a version is ignored: "1.6.0." reads as "1.6.0". *)
Theorem ParseVersion_final_dot_ignored (components : list (list nat)) :
  Forall component_ok components -> components <> [] ->
  ParseVersion (String.append (dotted components) ".")
  = ParseVersion (dotted components).
Proof.
  intros Hok Hne. rewrite ParseVersion_dotted_then by assumption.
  rewrite ParseVersion_empty, ParseVersion_canonical by assumption.
  simpl. now rewrite app_nil_r.
Qed.

Lemma ParseVersion_final_dot_ignored_witness :
  ParseVersion "1.6.0." = ParseVersion "1.6.0".
Proof.
  apply (ParseVersion_final_dot_ignored [[1]; [6]; [0]]%nat).
  - repeat constructor; try discriminate; vm_compute; discriminate.
  - discriminate.
Defined.

(** An empty component makes [ParseVersion] throw: a version that starts
    with a dot, or holds two dots in a row after good components, never
    yields a vector, whatever follows. *)
Theorem ParseVersion_empty_component (components : list (list nat)) (rest : string) :
  Forall component_ok components ->
  ParseVersion (String.append (dotted components) (String "." (String "." rest)))
  = Fails invalid_argument
  /\ ParseVersion (String "." rest) = Fails invalid_argument.
Proof.
  intros Hok. split; [|apply ParseVersion_leading_dot].
  destruct components as [|ds cs].
  - apply ParseVersion_leading_dot.
  - rewrite ParseVersion_dotted_then by (assumption || discriminate).
    now rewrite ParseVersion_leading_dot.
Qed.

Lemma ParseVersion_empty_component_witness :
  ParseVersion "1.6..0" = Fails invalid_argument
  /\ ParseVersion ".0" = Fails invalid_argument.
Proof.
  apply (ParseVersion_empty_component [[1]; [6]]%nat "0").
  repeat constructor; try discriminate; vm_compute; discriminate.
Defined.

Lemma read_digits_then (ds : list nat) (junk : string) :
  Forall (fun d => (d < 10)%nat) ds ->
  starts_with_digit junk = false ->
  forall (acc : Z) (any : bool),
    read_digits (String.append (digits_string ds) junk) acc any
    = (digits_value ds acc, match ds with [] => any | _ => true end).
Proof.
  intros Hds Hjunk. induction Hds as [|d ds Hd Hds IH]; intros acc any.
  - change (String.append (digits_string []) junk) with junk.
    destruct junk as [|c junk]; [reflexivity|].
    simpl in Hjunk. cbn [read_digits digits_value]. now rewrite Hjunk.
  - change (String.append (digits_string (d :: ds)) junk)
      with (String (digit_char d) (String.append (digits_string ds) junk)).
    cbn [read_digits digits_value].
    destruct (digit_char_facts d Hd) as (-> & -> & _).
    rewrite IH. destruct ds; reflexivity.
Qed.

Lemma stoi_digits_then (ds : list nat) (junk : string) :
  component_ok ds ->
  starts_with_digit junk = false ->
  stoi (String.append (digits_string ds) junk) = Returns (digits_value ds 0).
Proof.
  intros (Hne & Hds & Hmax) Hjunk. destruct ds as [|d ds]; [contradiction|].
  inversion Hds as [|? ? Hd Hrest]; subst.
  destruct (digit_char_facts d Hd) as (Hdig & Hval & Hsp & _ & Hminus & Hplus).
  change (String.append (digits_string (d :: ds)) junk)
    with (String (digit_char d) (String.append (digits_string ds) junk)).
  unfold stoi. cbn [skip_spaces]. rewrite Hsp.
  assert (match String (digit_char d) (String.append (digits_string ds) junk) with
          | String "-"%char s' => (true, s')
          | String "+"%char s' => (false, s')
          | _ => (false, String (digit_char d)
                           (String.append (digits_string ds) junk))
          end = (false, String (digit_char d)
                          (String.append (digits_string ds) junk))) as ->.
  { clear -Hd. do 10 (destruct d as [|d]; [reflexivity|]). lia. }
  cbn [read_digits]. rewrite Hdig, Hval, read_digits_then by assumption.
  cbn [digits_value] in Hmax.
  pose proof (digits_value_nonneg ds (10 * 0 + Z.of_nat d) ltac:(lia)) as Hpos.
  replace (match ds with [] => true | _ => true end) with true
    by (destruct ds; reflexivity).
  replace (INT_MIN <=? digits_value ds (10 * 0 + Z.of_nat d)) with true
    by (symmetry; apply Z.leb_le; unfold INT_MIN; lia).
  replace (digits_value ds (10 * 0 + Z.of_nat d) <=? INT_MAX) with true
    by (symmetry; apply Z.leb_le; exact Hmax).
  reflexivity.
Qed.

Lemma getline_chars_no_dot (s : string) :
  has_dot s = false -> getline_chars s "." = (s, EmptyString).
Proof.
  induction s as [|c s IH]; [reflexivity|]. cbn [has_dot getline_chars].
  intros H. apply orb_false_iff in H as [-> Hs]. now rewrite IH.
Qed.

Lemma has_dot_digits_then (ds : list nat) (junk : string) :
  Forall (fun d => (d < 10)%nat) ds ->
  has_dot junk = false ->
  has_dot (String.append (digits_string ds) junk) = false.
Proof.
  intros Hds Hjunk. induction Hds as [|d ds Hd Hds IH]; [exact Hjunk|].
  change (String.append (digits_string (d :: ds)) junk)
    with (String (digit_char d) (String.append (digits_string ds) junk)).
  cbn [has_dot]. destruct (digit_char_facts d Hd) as (_ & _ & _ & -> & _).
  exact IH.
Qed.

Lemma ParseVersion_last_component_then (ds : list nat) (junk : string) :
  component_ok ds ->
  has_dot junk = false -> starts_with_digit junk = false ->
  ParseVersion (String.append (digits_string ds) junk)
  = Returns [digits_value ds 0].
Proof.
  intros Hok Hdot Hdigit. pose proof Hok as (Hne & Hds & _).
  rewrite ParseVersion_step.
  destruct ds as [|d ds]; [contradiction|].
  change (getline (String.append (digits_string (d :: ds)) junk) ".")
    with (Some (getline_chars (String.append (digits_string (d :: ds)) junk) ".")).
  rewrite getline_chars_no_dot by (now apply has_dot_digits_then).
  rewrite stoi_digits_then by assumption. reflexivity.
Qed.

(** Text after the last component is ignored when it holds no dot and does
    not start with a digit: "1.6.0-rc1" reads as "1.6.0", so a suffix never
    makes a version newer or older. *)
Theorem ParseVersion_ignores_suffix
    (components : list (list nat)) (junk current : string) :
  Forall component_ok components -> components <> [] ->
  has_dot junk = false -> starts_with_digit junk = false ->
  ParseVersion (String.append (dotted components) junk)
  = ParseVersion (dotted components)
  /\ IsNewVersionAvailable current (String.append (dotted components) junk)
     = IsNewVersionAvailable current (dotted components)
  /\ IsNewVersionAvailable (dotted components)
       (String.append (dotted components) junk) = Returns false.
Proof.
  intros Hok Hne Hdot Hdigit.
  assert (ParseVersion (String.append (dotted components) junk)
          = ParseVersion (dotted components)) as Heq.
  { rewrite ParseVersion_canonical by assumption.
    induction Hok as [|ds cs Hds Hcs IH]; [contradiction|].
    destruct cs as [|ds' cs].
    - now apply ParseVersion_last_component_then.
    - rewrite dotted_cons, append_assoc.
      change (String.append (String "." (dotted (ds' :: cs))) junk)
        with (String "." (String.append (dotted (ds' :: cs)) junk)).
      rewrite ParseVersion_component by assumption.
      rewrite IH by discriminate. reflexivity. }
  split; [exact Heq|]. unfold IsNewVersionAvailable. rewrite Heq.
  split; [reflexivity|].
  rewrite ParseVersion_canonical by assumption. simpl.
  now rewrite compare_versions_refl.
Qed.

Lemma ParseVersion_ignores_suffix_witness :
  ParseVersion "1.6.0-rc1" = ParseVersion "1.6.0"
  /\ IsNewVersionAvailable "1.5.9" "1.6.0-rc1"
     = IsNewVersionAvailable "1.5.9" "1.6.0"
  /\ IsNewVersionAvailable "1.6.0" "1.6.0-rc1" = Returns false.
Proof.
  apply (ParseVersion_ignores_suffix [[1]; [6]; [0]]%nat "-rc1" "1.5.9").
  - repeat constructor; try discriminate; vm_compute; discriminate.
  - discriminate.
  - reflexivity.
  - reflexivity.
Defined.

End ParseVersionFacts.

(** ** What a version check leaves behind *)

Module CheckVersionFacts.
Import Settings Ota OtaFacts OtaMore.

(** The steps of a completed [CheckVersion]. *)
Lemma CheckVersion_steps (P : Platform) (nvs nvs' : gmap (string * string) nvs_value)
    (o o' : Ota) (b : bool) (root : cJSON) :
  check_completed P o root ->
  CheckVersion P nvs o = Returns (b, o', nvs') ->
  b = true
  /\ exists (o1 o2 o3 : Ota) (nvs2 : gmap (string * string) nvs_value),
      parse_activation root (set_current_version_ (app_version P) o) = Returns o1
      /\ match cJSON_GetObjectItem root "mqtt" with
         | Some mqtt =>
             mqtt_items (children mqtt) nvs = Returns nvs2
             /\ o2 = set_has_mqtt_config_ true (set_has_mqtt_config_ false o1)
         | None => nvs2 = nvs /\ o2 = set_has_mqtt_config_ false o1
         end
      /\ match cJSON_GetObjectItem root "websocket" with
         | Some websocket =>
             websocket_items (children websocket) nvs2 = Returns nvs'
             /\ o3 = set_has_websocket_config_ true
                       (set_has_websocket_config_ false o2)
         | None => nvs' = nvs2 /\ o3 = set_has_websocket_config_ false o2
         end
      /\ parse_firmware root (parse_server_time root o3) = Returns o'.
Proof.
  intros (Hlen & body & Hopen & Hparse). unfold CheckVersion. simpl.
  replace (String.length (check_version_url_ o) <? 10)%nat with false
    by (symmetry; apply Nat.ltb_ge; exact Hlen).
  rewrite Hopen, Hparse. intros H.
  bind_inv H. bind_inv H. destruct x0 as [o2 nvs2].
  bind_inv H. destruct x0 as [o3 nvs3].
  bind_inv H. injection H as <- <- <-.
  split; [reflexivity|]. exists x, o2, o3, nvs2.
  split; [exact Hx|]. split; [|split; [|exact Hx2]].
  - destruct (cJSON_GetObjectItem root "mqtt").
    + bind_inv Hx0. injection Hx0 as <- <-. split; [assumption|reflexivity].
    + injection Hx0 as <- <-. split; reflexivity.
  - destruct (cJSON_GetObjectItem root "websocket").
    + bind_inv Hx1. injection Hx1 as <- <-. split; [assumption|reflexivity].
    + injection Hx1 as <- <-. split; reflexivity.
Qed.

Lemma parse_firmware_flags (root : cJSON) (o o' : Ota) :
  parse_firmware root o = Returns o' -> flags o' = flags o.
Proof.
  unfold parse_firmware. intros H.
  destruct (cJSON_GetObjectItem root "firmware") as [fw|];
    [|injection H as <-; reflexivity].
  bind_inv H. bind_inv H.
  assert (flags x = flags o) as Hf1.
  { destruct (cJSON_GetObjectItem fw "version"); [bind_inv Hx|];
      injection Hx as <-; reflexivity. }
  assert (flags x0 = flags x) as Hf2.
  { destruct (cJSON_GetObjectItem fw "url"); [bind_inv Hx0|];
      injection Hx0 as <-; reflexivity. }
  rewrite <- Hf1, <- Hf2.
  destruct (cJSON_GetObjectItem fw "version"), (cJSON_GetObjectItem fw "url");
    try (injection H as <-; reflexivity).
  bind_inv H. injection H as <-.
  destruct (cJSON_GetObjectItem fw "force") as [f|]; [|reflexivity].
  destruct (valueint f =? 1); reflexivity.
Qed.

Lemma parse_activation_flags (root : cJSON) (o o' : Ota) :
  parse_activation root o = Returns o' ->
  has_activation_code_ o' = section_has root "activation" "code"
  /\ has_activation_challenge_ o' = section_has root "activation" "challenge".
Proof.
  unfold parse_activation, section_has. intros H.
  destruct (cJSON_GetObjectItem root "activation") as [act|];
    [|injection H as <-; split; reflexivity].
  bind_inv H. bind_inv H. bind_inv H. injection H as <-.
  assert (has_activation_code_ x = false /\ has_activation_challenge_ x = false)
    as [Hc1 Hg1].
  { destruct (cJSON_GetObjectItem act "message"); [bind_inv Hx|];
      injection Hx as <-; split; reflexivity. }
  assert (has_activation_code_ x0 = present (cJSON_GetObjectItem act "code")
          /\ has_activation_challenge_ x0 = false) as [Hc2 Hg2].
  { destruct (cJSON_GetObjectItem act "code"); [bind_inv Hx0|];
      injection Hx0 as <-; split; simpl; assumption || reflexivity. }
  assert (has_activation_code_ x1 = present (cJSON_GetObjectItem act "code")
          /\ has_activation_challenge_ x1
             = present (cJSON_GetObjectItem act "challenge")) as [Hc3 Hg3].
  { destruct (cJSON_GetObjectItem act "challenge"); [bind_inv Hx1|];
      injection Hx1 as <-; split; simpl; assumption || reflexivity. }
  destruct (cJSON_GetObjectItem act "timeout_ms"); split; simpl; assumption.
Qed.

(** After a completed check each flag of the object tells whether the
    response held the section it stands for: [HasMqttConfig] the mqtt
    section, [HasWebsocketConfig] the websocket section, [HasServerTime] a
    timestamp in server_time, [HasActivationCode] and
    [HasActivationChallenge] a code and a challenge in activation. Flags of
    an earlier check do not survive. *)
Theorem CheckVersion_flags (P : Platform)
    (nvs nvs' : gmap (string * string) nvs_value)
    (o o' : Ota) (b : bool) (root : cJSON) :
  check_completed P o root ->
  CheckVersion P nvs o = Returns (b, o', nvs') ->
  has_mqtt_config_ o' = present (cJSON_GetObjectItem root "mqtt")
  /\ has_websocket_config_ o' = present (cJSON_GetObjectItem root "websocket")
  /\ has_server_time_ o' = section_has root "server_time" "timestamp"
  /\ has_activation_code_ o' = section_has root "activation" "code"
  /\ has_activation_challenge_ o' = section_has root "activation" "challenge".
Proof.
  intros Hc H. destruct (CheckVersion_steps P nvs nvs' o o' b root Hc H)
    as (_ & o1 & o2 & o3 & nvs2 & Ha & Hm & Hw & Hf).
  apply parse_firmware_flags in Hf. apply parse_activation_flags in Ha.
  destruct Ha as [Hcode Hchal].
  assert (flags o'
          = (present (cJSON_GetObjectItem root "mqtt"),
             present (cJSON_GetObjectItem root "websocket"),
             section_has root "server_time" "timestamp",
             has_activation_code_ o1, has_activation_challenge_ o1)) as Hflags.
  { rewrite Hf. unfold parse_server_time, section_has, flags.
    destruct (cJSON_GetObjectItem root "mqtt");
      destruct (cJSON_GetObjectItem root "websocket");
      destruct Hm as [_ ->]; destruct Hw as [_ ->];
      destruct (cJSON_GetObjectItem root "server_time") as [st|];
      try destruct (cJSON_GetObjectItem st "timestamp"); reflexivity. }
  unfold flags in Hflags. injection Hflags as -> -> -> -> ->.
  repeat split; assumption.
Qed.

Lemma CheckVersion_flags_witness :
  let P := server "1.6.0" (Some response_with_config) in
  has_mqtt_config_ (after_check P) = true
  /\ has_websocket_config_ (after_check P) = true
  /\ has_server_time_ (after_check P) = true
  /\ has_activation_code_ (after_check P) = false
  /\ has_activation_challenge_ (after_check P) = false.
Proof.
  intros P.
  apply (CheckVersion_flags P ∅ (settings_after_check P ∅) device_ota
           (after_check P) true response_with_config).
  - split; [simpl; lia|]. exists "response". split; reflexivity.
  - vm_compute. reflexivity.
Defined.

(** A check that returns false has changed nothing but the recorded current
    version: the flags and the firmware data of an earlier check stay as
    they were, and no setting is written. *)
Theorem CheckVersion_false_keeps_state (P : Platform)
    (nvs nvs' : gmap (string * string) nvs_value) (o o' : Ota) :
  CheckVersion P nvs o = Returns (false, o', nvs') ->
  o' = set_current_version_ (app_version P) o
  /\ nvs' = nvs
  /\ HasNewVersion o' = HasNewVersion o
  /\ firmware_version_ o' = firmware_version_ o
  /\ firmware_url_ o' = firmware_url_ o.
Proof.
  intros H. apply CheckVersion_Returns in H.
  destruct H as [(Hb & _) | (_ & _ & -> & ->)]; [discriminate Hb|].
  repeat split.
Qed.

Lemma CheckVersion_false_keeps_state_witness :
  let P := server "1.6.0" None in
  let o := set_has_new_version_ true device_ota in
  set_current_version_ "1.6.0" o = set_current_version_ (app_version P) o
  /\ (∅ : gmap (string * string) nvs_value) = ∅
  /\ HasNewVersion (set_current_version_ "1.6.0" o) = HasNewVersion o
  /\ firmware_version_ (set_current_version_ "1.6.0" o) = firmware_version_ o
  /\ firmware_url_ (set_current_version_ "1.6.0" o) = firmware_url_ o.
Proof.
  intros P o.
  apply (CheckVersion_false_keeps_state P ∅ ∅ o (set_current_version_ "1.6.0" o)).
  vm_compute. reflexivity.
Defined.

(** *** Settings written by a check *)

Lemma String_eqb_true (a b : string) : String.eqb a b = true -> a = b.
Proof. apply String.eqb_eq. Qed.

Lemma String_eqb_false (a b : string) : String.eqb a b = false -> a <> b.
Proof. apply String.eqb_neq. Qed.

(** One string item of the mqtt section: afterwards the key reads as the
    value, and nothing else has changed. *)
Lemma mqtt_item_store (nvs : gmap (string * string) nvs_value) (k value : string) :
  let nvs1 := if String.eqb (GetString nvs "mqtt" k "") value then nvs
              else SetString true "mqtt" k value nvs in
  GetString nvs1 "mqtt" k "" = value
  /\ forall ns key, (ns, key) <> ("mqtt", k) -> nvs1 !! (ns, key) = nvs !! (ns, key).
Proof.
  simpl. destruct (String.eqb (GetString nvs "mqtt" k "") value) eqn:E.
  - split; [now apply String_eqb_true|reflexivity].
  - split.
    + unfold GetString, SetString. now rewrite lookup_insert_eq.
    + intros ns key Hne. unfold SetString. now rewrite lookup_insert_ne.
Qed.

Lemma mqtt_items_spec (items : list (option string * cJSON)) :
  forall nvs nvs' : gmap (string * string) nvs_value,
    mqtt_items items nvs = Returns nvs' ->
    (forall key v, last_string_item items key = Some v ->
                   GetString nvs' "mqtt" key "" = v)
    /\ (forall key, last_string_item items key = None ->
                    nvs' !! ("mqtt", key) = nvs !! ("mqtt", key))
    /\ (forall ns key, ns <> "mqtt" -> nvs' !! (ns, key) = nvs !! (ns, key)).
Proof.
  induction items as [|[name item] items IH]; intros nvs nvs' H.
  - injection H as <-. repeat split. intros key v Hv. discriminate Hv.
  - cbn [mqtt_items] in H.
    assert (forall nvs1,
               mqtt_items items nvs1 = Returns nvs' ->
               (forall ns key, ns <> "mqtt" -> nvs1 !! (ns, key) = nvs !! (ns, key)) ->
               (forall key,
                   (forall v, ~ (name = Some key /\ item = cJSON_String v)) ->
                   nvs1 !! ("mqtt", key) = nvs !! ("mqtt", key)) ->
               (forall k v, name = Some k -> item = cJSON_String v ->
                            GetString nvs1 "mqtt" k "" = v) ->
               (forall key v, last_string_item ((name, item) :: items) key = Some v ->
                   GetString nvs' "mqtt" key "" = v)
               /\ (forall key, last_string_item ((name, item) :: items) key = None ->
                    nvs' !! ("mqtt", key) = nvs !! ("mqtt", key))
               /\ (forall ns key, ns <> "mqtt" ->
                    nvs' !! (ns, key) = nvs !! (ns, key))) as Hstep.
    { intros nvs1 Hrest Hother Hchanged Hset.
      destruct (IH nvs1 nvs' Hrest) as (IH1 & IH2 & IH3).
      split; [|split].
      - intros key v Hlast. cbn [last_string_item] in Hlast.
        destruct (last_string_item items key) as [v'|] eqn:El.
        + injection Hlast as <-. now apply IH1.
        + destruct name as [k|]; [|discriminate Hlast].
          destruct item; try discriminate Hlast.
          destruct (String.eqb k key) eqn:Ek; [|discriminate Hlast].
          injection Hlast as <-. apply String_eqb_true in Ek. subst k.
          unfold GetString. rewrite (IH2 key El).
          now apply (Hset key valuestring0).
      - intros key Hlast. cbn [last_string_item] in Hlast.
        destruct (last_string_item items key) as [v'|] eqn:El; [discriminate|].
        rewrite (IH2 key El). apply Hchanged. intros v [-> ->].
        rewrite String.eqb_refl in Hlast. discriminate Hlast.
      - intros ns key Hns. rewrite (IH3 ns key Hns). now apply Hother. }
    destruct item; try (apply (Hstep nvs H); [reflexivity| |];
                        [intros key _; reflexivity
                        |intros k v _ Hv; discriminate Hv]).
    destruct name as [k|]; [|discriminate H]. simpl in H.
    destruct (mqtt_item_store nvs k valuestring0) as [Hget Hframe].
    apply (Hstep _ H).
    + intros ns key Hns. apply Hframe. congruence.
    + intros key Hne. apply Hframe. intros Heq. injection Heq as <-.
      now apply (Hne valuestring0).
    + intros k' v Hk Hv. injection Hk as <-. injection Hv as <-. exact Hget.
Qed.

Lemma websocket_items_spec (items : list (option string * cJSON)) :
  forall nvs nvs' : gmap (string * string) nvs_value,
    websocket_items items nvs = Returns nvs' ->
    (forall key, nvs' !! ("websocket", key)
                 = match last_value_item items key with
                   | Some v => Some v
                   | None => nvs !! ("websocket", key)
                   end)
    /\ (forall ns key, ns <> "websocket" -> nvs' !! (ns, key) = nvs !! (ns, key)).
Proof.
  induction items as [|[name item] items IH]; intros nvs nvs' H.
  - injection H as <-. split; reflexivity.
  - cbn [websocket_items] in H. cbn [last_value_item].
    destruct item;
      try (destruct (IH nvs nvs' H) as [IH1 IH2]; split;
           [intros key; rewrite IH1;
            destruct (last_value_item items key); [reflexivity|];
            destruct name; reflexivity
           |exact IH2]).
    + destruct name as [k|]; [|discriminate H]. simpl in H.
      destruct (IH _ _ H) as [IH1 IH2]. split.
      * intros key. rewrite IH1.
        destruct (last_value_item items key); [reflexivity|].
        unfold SetInt.
        destruct (String.eqb k key) eqn:Ek.
        -- apply String_eqb_true in Ek. subst. now rewrite lookup_insert_eq.
        -- apply String_eqb_false in Ek. rewrite lookup_insert_ne by congruence.
           reflexivity.
      * intros ns key Hns. rewrite IH2 by assumption.
        unfold SetInt. rewrite lookup_insert_ne by congruence. reflexivity.
    + destruct name as [k|]; [|discriminate H]. simpl in H.
      destruct (IH _ _ H) as [IH1 IH2]. split.
      * intros key. rewrite IH1.
        destruct (last_value_item items key); [reflexivity|].
        unfold SetString.
        destruct (String.eqb k key) eqn:Ek.
        -- apply String_eqb_true in Ek. subst. now rewrite lookup_insert_eq.
        -- apply String_eqb_false in Ek. rewrite lookup_insert_ne by congruence.
           reflexivity.
      * intros ns key Hns. rewrite IH2 by assumption.
        unfold SetString. rewrite lookup_insert_ne by congruence. reflexivity.
Qed.

(** After a completed check, the settings hold the configuration of the
    response: every key of the mqtt section reads as the string of its
    last string item, every key of the websocket section holds the value
    of its last string or number item, and no other namespace has been
    touched. *)
Theorem CheckVersion_stores_config (P : Platform)
    (nvs nvs' : gmap (string * string) nvs_value)
    (o o' : Ota) (b : bool) (root : cJSON) :
  check_completed P o root ->
  CheckVersion P nvs o = Returns (b, o', nvs') ->
  (forall mqtt key v,
      cJSON_GetObjectItem root "mqtt" = Some mqtt ->
      last_string_item (children mqtt) key = Some v ->
      GetString nvs' "mqtt" key "" = v)
  /\ (forall websocket key v,
         cJSON_GetObjectItem root "websocket" = Some websocket ->
         last_value_item (children websocket) key = Some v ->
         nvs' !! ("websocket", key) = Some v)
  /\ (forall ns key, ns <> "mqtt" -> ns <> "websocket" ->
                     nvs' !! (ns, key) = nvs !! (ns, key)).
Proof.
  intros Hc H. destruct (CheckVersion_steps P nvs nvs' o o' b root Hc H)
    as (_ & o1 & o2 & o3 & nvs2 & _ & Hm & Hw & _).
  assert (forall ns key, ns <> "websocket" -> nvs' !! (ns, key) = nvs2 !! (ns, key))
    as Hwframe.
  { destruct (cJSON_GetObjectItem root "websocket") as [ws|].
    - destruct Hw as [Hw _]. apply websocket_items_spec in Hw. apply Hw.
    - destruct Hw as [-> _]. reflexivity. }
  split; [|split].
  - intros mqtt key v Hsec Hlast. rewrite Hsec in Hm. destruct Hm as [Hm _].
    apply mqtt_items_spec in Hm. destruct Hm as (Hm1 & _).
    unfold GetString. rewrite Hwframe by discriminate. now apply Hm1.
  - intros ws key v Hsec Hlast. rewrite Hsec in Hw. destruct Hw as [Hw _].
    apply websocket_items_spec in Hw. destruct Hw as (Hw1 & _).
    rewrite Hw1, Hlast. reflexivity.
  - intros ns key Hn1 Hn2. rewrite Hwframe by assumption.
    destruct (cJSON_GetObjectItem root "mqtt") as [mqtt|].
    + destruct Hm as [Hm _]. apply mqtt_items_spec in Hm. now apply Hm.
    + destruct Hm as [-> _]. reflexivity.
Qed.

Lemma CheckVersion_stores_config_witness :
  let P := server "1.6.0" (Some response_with_config) in
  let nvs' := settings_after_check P ∅ in
  GetString nvs' "mqtt" "endpoint" "" = "mqtt.example.com"
  /\ nvs' !! ("websocket", "version") = Some (nvs_i32 3)
  /\ nvs' !! ("wifi", "ssid") = (∅ : gmap (string * string) nvs_value) !! ("wifi", "ssid").
Proof.
  intros P nvs'.
  destruct (CheckVersion_stores_config P ∅ nvs' device_ota (after_check P) true
              response_with_config) as (Hm & Hw & Hf).
  - split; [simpl; lia|]. exists "response". split; reflexivity.
  - vm_compute. reflexivity.
  - split; [|split].
    + apply (Hm (cJSON_Object [("endpoint", cJSON_String "old.example.com");
                               ("port", cJSON_Number 8883);
                               ("endpoint", cJSON_String "mqtt.example.com")]));
        reflexivity.
    + apply (Hw (cJSON_Object [("url", cJSON_String "wss://example.com/ws");
                               ("version", cJSON_Number 3)])); reflexivity.
    + apply Hf; discriminate.
Defined.

End CheckVersionFacts.

(** ** The codec port in use *)

Module BoxCodecFacts.
Import Settings AudioCodec BoxCodec.

Lemma follow_app (events more : list (request * response)) :
  forall in_open out_open : bool,
    follow (events ++ more) in_open out_open
    = match follow events in_open out_open with
      | Some (i, o) => follow more i o
      | None => None
      end.
Proof.
  induction events as [|[rq r] events IH]; intros i o; [reflexivity|].
  simpl. destruct rq as [h|[] fs|[]|[] v|[] m g|[] n|[] d n];
    destruct i, o; simpl; auto.
Qed.

Lemma ESP_ERROR_CHECK_Returns (drv : driver) (rq : request)
    (hw hw' : list (request * response)) :
  ESP_ERROR_CHECK (call drv rq hw) = Returns hw' ->
  hw' = hw ++ [(rq, drv hw rq)].
Proof.
  unfold ESP_ERROR_CHECK, call. simpl.
  destruct (status (drv hw rq) =? ESP_OK); [|discriminate].
  intros H. now injection H as <-.
Qed.

Lemma tracked_step (c c' : AudioCodec) (hw more : list (request * response)) :
  tracked c hw ->
  follow more (input_enabled_ c) (output_enabled_ c)
  = Some (input_enabled_ c', output_enabled_ c') ->
  tracked c' (hw ++ more).
Proof. unfold tracked. intros H1 H2. now rewrite follow_app, H1. Qed.

Lemma EnableInput_tracked (drv : driver) (enable : bool)
    (c c' : AudioCodec) (hw hw' : list (request * response)) :
  tracked c hw ->
  EnableInput BoxAudioCodec drv enable c hw = Returns (c', hw') ->
  tracked c' hw' /\ output_volume_ c' = output_volume_ c.
Proof.
  intros Ht. simpl. unfold BoxAudioCodec_EnableInput.
  destruct (Bool.eqb enable (input_enabled_ c)) eqn:E.
  - intros H. injection H as <- <-. split; [exact Ht|reflexivity].
  - intros H. apply obind_Returns in H. destruct H as (h & Hh & H).
    injection H as <- <-.
    unfold AudioCodec_EnableInput. rewrite E. split; [|reflexivity].
    destruct enable.
    + apply obind_Returns in Hh. destruct Hh as (h1 & H1 & H2).
      apply ESP_ERROR_CHECK_Returns in H1. apply ESP_ERROR_CHECK_Returns in H2.
      subst h h1. rewrite <- app_assoc. apply (tracked_step c); [exact Ht|].
      destruct (input_enabled_ c); [discriminate E|].
      destruct (input_reference_ c); reflexivity.
    + apply ESP_ERROR_CHECK_Returns in Hh. subst h.
      apply (tracked_step c); [exact Ht|].
      destruct (input_enabled_ c); [reflexivity|discriminate E].
Qed.

Lemma EnableOutput_tracked (drv : driver) (enable : bool)
    (c c' : AudioCodec) (hw hw' : list (request * response)) :
  tracked c hw ->
  EnableOutput BoxAudioCodec drv enable c hw = Returns (c', hw') ->
  tracked c' hw' /\ output_volume_ c' = output_volume_ c.
Proof.
  intros Ht. simpl. unfold BoxAudioCodec_EnableOutput.
  destruct (Bool.eqb enable (output_enabled_ c)) eqn:E.
  - intros H. injection H as <- <-. split; [exact Ht|reflexivity].
  - intros H. apply obind_Returns in H. destruct H as (h & Hh & H).
    injection H as <- <-.
    unfold AudioCodec_EnableOutput. rewrite E. split; [|reflexivity].
    destruct enable.
    + apply obind_Returns in Hh. destruct Hh as (h1 & H1 & H2).
      apply ESP_ERROR_CHECK_Returns in H1. apply ESP_ERROR_CHECK_Returns in H2.
      subst h h1. rewrite <- app_assoc. apply (tracked_step c); [exact Ht|].
      destruct (output_enabled_ c); [discriminate E|]. reflexivity.
    + apply ESP_ERROR_CHECK_Returns in Hh. subst h.
      apply (tracked_step c); [exact Ht|].
      destruct (output_enabled_ c); [reflexivity|discriminate E].
Qed.

Lemma Start_tracked (drv : driver) (nvs : gmap (string * string) nvs_value)
    (c c' : AudioCodec) (hw hw' : list (request * response)) :
  tracked c hw ->
  Start BoxAudioCodec drv nvs c hw = Returns (c', hw') ->
  tracked c' hw'.
Proof.
  intros Ht H. unfold Start in H.
  apply obind_Returns in H. destruct H as (h1 & H1 & H).
  apply obind_Returns in H. destruct H as (h2 & H2 & H).
  apply obind_Returns in H. destruct H as ([c1 h3] & H3 & H).
  apply obind_Returns in H. destruct H as ([c2 h4] & H4 & H).
  injection H as <- <-.
  apply ESP_ERROR_CHECK_Returns in H1. apply ESP_ERROR_CHECK_Returns in H2.
  subst h1 h2.
  apply (EnableOutput_tracked _ _ _ _ _ _) in H4; [apply H4|].
  apply (EnableInput_tracked _ _ _ _ _ _) in H3; [apply H3|].
  rewrite <- app_assoc.
  match goal with
  | |- tracked ?c0 _ => apply (tracked_step c c0); [exact Ht|]
  end.
  simpl.
  match goal with
  | |- context [if ?b then _ else _] => destruct b
  end; reflexivity.
Qed.

Lemma run_op_tracked (drv : driver) (op : codec_op)
    (c c' : AudioCodec) (nvs nvs' : gmap (string * string) nvs_value)
    (hw hw' : list (request * response)) :
  tracked c hw ->
  run_op drv op (c, nvs, hw) = Returns (c', nvs', hw') ->
  tracked c' hw'.
Proof.
  intros Ht H. destruct op; simpl in H.
  - apply obind_Returns in H. destruct H as ([c1 h1] & H1 & H).
    injection H as <- _ <-. now apply (Start_tracked drv nvs c c1 hw h1).
  - apply obind_Returns in H. destruct H as ([c1 h1] & H1 & H).
    injection H as <- _ <-.
    now apply (EnableInput_tracked drv enable c c1 hw h1).
  - apply obind_Returns in H. destruct H as ([c1 h1] & H1 & H).
    injection H as <- _ <-.
    now apply (EnableOutput_tracked drv enable c c1 hw h1).
  - unfold BoxAudioCodec_SetOutputVolume in H.
    apply obind_Returns in H. destruct H as (h1 & H1 & H).
    injection H as <- _ <-. apply ESP_ERROR_CHECK_Returns in H1. subst h1.
    apply (tracked_step c); [exact Ht|]. reflexivity.
  - injection H as <- _ <-. unfold InputData, Read, ESP_ERROR_CHECK_WITHOUT_ABORT, call.
    destruct (input_enabled_ c) eqn:E; [|exact Ht]. simpl.
    apply (tracked_step c); [exact Ht|]. simpl. now rewrite E.
  - injection H as <- _ <-. unfold OutputData, Write, ESP_ERROR_CHECK_WITHOUT_ABORT, call.
    destruct (output_enabled_ c) eqn:E; [|exact Ht]. simpl.
    apply (tracked_step c); [exact Ht|]. simpl. rewrite E.
    destruct (input_enabled_ c); reflexivity.
Qed.

(** Whatever operations are run on a freshly constructed [BoxAudioCodec]
    (both directions disabled, nothing done to the hardware yet), if they
    return, the calls made to the two devices keep their discipline: a
    device is never opened twice or closed while closed, samples are never
    read from or written to a closed device, and at the end the input and
    output devices are open exactly when [input_enabled()] and
    [output_enabled()] say so. *)
Theorem BoxAudioCodec_device_discipline (drv : driver) (ops : list codec_op)
    (c c' : AudioCodec) (nvs nvs' : gmap (string * string) nvs_value)
    (hw' : list (request * response)) :
  input_enabled_ c = false ->
  output_enabled_ c = false ->
  run_ops drv ops (c, nvs, []) = Returns (c', nvs', hw') ->
  follow hw' false false = Some (input_enabled_ c', output_enabled_ c').
Proof.
  intros Hi Ho.
  assert (tracked c []) as Ht by (unfold tracked; simpl; now rewrite Hi, Ho).
  clear Hi Ho. revert c nvs Ht. generalize (@nil (request * response)).
  induction ops as [|op ops IH]; intros hw c nvs Ht H; simpl in H.
  - injection H as <- _ <-. exact Ht.
  - apply obind_Returns in H. destruct H as ([[c1 nvs1] hw1] & H1 & H).
    apply (IH hw1 c1 nvs1); [|exact H].
    now apply (run_op_tracked drv op c c1 nvs nvs1 hw hw1).
Qed.

Lemma BoxAudioCodec_device_discipline_witness :
  let ops := [op_Start; op_InputData [0; 0; 0]; op_EnableInput false;
              op_InputData [0; 0; 0]; op_OutputData [1; 2];
              op_EnableOutput false; op_EnableOutput false] in
  exists c' hw',
    run_ops accepting_driver ops (box_codec, ∅, []) = Returns (c', ∅, hw')
    /\ follow hw' false false = Some (false, false)
    /\ follow hw' false false = Some (input_enabled_ c', output_enabled_ c').
Proof.
  intros ops. eexists _, _. split; [vm_compute; reflexivity|].
  split; [vm_compute; reflexivity|].
  apply (BoxAudioCodec_device_discipline accepting_driver ops box_codec _ ∅ ∅).
  - reflexivity.
  - reflexivity.
  - vm_compute. reflexivity.
Defined.

(** *** The volume *)

Lemma EnableInput_events (drv : driver) (enable : bool)
    (c c' : AudioCodec) (hw hw' : list (request * response)) :
  EnableInput BoxAudioCodec drv enable c hw = Returns (c', hw') ->
  exists new,
    hw' = hw ++ new /\ forallb (fun ev => negb (sets_volume ev)) new = true
    /\ output_enabled_ c' = output_enabled_ c
    /\ output_volume_ c' = output_volume_ c.
Proof.
  simpl. unfold BoxAudioCodec_EnableInput.
  destruct (Bool.eqb enable (input_enabled_ c)) eqn:E.
  - intros H. injection H as <- <-. exists []. rewrite app_nil_r. repeat split.
  - intros H. apply obind_Returns in H. destruct H as (h & Hh & H).
    injection H as <- <-. unfold AudioCodec_EnableInput. rewrite E.
    destruct enable.
    + apply obind_Returns in Hh. destruct Hh as (h1 & H1 & H2).
      apply ESP_ERROR_CHECK_Returns in H1. apply ESP_ERROR_CHECK_Returns in H2.
      subst h h1. rewrite <- app_assoc. eexists. split; [reflexivity|].
      repeat split.
    + apply ESP_ERROR_CHECK_Returns in Hh. subst h.
      eexists. split; [reflexivity|]. repeat split.
Qed.

(** [Start] on a [BoxAudioCodec] whose output is disabled ends by handing
    the device the volume that [output_volume()] reports afterwards. When
    the output is enabled already, [Start] sets no volume on the device,
    although it may have changed [output_volume()]. *)
Theorem Start_sets_device_volume (drv : driver)
    (nvs : gmap (string * string) nvs_value)
    (c c' : AudioCodec) (hw hw' : list (request * response)) :
  Start BoxAudioCodec drv nvs c hw = Returns (c', hw') ->
  exists new,
    hw' = hw ++ new
    /\ if output_enabled_ c
       then forallb (fun ev => negb (sets_volume ev)) new = true
       else exists r,
           last new
           = Some (esp_codec_dev_set_out_vol output_dev_ (output_volume c'), r).
Proof.
  intros H. unfold Start in H.
  apply obind_Returns in H. destruct H as (h1 & H1 & H).
  apply obind_Returns in H. destruct H as (h2 & H2 & H).
  apply obind_Returns in H. destruct H as ([c1 h3] & H3 & H).
  apply obind_Returns in H. destruct H as ([c2 h4] & H4 & H).
  injection H as <- <-.
  apply ESP_ERROR_CHECK_Returns in H1. apply ESP_ERROR_CHECK_Returns in H2.
  apply EnableInput_events in H3. destruct H3 as (new & -> & Hnew & Hen & Hvol).
  assert (output_enabled_ c1 = output_enabled_ c) as Hen'.
  { rewrite Hen. destruct (_ <=? 0); reflexivity. }
  subst h2 h1. simpl in H4. unfold BoxAudioCodec_EnableOutput in H4.
  rewrite Hen' in H4. destruct (output_enabled_ c) eqn:Eout; simpl in H4.
  - injection H4 as <- <-. eexists. rewrite <- !app_assoc.
    split; [reflexivity|]. simpl. exact Hnew.
  - apply obind_Returns in H4. destruct H4 as (h & Hh & H4).
    injection H4 as <- <-.
    apply obind_Returns in Hh. destruct Hh as (h5 & H5 & H6).
    apply ESP_ERROR_CHECK_Returns in H5. apply ESP_ERROR_CHECK_Returns in H6.
    subst h h5. eexists. rewrite <- !app_assoc. split; [reflexivity|].
    eexists. rewrite !app_assoc, last_snoc. unfold output_volume.
    rewrite AudioCodecFacts.AudioCodec_EnableOutput_volume. reflexivity.
Qed.

Lemma Start_sets_device_volume_witness :
  let r := started BoxAudioCodec accepting_driver (stored_volume (-5)) in
  exists new,
    r.2 = [] ++ new
    /\ exists x,
        last new = Some (esp_codec_dev_set_out_vol output_dev_ (output_volume r.1), x).
Proof.
  intros r.
  apply (Start_sets_device_volume accepting_driver (stored_volume (-5))
           box_codec r.1 [] r.2).
  vm_compute. reflexivity.
Defined.

(** A volume set through [SetOutputVolume] is reported as it was given,
    without any check of its range, and it outlives a restart: a later
    [Start] of any codec object on the same settings comes up with that
    volume when it is positive and with 10 otherwise. *)
Theorem SetOutputVolume_survives_restart (drv drv' : driver) (cls : codec_class)
    (volume : Z) (nvs nvs1 : gmap (string * string) nvs_value)
    (c c1 c2 c3 : AudioCodec) (hw hw1 hw2 hw3 : list (request * response)) :
  BoxAudioCodec_SetOutputVolume drv volume nvs c hw = Returns (c1, nvs1, hw1) ->
  Start cls drv' nvs1 c2 hw2 = Returns (c3, hw3) ->
  output_volume c1 = volume
  /\ output_volume c3 = if volume <=? 0 then 10 else volume.
Proof.
  intros Hset Hstart. unfold BoxAudioCodec_SetOutputVolume in Hset.
  apply obind_Returns in Hset. destruct Hset as (h & _ & Hset).
  injection Hset as <- <- _. split; [reflexivity|].
  apply AudioCodecFacts.Start_volume in Hstart. rewrite Hstart.
  unfold GetInt, SetInt. simpl. rewrite lookup_insert_eq. reflexivity.
Qed.

Lemma SetOutputVolume_survives_restart_witness :
  output_volume (set_output_volume_ 0 box_codec) = 0
  /\ output_volume
       (started BoxAudioCodec accepting_driver (stored_volume 0)).1
     = if 0 <=? 0 then 10 else 0.
Proof.
  apply (SetOutputVolume_survives_restart accepting_driver accepting_driver
           BoxAudioCodec 0 ∅ (stored_volume 0) box_codec
           (set_output_volume_ 0 box_codec) box_codec
           (started BoxAudioCodec accepting_driver (stored_volume 0)).1
           [] [(esp_codec_dev_set_out_vol output_dev_ 0, mk_response ESP_OK [])]
           [] (started BoxAudioCodec accepting_driver (stored_volume 0)).2).
  - vm_compute. reflexivity.
  - vm_compute. reflexivity.
Defined.

(** *** Buffers *)

Lemma to_int_small (z : Z) : INT_MIN <= z <= INT_MAX -> to_int z = z.
Proof.
  unfold to_int, INT_MIN, INT_MAX. intros H.
  rewrite Z.mod_small by lia. lia.
Qed.

(** [InputData] tells whether the buffer it was given is non-empty. It
    returns true for any non-empty buffer, also when the input is disabled
    or the device refuses the read. *)
Theorem InputData_true_iff_nonempty (drv : driver) (c : AudioCodec)
    (hw : list (request * response)) (data : list Z) :
  Z.of_nat (length data) <= INT_MAX ->
  (InputData drv c hw data).1.1 = match data with [] => false | _ => true end.
Proof.
  intros Hlen. rewrite AudioCodecFacts.InputData_result.
  rewrite to_int_small by (unfold INT_MIN; lia).
  destruct data; reflexivity.
Qed.

Lemma InputData_true_iff_nonempty_witness :
  (InputData refusing_driver box_codec [] [0; 0; 0]).1.1 = true.
Proof.
  apply (InputData_true_iff_nonempty refusing_driver box_codec [] [0; 0; 0]).
  vm_compute. discriminate.
Defined.

(** [OutputData] with the output enabled hands the whole buffer to the
    device in one write of twice as many bytes as samples; with the output
    disabled it drops the buffer without any device call. *)
Theorem OutputData_writes_buffer (drv : driver) (c : AudioCodec)
    (hw : list (request * response)) (data : list Z) :
  2 * Z.of_nat (length data) <= INT_MAX ->
  OutputData drv c hw data
  = if output_enabled_ c
    then hw ++ [(esp_codec_dev_write output_dev_ data (2 * Z.of_nat (length data)),
                 drv hw (esp_codec_dev_write output_dev_ data
                           (2 * Z.of_nat (length data))))]
    else hw.
Proof.
  intros Hlen. unfold OutputData, Write, ESP_ERROR_CHECK_WITHOUT_ABORT, call.
  destruct (output_enabled_ c); [|reflexivity]. simpl.
  rewrite (to_int_small (Z.of_nat (length data))) by (unfold INT_MIN; lia).
  rewrite to_int_small by (unfold INT_MIN; lia).
  replace (Z.of_nat (length data) * 2) with (2 * Z.of_nat (length data)) by lia.
  reflexivity.
Qed.

Lemma OutputData_writes_buffer_witness :
  OutputData accepting_driver (set_output_enabled_ true box_codec) [] [5; 6; 7]
  = [(esp_codec_dev_write output_dev_ [5; 6; 7] 6, mk_response ESP_OK [])].
Proof.
  apply (OutputData_writes_buffer accepting_driver
           (set_output_enabled_ true box_codec) [] [5; 6; 7]).
  vm_compute. discriminate.
Defined.

End BoxCodecFacts.

(** ** The firmware download *)

Module OtaUpgradeFacts.
Import OtaUpgrade.

Section Facts.

Variable layout : image_layout.
Variable drv : ota_driver.
Variable has_callback : bool.
Variable current_version : list Z.
Variable content_length : Z.
Variable clock : nat -> Z.

Local Abbreviation loop :=
  (Upgrade_loop layout drv has_callback current_version content_length clock).

Lemma written_app (a b : list ota_request) :
  written (a ++ b) = written a ++ written b.
Proof.
  induction a as [|rq a IH]; [reflexivity|].
  destruct rq; simpl; rewrite IH; try reflexivity. now rewrite app_assoc.
Qed.

Lemma written_writes (h : Z) (chunks : list (list Z)) :
  written (map (esp_ota_write h) chunks) = concat chunks.
Proof. induction chunks as [|b chunks IH]; simpl; [reflexivity|]. now rewrite IH. Qed.

Lemma length_nonzero (buffer : list Z) :
  buffer <> [] -> (Z.of_nat (length buffer) =? 0) = false.
Proof. intros H. destruct buffer; [contradiction|]. simpl. lia. Qed.

(** The loop only adds to the history of OTA calls. *)
Lemma loop_extends (reads : list (option (list Z))) :
  forall total recent last hdr checked h ticks trace cbs,
    exists tail,
      (loop reads total recent last hdr checked h ticks trace cbs).1.2
      = trace ++ tail.
Proof.
  induction reads as [|[buffer|] reads IH];
    intros total recent last hdr checked h ticks trace cbs; cbn [Upgrade_loop].
  - exists []. now rewrite app_nil_r.
  - assert (forall h' hdr' checked' trace' tail',
               trace' = trace ++ tail' ->
               forall t r l tk cb,
               exists tail,
                 (let '(r0, trace0) :=
                    ota_call drv (esp_ota_write h' buffer) trace' in
                  if negb (err r0 =? ESP_OK)
                  then let '(_, trace1) :=
                         ota_call drv (esp_ota_abort h') trace0 in
                       (write_failed, trace1, cb)
                  else loop reads t r l hdr' checked' h' tk trace0 cb).1.2
                 = trace ++ tail) as Hwrite.
    { intros h' hdr' checked' trace' tail' -> t r l tk cb. unfold ota_call.
      destruct (negb (err _ =? ESP_OK)).
      - eexists. simpl. rewrite <- !app_assoc. reflexivity.
      - match goal with
        | |- context [loop reads ?t ?r ?l ?hd ?ck ?hh ?tk ?tr ?cb] =>
            destruct (IH t r l hd ck hh tk tr cb) as [tail ->]
        end.
        eexists. rewrite <- !app_assoc. reflexivity. }
    destruct (Z.of_nat (length buffer) =? 0).
    + unfold Upgrade_finish, ota_call.
      repeat (match goal with
              | |- context [if negb ?b then _ else _] => destruct (negb b)
              end);
        eexists; simpl; rewrite <- ?app_assoc; reflexivity.
    + destruct checked.
      * apply (Hwrite h hdr true trace []). now rewrite app_nil_r.
      * destruct (_ <=? _)%nat.
        -- destruct (bool_decide _).
           ++ exists []. now rewrite app_nil_r.
           ++ unfold ota_call at 1.
              destruct (negb (err (drv trace esp_ota_begin) =? 0)).
              ** unfold ota_call. eexists. simpl. rewrite <- !app_assoc.
                 reflexivity.
              ** eapply Hwrite. reflexivity.
        -- apply (Hwrite h (hdr ++ buffer) false trace []). now rewrite app_nil_r.
  - exists []. now rewrite app_nil_r.
Qed.

(** Once the header is checked, and with a driver that accepts every call,
    the loop writes each chunk to the handle and ends with the restart. *)
Lemma loop_checked (chunks : list (list Z)) :
  (forall tr rq, err (drv tr rq) = ESP_OK) ->
  Forall (fun b => b <> []) chunks ->
  forall total recent last hdr h ticks trace cbs,
    (loop (map Some chunks ++ [Some []]) total recent last hdr true h ticks
       trace cbs).1.1 = restarted
    /\ map fst (loop (map Some chunks ++ [Some []]) total recent last hdr true h
                  ticks trace cbs).1.2
       = map fst trace ++ map (esp_ota_write h) chunks
         ++ [esp_ota_end h; esp_ota_set_boot_partition; esp_restart].
Proof.
  intros Hok Hchunks. induction Hchunks as [|b chunks Hb Hrest IH];
    intros total recent last hdr h ticks trace cbs.
  - simpl. unfold Upgrade_finish, ota_call. rewrite !Hok. simpl.
    split; [reflexivity|]. rewrite !map_app. simpl. now rewrite <- !app_assoc.
  - cbn [map app Upgrade_loop]. rewrite (length_nonzero b Hb).
    unfold ota_call. rewrite Hok. cbn [negb Z.eqb ESP_OK].
    match goal with
    | |- context [loop _ ?t ?r ?l ?hd true h ?tk ?tr ?cb] =>
        destruct (IH t r l hd h tk tr cb) as [IH1 IH2]
    end.
    split; [exact IH1|]. rewrite IH2, map_app. simpl. now rewrite <- app_assoc.
Qed.

(** With a driver that accepts every call and an image whose first read
    holds the whole header with a version other than the running one,
    [Upgrade] opens the update once, writes every chunk it read to the
    handle it opened, in the order of reading, ends the update, sets the
    boot partition and restarts: the bytes written are the bytes
    downloaded. *)
Theorem Upgrade_flashes_download (first : list Z) (chunks : list (list Z)) :
  (forall tr rq, err (drv tr rq) = ESP_OK) ->
  content_length <> 0 ->
  Forall (fun b => b <> []) (first :: chunks) ->
  (desc_offset layout + desc_size layout <= length first)%nat ->
  version_of layout first <> take (version_size layout) current_version ->
  let result := Upgrade layout drv has_callback current_version content_length
                  clock true true (map Some (first :: chunks) ++ [Some []]) in
  let h := opened (drv [] esp_ota_begin) in
  result.1.1 = restarted
  /\ map fst result.1.2
     = esp_ota_begin :: map (esp_ota_write h) (first :: chunks)
       ++ [esp_ota_end h; esp_ota_set_boot_partition; esp_restart]
  /\ written (map fst result.1.2) = concat (first :: chunks).
Proof.
  intros Hok Hlen Hne Hhdr Hver result h.
  inversion Hne as [|? ? Hfirst Hchunks]; subst.
  assert (result.1.1 = restarted
          /\ map fst result.1.2
             = esp_ota_begin :: map (esp_ota_write h) (first :: chunks)
               ++ [esp_ota_end h; esp_ota_set_boot_partition; esp_restart])
    as [He Ht].
  { subst result. unfold Upgrade. cbn [negb].
    replace (content_length =? 0) with false by lia.
    cbn [map app Upgrade_loop]. rewrite (length_nonzero first Hfirst).
    cbn [app].
    replace (desc_offset layout + desc_size layout <=? length first)%nat
      with true by (symmetry; apply Nat.leb_le; exact Hhdr).
    fold (version_of layout first).
    rewrite bool_decide_eq_false_2 by exact Hver.
    unfold ota_call. rewrite !Hok. cbn [negb Z.eqb ESP_OK app].
    match goal with
    | |- context [loop _ ?t ?r ?l ?hd true ?hh ?tk ?tr ?cb] =>
        destruct (loop_checked chunks Hok Hchunks t r l hd hh tk tr cb)
          as [L1 L2]
    end.
    split; [exact L1|]. rewrite L2. reflexivity. }
  split; [exact He|]. split; [exact Ht|].
  rewrite Ht. cbn [written]. rewrite written_app, written_writes. simpl.
  now rewrite app_nil_r.
Qed.

(** When the first read holds the whole header and its version field
    equals the running version, [Upgrade] returns without a single call to
    the OTA driver: nothing is opened, written or restarted. *)
Theorem Upgrade_skips_same_version (first : list Z)
    (rest : list (option (list Z))) :
  content_length <> 0 ->
  first <> [] ->
  (desc_offset layout + desc_size layout <= length first)%nat ->
  version_of layout first = take (version_size layout) current_version ->
  let result := Upgrade layout drv has_callback current_version content_length
                  clock true true (Some first :: rest) in
  result.1.1 = same_version /\ result.1.2 = [].
Proof.
  intros Hlen Hfirst Hhdr Hver result. subst result. unfold Upgrade. cbn [negb].
  replace (content_length =? 0) with false by lia.
  cbn [Upgrade_loop]. rewrite (length_nonzero first Hfirst). cbn [app].
  replace (desc_offset layout + desc_size layout <=? length first)%nat
    with true by (symmetry; apply Nat.leb_le; exact Hhdr).
  fold (version_of layout first).
  rewrite bool_decide_eq_true_2 by exact Hver. split; reflexivity.
Qed.

(** When the first read brings fewer bytes than the header needs, the
    first call to the OTA driver is a write to handle 0, before any
    [esp_ota_begin]; if the driver refuses it, the upgrade is given up
    there. *)
Theorem Upgrade_short_first_read (first : list Z)
    (rest : list (option (list Z))) :
  content_length <> 0 ->
  first <> [] ->
  (length first < desc_offset layout + desc_size layout)%nat ->
  let result := Upgrade layout drv has_callback current_version content_length
                  clock true true (Some first :: rest) in
  (exists tail,
      result.1.2 = (esp_ota_write 0 first, drv [] (esp_ota_write 0 first)) :: tail)
  /\ (err (drv [] (esp_ota_write 0 first)) <> ESP_OK ->
      result.1.1 = write_failed
      /\ map fst result.1.2 = [esp_ota_write 0 first; esp_ota_abort 0]).
Proof.
  intros Hlen Hfirst Hshort result. subst result. unfold Upgrade. cbn [negb].
  replace (content_length =? 0) with false by lia.
  cbn [Upgrade_loop]. rewrite (length_nonzero first Hfirst). cbn [app].
  replace (desc_offset layout + desc_size layout <=? length first)%nat
    with false by (symmetry; apply Nat.leb_gt; exact Hshort).
  unfold ota_call. cbn [app].
  destruct (err (drv [] (esp_ota_write 0 first)) =? ESP_OK) eqn:E; cbn [negb].
  - split; [|intros Hn; apply Z.eqb_eq in E; contradiction].
    match goal with
    | |- context [loop ?rs ?t ?r ?l ?hd ?ck ?hh ?tk ?tr ?cb] =>
        assert (exists tail, (loop rs t r l hd ck hh tk tr cb).1.2 = tr ++ tail)
          as [tail ->]
    end; [|eexists; reflexivity].
    apply loop_extends.
  - split; [eexists; reflexivity|]. intros _. split; reflexivity.
Qed.

Lemma loop_restart_validated (reads : list (option (list Z))) :
  forall total recent last hdr checked h ticks trace cbs,
    (loop reads total recent last hdr checked h ticks trace cbs).1.1 = restarted ->
    ends_validated (loop reads total recent last hdr checked h ticks trace cbs).1.2.
Proof.
  induction reads as [|[buffer|] reads IH];
    intros total recent last hdr checked h ticks trace cbs; cbn [Upgrade_loop];
    [discriminate| |discriminate].
  assert (forall h' hdr' checked' trace' t r l tk cb,
             (let '(r0, trace0) :=
                ota_call drv (esp_ota_write h' buffer) trace' in
              if negb (err r0 =? ESP_OK)
              then let '(_, trace1) :=
                     ota_call drv (esp_ota_abort h') trace0 in
                   (write_failed, trace1, cb)
              else loop reads t r l hdr' checked' h' tk trace0 cb).1.1
             = restarted ->
             ends_validated
               (let '(r0, trace0) :=
                  ota_call drv (esp_ota_write h' buffer) trace' in
                if negb (err r0 =? ESP_OK)
                then let '(_, trace1) :=
                       ota_call drv (esp_ota_abort h') trace0 in
                     (write_failed, trace1, cb)
                else loop reads t r l hdr' checked' h' tk trace0 cb).1.2)
    as Hwrite.
  { intros h' hdr' checked' trace' t r l tk cb. unfold ota_call.
    destruct (negb (err _ =? ESP_OK)); [discriminate|]. apply IH. }
  destruct (Z.of_nat (length buffer) =? 0).
  - unfold Upgrade_finish, ota_call.
    destruct (err (drv trace (esp_ota_end h)) =? ESP_OK) eqn:E1; cbn [negb];
      [|discriminate].
    destruct (err (drv (trace ++ [(esp_ota_end h, drv trace (esp_ota_end h))])
                     esp_ota_set_boot_partition) =? ESP_OK) eqn:E2;
      cbn [negb]; [|discriminate].
    intros _. simpl. eexists trace, h, _, _, _. rewrite <- !app_assoc.
    split; [reflexivity|]. split; now apply Z.eqb_eq.
  - destruct checked; [apply Hwrite|].
    destruct (_ <=? _)%nat; [|apply Hwrite].
    destruct (bool_decide _); [discriminate|].
    destruct (ota_call drv esp_ota_begin trace) as [r0 tr0].
    destruct (negb (err r0 =? 0)); [unfold ota_call; discriminate|].
    apply Hwrite.
Qed.

(** [Upgrade] restarts the device only after the update was ended and the
    boot partition set, both accepted by the driver: whatever is read and
    whatever the driver answers, a run that ends in the restart has
    [esp_ota_end], [esp_ota_set_boot_partition] and the restart as its last
    three OTA calls. *)
Theorem Upgrade_restart_validated (partition_found open_ok : bool)
    (reads : list (option (list Z))) :
  let result := Upgrade layout drv has_callback current_version content_length
                  clock partition_found open_ok reads in
  result.1.1 = restarted -> ends_validated result.1.2.
Proof.
  intros result. subst result. unfold Upgrade.
  destruct partition_found; cbn [negb]; [|discriminate].
  destruct open_ok; cbn [negb]; [|discriminate].
  destruct (content_length =? 0); [discriminate|].
  apply loop_restart_validated.
Qed.



End Facts.

Lemma Upgrade_flashes_download_witness :
  let result := Upgrade esp32_layout willing_driver true (repeat 1 32) 302
                  (fun _ => 0) true true
                  (map Some (image_2 :: [[9; 9]]) ++ [Some []]) in
  result.1.1 = restarted
  /\ map fst result.1.2
     = esp_ota_begin :: map (esp_ota_write 7) (image_2 :: [[9; 9]])
       ++ [esp_ota_end 7; esp_ota_set_boot_partition; esp_restart]
  /\ written (map fst result.1.2) = concat (image_2 :: [[9; 9]]).
Proof.
  apply (Upgrade_flashes_download esp32_layout willing_driver true (repeat 1 32)
           302 (fun _ => 0) image_2 [[9; 9]]).
  - reflexivity.
  - discriminate.
  - repeat constructor; discriminate.
  - vm_compute. lia.
  - vm_compute. discriminate.
Defined.

Lemma Upgrade_skips_same_version_witness :
  let result := Upgrade esp32_layout willing_driver true (repeat 2 32) 302
                  (fun _ => 0) true true [Some image_2; Some [9; 9]; Some []] in
  result.1.1 = same_version /\ result.1.2 = [].
Proof.
  apply (Upgrade_skips_same_version esp32_layout willing_driver true (repeat 2 32)
           302 (fun _ => 0) image_2 [Some [9; 9]; Some []]).
  - discriminate.
  - discriminate.
  - vm_compute. lia.
  - vm_compute. reflexivity.
Defined.

Lemma Upgrade_short_first_read_witness :
  let first := take 100 image_2 in
  let result := Upgrade esp32_layout strict_driver true (repeat 1 32) 302
                  (fun _ => 0) true true
                  [Some first; Some (drop 100 image_2); Some []] in
  (exists tail,
      result.1.2
      = (esp_ota_write 0 first, strict_driver [] (esp_ota_write 0 first)) :: tail)
  /\ (err (strict_driver [] (esp_ota_write 0 first)) <> ESP_OK ->
      result.1.1 = write_failed
      /\ map fst result.1.2 = [esp_ota_write 0 first; esp_ota_abort 0]).
Proof.
  intros first.
  apply (Upgrade_short_first_read esp32_layout strict_driver true (repeat 1 32)
           302 (fun _ => 0) first [Some (drop 100 image_2); Some []]).
  - discriminate.
  - discriminate.
  - vm_compute. lia.
Defined.

Lemma Upgrade_restart_validated_witness :
  ends_validated
    (Upgrade esp32_layout willing_driver true (repeat 1 32) 302 (fun _ => 0)
       true true [Some image_2; Some [9; 9]; Some []]).1.2.
Proof.
  apply (Upgrade_restart_validated esp32_layout willing_driver true (repeat 1 32)
           302 (fun _ => 0) true true [Some image_2; Some [9; 9]; Some []]).
  vm_compute. reflexivity.
Defined.


(** A header that arrives over two reads: the first goes to handle 0, the
    update is opened at the second, and the progress still ends at 100. *)
Example Upgrade_header_in_two_reads :
  let result := Upgrade esp32_layout willing_driver true (repeat 1 32) 302
                  (fun _ => 0) true true
                  [Some (take 100 image_2); Some (drop 100 image_2);
                   Some [9; 9]; Some []] in
  result.1.1 = restarted
  /\ last result.2 = Some (100, 302)
  /\ map fst result.1.2
     = [esp_ota_write 0 (take 100 image_2); esp_ota_begin;
        esp_ota_write 7 (drop 100 image_2); esp_ota_write 7 [9; 9];
        esp_ota_end 7; esp_ota_set_boot_partition; esp_restart].
Proof. vm_compute. repeat split. Qed.

End OtaUpgradeFacts.

(** ** Activation *)

Module OtaActivateFacts.
Import Ota OtaActivate.

Lemma back_append_char (s : string) (c : ascii) :
  back (String.append s (String c EmptyString)) = Some c.
Proof.
  induction s as [|x s IH]; [reflexivity|].
  change (String.append (String x s) (String c EmptyString))
    with (String x (String.append s (String c EmptyString))).
  cbn [back]. rewrite IH.
  destruct s; reflexivity.
Qed.

Lemma append_assoc' (a b c : string) :
  String.append (String.append a b) c = String.append a (String.append b c).
Proof.
  induction a as [|x a IH]; [reflexivity|].
  change (String x (String.append (String.append a b) c)
          = String x (String.append a (String.append b c))).
  now rewrite IH.
Qed.

(** A slash at the end of the check URL makes no difference to [Activate]:
    with or without it the same request goes to the same address, the
    check URL followed by "/activate", and the same code is returned. *)
Theorem Activate_trailing_slash (base : string) (c : ascii)
    (has_challenge : bool) (data : string)
    (http : string -> string -> option (Z * string)) :
  back base = Some c ->
  c <> "/"%char ->
  activation_url base = Some (String.append base "/activate")
  /\ Activate has_challenge (String.append base "/") data http
     = Activate has_challenge base data http.
Proof.
  intros Hback Hc.
  assert (activation_url base = Some (String.append base "/activate")) as H1.
  { unfold activation_url. rewrite Hback.
    replace (Ascii.eqb c "/") with false; [reflexivity|].
    symmetry. now apply Ascii.eqb_neq. }
  assert (activation_url (String.append base "/")
          = Some (String.append base "/activate")) as H2.
  { unfold activation_url. rewrite back_append_char. simpl.
    now rewrite append_assoc'. }
  split; [exact H1|]. unfold Activate. now rewrite H1, H2.
Qed.

Lemma Activate_trailing_slash_witness :
  activation_url "https://api.example.com/ota"
  = Some "https://api.example.com/ota/activate"
  /\ Activate true "https://api.example.com/ota/" "{}" (fun _ _ => Some (200, ""))
     = Activate true "https://api.example.com/ota" "{}" (fun _ _ => Some (200, "")).
Proof.
  apply (Activate_trailing_slash "https://api.example.com/ota" "a" true "{}"
           (fun _ _ => Some (200, ""))).
  - reflexivity.
  - discriminate.
Defined.

(** [Activate] answers [ESP_OK] only to a status of 200 on a request it
    really made, and it makes no request without an activation
    challenge. *)
Theorem Activate_ok_iff (has_challenge : bool) (url data : string)
    (http : string -> string -> option (Z * string))
    (code : Z) (request : option (string * string)) :
  Activate has_challenge url data http = Some (code, request) ->
  (code = ESP_OK <->
   has_challenge = true
   /\ exists address body,
        activation_url url = Some address
        /\ http address data = Some (200, body)
        /\ request = Some (address, data))
  /\ (has_challenge = false -> request = None /\ code = ESP_FAIL).
Proof.
  unfold Activate. destruct has_challenge; cbn [negb].
  2:{ intros H. injection H as <- <-. split; [|auto].
      split; [discriminate|]. intros [H _]. discriminate H. }
  destruct (activation_url url) as [address|]; [|discriminate].
  destruct (http address data) as [[status body]|] eqn:Hh.
  2:{ intros H. injection H as <- <-. split; [|discriminate].
      split; [discriminate|]. intros (_ & a & b & Ha & Hb & _).
      injection Ha as <-. congruence. }
  destruct (status =? 202) eqn:E202.
  { intros H. injection H as <- <-. split; [|discriminate].
    split; [discriminate|]. intros (_ & a & b & Ha & Hb & _).
    injection Ha as <-. rewrite Hh in Hb. injection Hb as -> _. discriminate. }
  destruct (status =? 200) eqn:E200; cbn [negb].
  - intros H. injection H as <- <-. split; [|discriminate].
    split; [|reflexivity]. intros _. split; [reflexivity|].
    exists address, body. apply Z.eqb_eq in E200. subst. repeat split. exact Hh.
  - intros H. injection H as <- <-. split; [|discriminate].
    split; [discriminate|]. intros (_ & a & b & Ha & Hb & _).
    injection Ha as <-. rewrite Hh in Hb. injection Hb as -> _. discriminate.
Qed.

Lemma Activate_ok_iff_witness :
  (ESP_ERR_TIMEOUT = ESP_OK <->
   true = true
   /\ exists address body,
        activation_url "https://api.example.com/ota/" = Some address
        /\ (fun _ _ : string => Some (202, "wait")) address "{}" = Some (200, body)
        /\ Some ("https://api.example.com/ota/activate", "{}")
           = Some (address, "{}"))
  /\ (true = false ->
      Some ("https://api.example.com/ota/activate", "{}") = None
      /\ ESP_ERR_TIMEOUT = ESP_FAIL).
Proof.
  apply (Activate_ok_iff true "https://api.example.com/ota/" "{}"
           (fun _ _ => Some (202, "wait"))).
  reflexivity.
Defined.

Lemma byte_hex_value (b : Z) :
  0 <= b < 256 ->
  16 * hex_value (hex_digit (b / 16)) + hex_value (hex_digit (b mod 16)) = b.
Proof.
  intros Hb.
  assert (forall n, 0 <= n < 16 -> hex_value (hex_digit n) = n) as Hd.
  { intros n Hn. rewrite <- (Z2Nat.id n) by lia.
    assert (Z.to_nat n < 16)%nat as Hk by lia.
    generalize dependent (Z.to_nat n). intros k Hk.
    do 16 (destruct k as [|k]; [reflexivity|]). lia. }
  rewrite !Hd.
  - pose proof (Z.div_mod b 16). lia.
  - apply Z.mod_pos_bound. lia.
  - split; [apply Z.div_pos; lia|apply Z.div_lt_upper_bound; lia].
Qed.

(** The hexadecimal text of the HMAC loses nothing: it has two characters
    for each byte and reads back as the bytes it was made from. *)
Theorem hmac_hex_round_trip (hmac_result : list Z) :
  Forall (fun b => 0 <= b < 256) hmac_result ->
  hex_bytes (hmac_hex hmac_result) = hmac_result
  /\ String.length (hmac_hex hmac_result) = (2 * length hmac_result)%nat.
Proof.
  induction 1 as [|b rest Hb Hrest [IH1 IH2]]; [split; reflexivity|].
  change (hmac_hex (b :: rest))
    with (String (hex_digit (b / 16))
            (String (hex_digit (b mod 16)) (hmac_hex rest))).
  cbn [hex_bytes String.length length]. rewrite IH1, IH2, byte_hex_value by assumption.
  split; [reflexivity|lia].
Qed.

Lemma hmac_hex_round_trip_witness :
  hex_bytes (hmac_hex [0; 171; 255]) = [0; 171; 255]
  /\ String.length (hmac_hex [0; 171; 255]) = (2 * length [0; 171; 255])%nat.
Proof.
  apply (hmac_hex_round_trip [0; 171; 255]). repeat constructor; lia.
Defined.

Example hmac_hex_text : hmac_hex [0; 171; 255] = "00abff".
Proof. reflexivity. Qed.

End OtaActivateFacts.

(** ** The board with two networks *)

Module DualNetworkBoardFacts.
Import Settings DualNetworkBoard.

Lemma Load_after_Save (type : NetworkType) (nvs : gmap (string * string) nvs_value) :
  LoadNetworkTypeFromSettings (SaveNetworkTypeToSettings type nvs) = type.
Proof.
  unfold LoadNetworkTypeFromSettings, SaveNetworkTypeToSettings, GetInt, SetInt.
  rewrite lookup_insert_eq. destruct type; reflexivity.
Qed.

(** [SwitchNetworkType] followed by the reboot brings up the board of the
    other network, whatever the settings held before; a second switch and
    reboot brings back the first network. No other setting is touched. *)
Theorem SwitchNetworkType_toggles (b : DualNetworkBoard)
    (nvs : gmap (string * string) nvs_value) :
  let '(b1, nvs1) := switch_and_reboot b nvs in
  let '(b2, nvs2) := switch_and_reboot b1 nvs1 in
  network_type_ b1 = other (network_type_ b)
  /\ current_board_ b1
     = InitializeCurrentBoard (ml307_tx_pin_ b) (ml307_rx_pin_ b)
         (ml307_rx_buffer_size_ b) (other (network_type_ b))
  /\ network_type_ b2 = network_type_ b
  /\ forall ns key, (ns, key) <> ("network", "type") ->
                    nvs2 !! (ns, key) = nvs !! (ns, key).
Proof.
  unfold switch_and_reboot, SwitchNetworkType, construct. simpl.
  destruct (network_type_ b); simpl; rewrite !Load_after_Save; simpl;
    rewrite ?Load_after_Save; repeat split;
    intros ns key Hne; unfold SaveNetworkTypeToSettings, SetInt;
    now rewrite !lookup_insert_ne by congruence.
Qed.

(** A board constructed on settings without a stored type, or with a type
    that is not a number, runs ML307; any stored number other than 1 gives
    the WiFi board. *)
Lemma LoadNetworkTypeFromSettings_cases (nvs : gmap (string * string) nvs_value) :
  LoadNetworkTypeFromSettings nvs
  = match nvs !! ("network", "type") with
    | Some (nvs_i32 n) => if n =? 1 then ML307 else WIFI
    | _ => ML307
    end.
Proof.
  unfold LoadNetworkTypeFromSettings, GetInt.
  destruct (nvs !! ("network", "type")) as [[s|n]|]; reflexivity.
Qed.

End DualNetworkBoardFacts.
